(** * py_validator: the matching engine [sub] and the entry point [validate]

    A shallow embedding of [src/py_validator.py].  The Python objects the
    engine receives (data and schema alike: the source keeps both in one
    dynamically typed universe) are the inductive type [value]; the mutable
    [report] list, the faults of the host and the mutable context of callable
    checkers are threaded explicitly through a state and exception monad.

    Scope of the universe: the built-in data of Python (None, bool, int,
    float, str, list, tuple, set, frozenset, dict), type objects, instances
    of the six classes of the module and callables.  Instances of user
    classes that override [__eq__], [__hash__] or [__bool__] are outside of
    it.  Instances and callables carry an object identity [id]; two
    occurrences of a float NaN are taken to be distinct objects.

    Floats are the binary64 numbers of [SpecFloat], so that [float(n)] rounds
    and overflows as in CPython.  A dict is the list of its items in
    insertion order, and a set the list of its elements in iteration order:
    keys are found by the equality of the host (1, 1.0 and True are one
    key), and the order in which [sub] rebuilds a mapping is part of what it
    returns. *)

From Stdlib Require Import ZArith List String Ascii Bool Lia.
From Stdlib Require Import DecimalString.
From Stdlib Require DecimalNat DecimalFacts.
From Stdlib Require Import Floats.SpecFloat.
Import ListNotations.
Set Warnings "-register-all".
Local Open Scope string_scope.
Local Open Scope Z_scope.

(* ================================================================== *)
(** ** Data model *)

(** Type objects: what [type(x)] can be, and what a type marker names. *)
Inductive pytype : Type :=
| TNoneType | TBool | TInt | TFloat | TStr
| TList | TTuple | TSet | TFrozenset | TDict | TType
| TOr | TAnd | TListOf | TOptional | TForceValue | TError
| TFunction | TMethod | TBuiltin
| TClass (name : string).

(** How a callable exposes its code object to [funcInfo]. *)
Inductive callable_kind : Type :=
| PlainFunction                 (* [def] or [lambda]: has [__code__] *)
| BoundMethod                   (* method of an instance: [__code__] counts [self] *)
| CallableObject (cls : string) (* instance with [__call__], a bound method *)
| Builtin.                      (* no [__code__] anywhere *)

Inductive value : Type :=
| VNone
| VBool (b : bool)
| VInt (z : Z)
| VFloat (f : spec_float)
| VStr (s : string)
| VList (xs : list value)
| VTuple (xs : list value)
| VSet (xs : list value)            (* elements in iteration order *)
| VFrozenset (xs : list value)
| VDict (items : list (value * value)) (* items in insertion order *)
| VType (t : pytype)
| VOr (id : nat) (choice : list value)
| VAnd (id : nat) (choice : list value)
| VListOf (id : nat) (check : value)
| VOptional (id : nat) (key : value)
| VForceValue (id : nat) (v : value)
| VError (id : nat) (message : value)
| VFunc (id : nat) (kind : callable_kind) (co_argcount : Z) (co_name : string).

(** An exception object.  [exn_is_exception] tells whether its class derives
    from [Exception] (what [except Exception] catches) or only from
    [BaseException] (SystemExit, KeyboardInterrupt). *)
Record exn : Type := mkExn {
  exn_class : string;
  exn_is_exception : bool;
  exn_str : string
}.

(** One entry of [report]: the pair [(path, message)], the triple
    [(path, message, value)], and the triple [(path, 'failure', e)] whose
    last component is the caught exception object. *)
Inductive diag : Type :=
| D2 (path : string) (msg : value)
| D3 (path : string) (msg : value) (v : value)
| DFail (path : string) (e : exn).

Inductive outcome (A : Type) : Type :=
| Ret (a : A)
| Raise (e : exn).
Arguments Ret {A} a.
Arguments Raise {A} e.

(** Induction on [value] that reaches below the nested lists. *)
Section value_rect_nested.
Variable P : value -> Prop.
Hypothesis HNone : P VNone.
Hypothesis HBool : forall b, P (VBool b).
Hypothesis HInt : forall z, P (VInt z).
Hypothesis HFloat : forall f, P (VFloat f).
Hypothesis HStr : forall s, P (VStr s).
Hypothesis HList : forall xs, Forall P xs -> P (VList xs).
Hypothesis HTuple : forall xs, Forall P xs -> P (VTuple xs).
Hypothesis HSet : forall xs, Forall P xs -> P (VSet xs).
Hypothesis HFrozenset : forall xs, Forall P xs -> P (VFrozenset xs).
Hypothesis HDict : forall items,
    Forall (fun kv => P (fst kv) /\ P (snd kv)) items -> P (VDict items).
Hypothesis HType : forall t, P (VType t).
Hypothesis HOr : forall id cs, Forall P cs -> P (VOr id cs).
Hypothesis HAnd : forall id cs, Forall P cs -> P (VAnd id cs).
Hypothesis HListOf : forall id c, P c -> P (VListOf id c).
Hypothesis HOptional : forall id k, P k -> P (VOptional id k).
Hypothesis HForceValue : forall id v, P v -> P (VForceValue id v).
Hypothesis HError : forall id m, P m -> P (VError id m).
Hypothesis HFunc : forall id k n s, P (VFunc id k n s).

Fixpoint value_ind_nested (v : value) : P v :=
  let all := fix all (l : list value) : Forall P l :=
               match l with
               | [] => Forall_nil P
               | x :: l' => Forall_cons x (value_ind_nested x) (all l')
               end in
  match v with
  | VNone => HNone
  | VBool b => HBool b
  | VInt z => HInt z
  | VFloat f => HFloat f
  | VStr s => HStr s
  | VList xs => HList xs (all xs)
  | VTuple xs => HTuple xs (all xs)
  | VSet xs => HSet xs (all xs)
  | VFrozenset xs => HFrozenset xs (all xs)
  | VDict items =>
      HDict items
        ((fix alld (l : list (value * value)) :
            Forall (fun kv => P (fst kv) /\ P (snd kv)) l :=
            match l with
            | [] => Forall_nil _
            | (k, x) :: l' =>
                Forall_cons (k, x)
                  (conj (value_ind_nested k) (value_ind_nested x)) (alld l')
            end) items)
  | VType t => HType t
  | VOr id cs => HOr id cs (all cs)
  | VAnd id cs => HAnd id cs (all cs)
  | VListOf id c => HListOf id c (value_ind_nested c)
  | VOptional id k => HOptional id k (value_ind_nested k)
  | VForceValue id x => HForceValue id x (value_ind_nested x)
  | VError id m => HError id m (value_ind_nested m)
  | VFunc id k n s => HFunc id k n s
  end.
End value_rect_nested.

(* ================================================================== *)
(** ** The host: what the Python built-ins used by the engine compute *)

Definition pytype_eqb (a b : pytype) : bool :=
  match a, b with
  | TNoneType, TNoneType | TBool, TBool | TInt, TInt | TFloat, TFloat
  | TStr, TStr | TList, TList | TTuple, TTuple | TSet, TSet
  | TFrozenset, TFrozenset | TDict, TDict | TType, TType
  | TOr, TOr | TAnd, TAnd | TListOf, TListOf | TOptional, TOptional
  | TForceValue, TForceValue | TError, TError
  | TFunction, TFunction | TMethod, TMethod | TBuiltin, TBuiltin => true
  | TClass n, TClass m => String.eqb n m
  | _, _ => false
  end.

(** [t.__name__] *)
Definition type_name (t : pytype) : string :=
  match t with
  | TNoneType => "NoneType" | TBool => "bool" | TInt => "int"
  | TFloat => "float" | TStr => "str" | TList => "list"
  | TTuple => "tuple" | TSet => "set" | TFrozenset => "frozenset"
  | TDict => "dict" | TType => "type"
  | TOr => "Or" | TAnd => "And" | TListOf => "ListOf"
  | TOptional => "Optional" | TForceValue => "ForceValue"
  | TError => "Error"
  | TFunction => "function" | TMethod => "method"
  | TBuiltin => "builtin_function_or_method"
  | TClass n => n
  end.

(** [type(x)] *)
Definition type_of (x : value) : pytype :=
  match x with
  | VNone => TNoneType
  | VBool _ => TBool
  | VInt _ => TInt
  | VFloat _ => TFloat
  | VStr _ => TStr
  | VList _ => TList
  | VTuple _ => TTuple
  | VSet _ => TSet
  | VFrozenset _ => TFrozenset
  | VDict _ => TDict
  | VType _ => TType
  | VOr _ _ => TOr
  | VAnd _ _ => TAnd
  | VListOf _ _ => TListOf
  | VOptional _ _ => TOptional
  | VForceValue _ _ => TForceValue
  | VError _ _ => TError
  | VFunc _ PlainFunction _ _ => TFunction
  | VFunc _ BoundMethod _ _ => TMethod
  | VFunc _ (CallableObject cls) _ _ => TClass cls
  | VFunc _ Builtin _ _ => TBuiltin
  end.

(** *** Floats: IEEE 754 binary64, after the specification of the
    Standard Library *)

Definition prec64 : Z := 53.
Definition emax64 : Z := 1024.

(** [float(z)] of an int: the nearest binary64, ties to even; CPython
    raises OverflowError when the result is not finite. *)
Definition float_of_int (z : Z) : option spec_float :=
  match binary_normalize prec64 emax64 z 0 false with
  | S754_infinity _ => None
  | S754_nan => None
  | f => Some f
  end.

(** [f == z] for a float and an int: CPython compares the exact values. *)
Definition float_eq_int (f : spec_float) (z : Z) : bool :=
  match f with
  | S754_zero _ => Z.eqb z 0
  | S754_finite s m e =>
      let mz := if s then Zneg m else Zpos m in
      if 0 <=? e then Z.eqb z (mz * 2 ^ e) else Z.eqb (z * 2 ^ (- e)) mz
  | _ => false
  end.

Definition float_is_zero (f : spec_float) : bool :=
  match f with S754_zero _ => true | _ => false end.

(** *** Equality [a == b] *)

Inductive number : Type :=
| NInt (z : Z)
| NFloat (f : spec_float).

Definition number_of (x : value) : option number :=
  match x with
  | VBool b => Some (NInt (Z.b2z b))
  | VInt z => Some (NInt z)
  | VFloat f => Some (NFloat f)
  | _ => None
  end.

Definition number_eqb (a b : number) : bool :=
  match a, b with
  | NInt x, NInt y => Z.eqb x y
  | NInt x, NFloat g => float_eq_int g x
  | NFloat f, NInt y => float_eq_int f y
  | NFloat f, NFloat g => SFeqb f g
  end.

Definition is_set (x : value) : option (list value) :=
  match x with
  | VSet xs | VFrozenset xs => Some xs
  | _ => None
  end.

(** The comparison of built-in values never raises. Lists and tuples compare
    element-wise, sets by mutual inclusion, dicts by their items, numbers by
    value across bool, int and float, type objects and the instances of the
    classes of the module (which define no [__eq__]) by identity. *)
Fixpoint py_eq (a b : value) {struct a} : bool :=
  let all2 :=
    fix all2 (xs ys : list value) : bool :=
      match xs, ys with
      | [], [] => true
      | x :: xs', y :: ys' => py_eq x y && all2 xs' ys'
      | _, _ => false
      end in
  let subset (xs ys : list value) : bool :=
    forallb (fun x => existsb (fun y => py_eq x y) ys) xs in
  match a with
  | VNone => match b with VNone => true | _ => false end
  | VBool x =>
      match number_of b with
      | Some n => number_eqb (NInt (Z.b2z x)) n
      | None => false
      end
  | VInt x =>
      match number_of b with
      | Some n => number_eqb (NInt x) n
      | None => false
      end
  | VFloat f =>
      match number_of b with
      | Some n => number_eqb (NFloat f) n
      | None => false
      end
  | VStr s => match b with VStr t => String.eqb s t | _ => false end
  | VList xs => match b with VList ys => all2 xs ys | _ => false end
  | VTuple xs => match b with VTuple ys => all2 xs ys | _ => false end
  | VSet xs | VFrozenset xs =>
      match is_set b with
      | Some ys => Nat.eqb (List.length xs) (List.length ys) && subset xs ys
      | None => false
      end
  | VDict items =>
      match b with
      | VDict items' =>
          Nat.eqb (List.length items) (List.length items')
          && (fix alld (l : list (value * value)) : bool :=
                match l with
                | [] => true
                | (k, x) :: l' =>
                    existsb (fun kv => py_eq k (fst kv) && py_eq x (snd kv))
                      items'
                    && alld l'
                end) items
      | _ => false
      end
  | VType t => match b with VType u => pytype_eqb t u | _ => false end
  | VOr i _ => match b with VOr j _ => Nat.eqb i j | _ => false end
  | VAnd i _ => match b with VAnd j _ => Nat.eqb i j | _ => false end
  | VListOf i _ => match b with VListOf j _ => Nat.eqb i j | _ => false end
  | VOptional i _ =>
      match b with VOptional j _ => Nat.eqb i j | _ => false end
  | VForceValue i _ =>
      match b with VForceValue j _ => Nat.eqb i j | _ => false end
  | VError i _ => match b with VError j _ => Nat.eqb i j | _ => false end
  | VFunc i _ _ _ => match b with VFunc j _ _ _ => Nat.eqb i j | _ => false end
  end.

(** [a != b] *)
Definition py_ne (a b : value) : bool := negb (py_eq a b).

(** [bool(x)], as [not res] needs it *)
Definition truthy (x : value) : bool :=
  match x with
  | VNone => false
  | VBool b => b
  | VInt z => negb (Z.eqb z 0)
  | VFloat f => negb (float_is_zero f)
  | VStr s => negb (String.eqb s "")
  | VList xs | VTuple xs | VSet xs | VFrozenset xs =>
      match xs with [] => false | _ => true end
  | VDict items => match items with [] => false | _ => true end
  | _ => true
  end.

(** [hash(x)]: lists, sets and dicts are unhashable, a tuple hashes its
    elements in order. The result is the object at which TypeError is
    raised, if any. *)
Fixpoint first_unhashable (x : value) : option value :=
  match x with
  | VList _ | VSet _ | VDict _ => Some x
  | VTuple xs =>
      (fix go (l : list value) : option value :=
         match l with
         | [] => None
         | y :: l' =>
             match first_unhashable y with
             | Some u => Some u
             | None => go l'
             end
         end) xs
  | _ => None
  end.

(** [isList]: [isinstance(x, (list, tuple, set, frozenset))], with the
    elements in iteration order. *)
Definition isList (x : value) : option (list value) :=
  match x with
  | VList xs | VTuple xs | VSet xs | VFrozenset xs => Some xs
  | _ => None
  end.

(** [iter(x)]: what [enumerate(x)] walks through; [None] when [x] is not
    iterable (a TypeError). A str yields its characters, a dict its keys. *)
Definition py_iter (x : value) : option (list value) :=
  match x with
  | VList xs | VTuple xs | VSet xs | VFrozenset xs => Some xs
  | VStr s =>
      Some (map (fun c => VStr (String c EmptyString)) (list_ascii_of_string s))
  | VDict items => Some (map fst items)
  | _ => None
  end.

(** [type(x) == int]: bool is a subclass of int and is excluded. *)
Definition int_of (x : value) : option Z :=
  match x with VInt z => Some z | _ => None end.

(** [isinstance(x, strtype)] under Python 3, where [strtype = (str,)]. *)
Definition is_str (x : value) : bool :=
  match x with VStr _ => true | _ => false end.

(** Dicts: [obj[key]] (with [key in obj]) and [obj2[key] = v]. Keys are
    found by hash and [==]; an existing key keeps its place. *)
Fixpoint dict_get (key : value) (items : list (value * value)) : option value :=
  match items with
  | [] => None
  | (k, x) :: rest => if py_eq k key then Some x else dict_get key rest
  end.

Fixpoint dict_set (key v : value) (items : list (value * value))
  : list (value * value) :=
  match items with
  | [] => [(key, v)]
  | (k, x) :: rest =>
      if py_eq k key then (k, v) :: rest else (k, x) :: dict_set key v rest
  end.

(** [(expk.key, False) if isOpt(expk) else (expk, True)]: the key a schema
    field stands for, and whether it is mandatory. *)
Definition field_entry (expk : value) : value * bool :=
  match expk with
  | VOptional _ k => (k, false)
  | _ => (expk, true)
  end.

Definition field_key (expk : value) : value := fst (field_entry expk).

(** ['%d' % n] *)
Definition string_of_nat (n : nat) : string :=
  NilEmpty.string_of_uint (Nat.to_uint n).

Definition index_path (path : string) (i : nat) : string :=
  path ++ "[" ++ string_of_nat i ++ "]".

Definition key_path (path key : string) : string :=
  path ++ "." ++ key.

(** [funcInfo(f)]: (arity, name) read off the code object; [None] when the
    chain [f.__call__.__call__...] never reaches a [__code__] and the
    recursion of [funcInfo] exhausts the stack. *)
Definition funcInfo (kind : callable_kind) (co_argcount : Z) (co_name : string)
  : option (Z * string) :=
  match kind with
  | PlainFunction => Some (co_argcount, co_name)
  | BoundMethod => Some (co_argcount - 1, co_name)
  | CallableObject _ => Some (co_argcount - 1, co_name)
  | Builtin => None
  end.

(** The exceptions the built-ins raise. *)
Definition squote : string := String (ascii_of_nat 39) EmptyString.
Definition dquote : string := String (ascii_of_nat 34) EmptyString.

Definition TypeError (msg : string) : exn := mkExn "TypeError" true msg.

Definition not_iterable (x : value) : exn :=
  TypeError (squote ++ type_name (type_of x) ++ squote
             ++ " object is not iterable").

Definition unhashable (x : value) : exn :=
  TypeError ("unhashable type: " ++ squote ++ type_name (type_of x) ++ squote).

Definition cannot_concatenate (x : value) : exn :=
  TypeError ("can only concatenate str (not " ++ dquote
             ++ type_name (type_of x) ++ dquote ++ ") to str").

Definition OverflowError : exn :=
  mkExn "OverflowError" true "int too large to convert to float".

Definition RecursionError : exn :=
  mkExn "RecursionError" true "maximum recursion depth exceeded".

(** *** [set(report)] *)

(** Hashing a report tuple hashes its components from left to right. *)
Definition diag_unhashable (d : diag) : option value :=
  match d with
  | D2 _ m => first_unhashable m
  | D3 _ m v =>
      match first_unhashable m with
      | Some u => Some u
      | None => first_unhashable v
      end
  | DFail _ _ => None
  end.

Fixpoint report_unhashable (report : list diag) : option value :=
  match report with
  | [] => None
  | d :: rest =>
      match diag_unhashable d with
      | Some u => Some u
      | None => report_unhashable rest
      end
  end.

(** Equality of two report tuples. Every caught exception is an object of
    its own, so two ['failure'] triples are never equal. *)
Definition diag_eqb (a b : diag) : bool :=
  match a, b with
  | D2 p m, D2 q n => String.eqb p q && py_eq m n
  | D3 p m v, D3 q n w => String.eqb p q && py_eq m n && py_eq v w
  | _, _ => false
  end.

(** The elements of [set(l)], first occurrences kept. *)
Fixpoint dedup (seen l : list diag) : list diag :=
  match l with
  | [] => []
  | d :: l' =>
      if existsb (diag_eqb d) seen then dedup seen l'
      else d :: dedup (seen ++ [d])%list l'
  end.

(** [set(report)]: raises TypeError at the first unhashable component. *)
Definition set_of_report (report : list diag) : outcome (list diag) :=
  match report_unhashable report with
  | Some u => Raise (unhashable u)
  | None => Ret (dedup [] report)
  end.

(* ================================================================== *)
(** ** The engine *)

Section Engine.

(** The mutable context the callables of a schema close over, and what
    calling the callable [id] on a list of positional arguments does: it
    returns or raises, and leaves a new context. *)
Variable W : Type.
Variable call : nat -> list value -> W -> outcome value * W.

(** [str(x)], as ['!= %s' % exp] formats the descriptor. *)
Variable py_str : value -> string.

(** A computation of [sub]: it reads and extends the [report] list it was
    given, may change the context, and returns or raises. *)
Definition M (A : Type) : Type :=
  list diag -> W -> outcome A * list diag * W.

Definition ret {A} (a : A) : M A := fun r w => (Ret a, r, w).

Definition bind {A B} (m : M A) (k : A -> M B) : M B :=
  fun r w =>
    match m r w with
    | (Ret a, r', w') => k a r' w'
    | (Raise e, r', w') => (Raise e, r', w')
    end.

Definition raise {A} (e : exn) : M A := fun r w => (Raise e, r, w).

(** [report.append(d)] and [report.extend(ds)] *)
Definition append (d : diag) : M unit := fun r w => (Ret tt, (r ++ [d])%list, w).
Definition extend (ds : list diag) : M unit := fun r w => (Ret tt, (r ++ ds)%list, w).

(** [try: m except Exception as e: h e]: only the classes derived from
    [Exception] are caught. What [m] appended before raising stays. *)
Definition try_except {A} (m : M A) (h : exn -> M A) : M A :=
  fun r w =>
    match m r w with
    | (Ret a, r', w') => (Ret a, r', w')
    | (Raise e, r', w') =>
        if exn_is_exception e then h e r' w' else (Raise e, r', w')
    end.

(** [report2 = []; x = m(report2)]: run [m] on a fresh list and hand the
    list back with the result; the caller's [report] is untouched. *)
Definition fresh {A} (m : M A) : M (A * list diag) :=
  fun r w =>
    match m [] w with
    | (Ret a, r2, w') => (Ret (a, r2), r, w')
    | (Raise e, _, w') => (Raise e, r, w')
    end.

(** [exp(obj)] or [exp(path, obj)] *)
Definition invoke (id : nat) (args : list value) : M value :=
  fun r w => let (o, w') := call id args w in (o, r, w').

Notation "x <- m ;; k" := (bind m (fun x => k))
  (at level 61, m at next level, right associativity).
Notation "m ;;; k" := (bind m (fun _ => k))
  (at level 61, right associativity).

Definition nonempty {A} (l : list A) : bool :=
  match l with [] => false | _ => true end.

(** The loop of the [Or] branch: each choice on a fresh [report2]; stop at
    the first empty one. Returns [(obj2, report2)] as the loop leaves
    them. *)
Definition or_loop (f : value -> M value)
  : list value -> value * list diag -> M (value * list diag) :=
  fix go (cs : list value) (last : value * list diag) :=
    match cs with
    | [] => ret last
    | c :: cs' =>
        r <- fresh (f c) ;;
        if nonempty (snd r) then go cs' r else ret r
    end.

(** The loop of the [And] branch: stop at the first non-empty [report2]. *)
Definition and_loop (f : value -> M value)
  : list value -> value * list diag -> M (value * list diag) :=
  fix go (cs : list value) (last : value * list diag) :=
    match cs with
    | [] => ret last
    | c :: cs' =>
        r <- fresh (f c) ;;
        if nonempty (snd r) then ret r else go cs' r
    end.

(** The loop of [And] as the specification words it (4.2, rule 4), kept
    beside [and_loop] for comparison: "chain the transformed value from one
    choice into the input of the next". [f c o] matches [o] against the
    choice [c]. *)
Definition spec_and_chained (f : value -> value -> M value)
  : list value -> value -> M (value * list diag) :=
  fix go (cs : list value) (cur : value) :=
    match cs with
    | [] => ret (cur, [])
    | c :: cs' =>
        r <- fresh (f c cur) ;;
        if nonempty (snd r) then ret r else go cs' (fst r)
    end.

Definition spec_and_rule (f : value -> value -> M value)
  (choice : list value) (obj : value) : M value :=
  r <- spec_and_chained f choice obj ;;
  let '(obj2, report2) := r in
  if nonempty report2 then extend report2 ;;; ret obj else ret obj2.

(** [[sub(o, e, report, path+'[%d]'%i) for i,(o,e) in
    enumerate(zip(obj, exp))]] *)
Definition zip_loop (f : value -> value -> nat -> M value)
  : list value -> list value -> nat -> M (list value) :=
  fix go (es os : list value) (i : nat) :=
    match es, os with
    | e :: es', o :: os' =>
        x <- f e o i ;;
        xs <- go es' os' (S i) ;;
        ret (x :: xs)
    | _, _ => ret []
    end.

(** [[sub(o, exp.check, report, path+'[%d]'%i) for i,o in
    enumerate(obj)]] *)
Definition each_loop (f : value -> nat -> M value)
  : list value -> nat -> M (list value) :=
  fix go (os : list value) (i : nat) :=
    match os with
    | [] => ret []
    | o :: os' =>
        x <- f o i ;;
        xs <- go os' (S i) ;;
        ret (x :: xs)
    end.

(** The loop over [exp.items()]; it carries [keys] and [obj2]. *)
Definition fields_loop (f : value -> value -> string -> M value)
  (path : string) (items : list (value * value))
  : list (value * value) -> list value -> list (value * value)
    -> M (list value * list (value * value)) :=
  fix go (fields : list (value * value)) (keys : list value)
         (obj2 : list (value * value)) :=
    match fields with
    | [] => ret (keys, obj2)
    | (expk, expv) :: rest =>
        let '(key, mandatory) := field_entry expk in
        match first_unhashable key with
        | Some u => raise (unhashable u)            (* [key in obj] *)
        | None =>
            match dict_get key items with
            | Some v =>
                match key with
                | VStr k =>
                    x <- f expv v (key_path path k) ;;
                    go rest (keys ++ [key])%list (dict_set key x obj2)
                | _ => raise (cannot_concatenate key) (* [path+'.'+key] *)
                end
            | None =>
                (if mandatory then append (D3 path (VStr "not found") key)
                 else ret tt) ;;;
                go rest (keys ++ [key])%list obj2
            end
        end
    end.

(** [set(obj.keys()) - set(keys)], walked in the order of [obj]. *)
Definition extra_keys (items : list (value * value)) (keys : list value)
  : list value :=
  filter (fun k => negb (existsb (py_eq k) keys)) (map fst items).

(** [for key in extra: obj2[key] = obj[key]] *)
Definition copy_extra (items : list (value * value)) (extra : list value)
  (obj2 : list (value * value)) : list (value * value) :=
  fold_left
    (fun d k => match dict_get k items with
                | Some v => dict_set k v d
                | None => d
                end)
    extra obj2.

Section Sub.
Variable ignore_extra_keys : bool.

(** The body of [sub] between [try:] and [except], as a function of the
    recursive call. It returns the final value of the local [obj]. *)
Definition sub_try (rec : value -> value -> string -> M value)
  (exp obj : value) (path : string) : M value :=
  if py_eq obj exp then ret obj else
  match exp with
  | VOr _ [] | VAnd _ [] =>
      append (D2 path (VStr "empty choice")) ;;; ret obj
  | VOr _ choice =>
      r <- or_loop (fun c => rec c obj path) choice (obj, []) ;;
      let '(obj2, report2) := r in
      if nonempty report2 then extend report2 ;;; ret obj
      else ret obj2
  | VAnd _ choice =>
      r <- and_loop (fun c => rec c obj path) choice (obj, []) ;;
      let '(obj2, report2) := r in
      if nonempty report2 then extend report2 ;;; ret obj
      else ret obj2
  | VList es | VTuple es | VSet es | VFrozenset es =>
      match isList obj with
      | None => append (D3 path (VStr "array expected") obj) ;;; ret obj
      | Some os =>
          if negb (Nat.eqb (List.length es) (List.length os)) then
            append (D3 path
                      (VStr ("length is " ++ string_of_nat (List.length os)
                             ++ " but should be "
                             ++ string_of_nat (List.length es)))
                      obj) ;;;
            ret obj
          else
            xs <- zip_loop (fun e o i => rec e o (index_path path i))
                    es os 0%nat ;;
            ret (VList xs)
      end
  | VListOf _ check =>
      match py_iter obj with
      | None => raise (not_iterable obj)
      | Some os =>
          xs <- each_loop (fun o i => rec check o (index_path path i))
                  os 0%nat ;;
          ret (VList xs)
      end
  | VDict fields =>
      match obj with
      | VDict items =>
          r <- fields_loop (fun expv v p => rec expv v p) path items
                 fields [] [] ;;
          let '(keys, obj2) := r in
          let extra := extra_keys items keys in
          if nonempty extra then
            if ignore_extra_keys then
              ret (VDict (copy_extra items extra obj2))
            else
              extend (map (fun e => D3 path (VStr "extra key") e) extra) ;;;
              ret (VDict obj2)
          else ret (VDict obj2)
      | _ => append (D3 path (VStr "dictionary expected") obj) ;;; ret obj
      end
  | VFunc id kind co_argcount co_name =>
      match funcInfo kind co_argcount co_name with
      | None => raise RecursionError
      | Some (nb, name) =>
          if negb (Z.eqb nb 1 || Z.eqb nb 2) then
            append (D2 path (VStr (name ++ " should take 1 or 2 parameters")))
            ;;; ret obj
          else
            res <- try_except
                     (x <- invoke id (if Z.eqb nb 1 then [obj]
                                      else [VStr path; obj]) ;;
                      ret (Some x))
                     (fun e =>
                        append (D2 path
                                  (VStr (name ++ " call raised "
                                         ++ exn_str e))) ;;;
                        ret None) ;;
            match res with
            | None => ret obj
            | Some (VForceValue _ v) => ret v
            | Some (VError _ message) =>
                append (D3 path message obj) ;;; ret obj
            | Some x =>
                if negb (truthy x) then
                  append (D3 path (VStr ("invalidated by " ++ name)) obj)
                  ;;; ret obj
                else ret obj
            end
      end
  | VType t =>
      match (if pytype_eqb t TFloat then int_of obj else None) with
      | Some z =>
          match float_of_int z with
          | Some f => ret (VFloat f)
          | None => raise OverflowError
          end
      | None =>
          if pytype_eqb t TStr then
            if negb (is_str obj) then
              append (D3 path (VStr "not a str") obj) ;;; ret obj
            else ret obj
          else if negb (pytype_eqb t (type_of obj)) then
            append (D3 path (VStr ("not a " ++ type_name t)) obj) ;;;
            ret obj
          else ret obj
      end
  | _ =>
      if py_ne exp obj then
        append (D3 path (VStr ("!= " ++ py_str exp)) obj) ;;; ret obj
      else ret obj
  end.

(** [sub(obj, exp, report, path)]: the body under its safety net. The
    local [obj] is only assigned as the last statement of a branch, so
    the handler returns the argument. *)
Fixpoint sub (exp obj : value) (path : string) {struct exp} : M value :=
  try_except (sub_try sub exp obj path)
    (fun e => append (DFail path e) ;;; ret obj).

End Sub.

(** [validate(given, expected, ignore_extra_keys)] *)
Definition validate (given expected : value) (ignore_extra_keys : bool)
  (w : W) : outcome (value * list diag) * W :=
  match sub ignore_extra_keys expected given "" [] w with
  | (Ret output, report, w') =>
      match set_of_report report with
      | Ret errors => (Ret (output, errors), w')
      | Raise e => (Raise e, w')
      end
  | (Raise e, _, w') => (Raise e, w')
  end.

End Engine.

Arguments ret {W A} a _ _.
Arguments bind {W A B} m k _ _.
Arguments raise {W A} e _ _.
Arguments append {W} d _ _.
Arguments extend {W} ds _ _.
Arguments try_except {W A} m h _ _.
Arguments fresh {W A} m _ _.
Arguments invoke {W} call id args _ _.
Arguments or_loop {W} f cs last _ _.
Arguments and_loop {W} f cs last _ _.
Arguments spec_and_chained {W} f cs cur _ _.
Arguments spec_and_rule {W} f choice obj _ _.
Arguments zip_loop {W} f es os i _ _.
Arguments each_loop {W} f os i _ _.
Arguments fields_loop {W} f path items fields keys obj2 _ _.
Arguments sub_try {W} call py_str ignore_extra_keys rec exp obj path _ _.
Arguments sub {W} call py_str ignore_extra_keys exp obj path _ _.
Arguments validate {W} call py_str given expected ignore_extra_keys w.

(* ================================================================== *)
(** ** The samples of [_code_sample], run on the embedding *)

Module Samples.

(** The callables of the samples:
    1 is [check_year], 2 is [lambda n : ForceValue( n*2 )],
    3 is [lambda n : True if n > 0 else Error('an age is always positive!')],
    4 is a function that raises ValueError. *)
Definition result (id : nat) (args : list value) : outcome value :=
  match id, args with
  | 1%nat, [VInt y] => Ret (VBool ((1850 <? y) && (y <? 2023)))
  | 2%nat, [VInt n] => Ret (VForceValue 100 (VInt (n * 2)))
  | 3%nat, [VInt n] =>
      Ret (if 0 <? n then VBool true
           else VError 101 (VStr "an age is always positive!"))
  | 4%nat, _ => Raise (mkExn "ValueError" true "bad value")
  | _, _ => Raise (TypeError "unsupported operand")
  end.

Definition call (id : nat) (args : list value) (w : unit)
  : outcome value * unit := (result id args, w).

(** The same callables, and 5 that exits the interpreter. *)
Definition call_or_exit (id : nat) (args : list value) (w : unit)
  : outcome value * unit :=
  match id with
  | 5%nat => (Raise (mkExn "SystemExit" false "0"), w)
  | _ => call id args w
  end.

Definition py_str (x : value) : string :=
  match x with
  | VStr s => s
  | VInt z => NilEmpty.string_of_int (Z.to_int z)
  | VNone => "None"
  | VBool true => "True"
  | VBool false => "False"
  | _ => "<object>"
  end.

Definition run (given expected : value) (ignore_extra_keys : bool)
  : outcome (value * list diag) :=
  fst (validate call py_str given expected ignore_extra_keys tt).

Definition check_year : value := VFunc 1 PlainFunction 1 "check_year".
Definition doubler : value := VFunc 2 PlainFunction 1 "<lambda>".
Definition positive : value := VFunc 3 PlainFunction 1 "<lambda>".
Definition raiser : value := VFunc 4 PlainFunction 1 "raiser".
Definition quitter : value := VFunc 5 PlainFunction 1 "quitter".

(** 1.0, 42.0 and 35.5 as binary64 *)
Definition f1 : spec_float := S754_finite false 4503599627370496 (-52).
Definition f42 : spec_float := S754_finite false 5910974510923776 (-47).
Definition f35_5 : spec_float := S754_finite false 4996180836614144 (-47).

Definition scheme : value :=
  VDict [(VStr "name", VType TStr); (VStr "age", VType TFloat)].
Definition person1 : value :=
  VDict [(VStr "name", VStr "Arthur Dent"); (VStr "age", VInt 42)].
Definition person2 : value :=
  VDict [(VStr "name", VStr "Marvin"); (VStr "age", VNone)].
Definition person3 : value :=
  VDict [(VStr "name", VStr "Tricia Mc Millan"); (VStr "age", VFloat f35_5);
         (VStr "aka", VStr "Trillian"); (VStr "actress", VStr "Z.Deschanel")].
Definition person4 : value := VDict [(VStr "name", VBool false)].

End Samples.


(* ================================================================== *)
(** ** Vocabulary of the statements *)

Section Runs.

Variable W : Type.
Variable call : nat -> list value -> W -> outcome value * W.
Variable py_str : value -> string.
Variable ignore_extra_keys : bool.

(** The choices [cs] are tried in order on [obj], each on a fresh report,
    from context [w] to context [w']; every one returns, and its report is
    non-empty exactly when [failing]. *)
Inductive run_choices (failing : bool) (obj : value) (path : string)
  : list value -> W -> W -> Prop :=
| run_choices_nil (w : W) : run_choices failing obj path [] w w
| run_choices_cons (c : value) (cs : list value) (w w1 w2 : W)
    (v : value) (rc : list diag) :
    sub call py_str ignore_extra_keys c obj path [] w = (Ret v, rc, w1) ->
    nonempty rc = failing ->
    run_choices failing obj path cs w1 w2 ->
    run_choices failing obj path (c :: cs) w w2.

(** The computations [ms] run one after the other on the shared report;
    all return, with the values [xs]. *)
Inductive run_each
  : list (M W value) -> list diag -> W -> list value -> list diag -> W -> Prop :=
| run_each_nil (r : list diag) (w : W) : run_each [] r w [] r w
| run_each_cons (m : M W value) (ms : list (M W value))
    (r r1 r2 : list diag) (w w1 w2 : W) (x : value) (xs : list value) :
    m r w = (Ret x, r1, w1) ->
    run_each ms r1 w1 xs r2 w2 ->
    run_each (m :: ms) r w (x :: xs) r2 w2.

(** The element-wise calls of the [ListOf] branch on [os], from index [i]:
    [sub(o, exp.check, report, path+'[%d]'%i)]. *)
Fixpoint listof_calls (check : value) (path : string) (os : list value)
  (i : nat) : list (M W value) :=
  match os with
  | [] => []
  | o :: os' =>
      sub call py_str ignore_extra_keys check o (index_path path i)
      :: listof_calls check path os' (S i)
  end.

(** The element-wise calls of the fixed-sequence branch:
    [sub(o, e, report, path+'[%d]'%i)] over [zip(obj, exp)]. *)
Fixpoint zip_calls (path : string) (es os : list value) (i : nat)
  : list (M W value) :=
  match es, os with
  | e :: es', o :: os' =>
      sub call py_str ignore_extra_keys e o (index_path path i)
      :: zip_calls path es' os' (S i)
  | _, _ => []
  end.

(** The element-wise calls of [sub] on a sequence of elements [os]: those
    of [ListOf], or those of a sequence of descriptors of the same
    length; none for any other schema. *)
Definition element_calls (exp : value) (os : list value) (path : string)
  : option (list (M W value)) :=
  match exp with
  | VListOf _ check => Some (listof_calls check path os 0)
  | _ =>
      match isList exp with
      | Some es =>
          if Nat.eqb (List.length es) (List.length os)
          then Some (zip_calls path es os 0)
          else None
      | None => None
      end
  end.

End Runs.

Arguments run_choices {W} call py_str ignore_extra_keys failing obj path _ _ _.
Arguments run_each {W} _ _ _ _ _ _.
Arguments listof_calls {W} call py_str ignore_extra_keys check path os i.
Arguments zip_calls {W} call py_str ignore_extra_keys path es os i.
Arguments element_calls {W} call py_str ignore_extra_keys exp os path.

Section Properties.

Variable W : Type.

(** [m] only appends to the report it is given. *)
Definition grows {A} (m : M W A) : Prop :=
  forall r w o r' w', m r w = (o, r', w') -> exists ds, r' = (r ++ ds)%list.

(** Whatever [m] raises derives from [Exception]. *)
Definition safe {A} (m : M W A) : Prop :=
  forall r w e r' w', m r w = (Raise e, r', w') -> exn_is_exception e = true.

(** The callables of the schema raise nothing outside of [Exception]. *)
Definition callables_raise_exceptions
  (call : nat -> list value -> W -> outcome value * W) : Prop :=
  forall id args w e w',
    call id args w = (Raise e, w') -> exn_is_exception e = true.

(** Matching the output of a match without diagnostics again, at any
    path and in any context, returns that output and no diagnostic. *)
Definition stable (m : value -> string -> M W value) : Prop :=
  forall obj path w out w',
    m obj path [] w = (Ret out, [], w') ->
    forall path2 w2, m out path2 [] w2 = (Ret out, [], w2).

End Properties.

Arguments stable {W} m.
Arguments grows {W A} m.
Arguments safe {W A} m.
Arguments callables_raise_exceptions {W} call.

(** Every key of the dict is a str. *)
Definition str_keys (d : list (value * value)) : Prop :=
  Forall (fun kv => is_str (fst kv) = true) d.

(** No two of the keys are equal. *)
Fixpoint keys_distinct (keys : list value) : bool :=
  match keys with
  | [] => true
  | k :: rest =>
      forallb (fun k' => negb (py_eq k k') && negb (py_eq k' k)) rest
      && keys_distinct rest
  end.

(** Schemas without [Or], [And] and callables, whose mappings do not name a
    key twice (once bare and once under [Optional]). *)
Fixpoint plain (d : value) : bool :=
  match d with
  | VOr _ _ | VAnd _ _ | VFunc _ _ _ _ => false
  | VList es | VTuple es | VSet es | VFrozenset es => forallb plain es
  | VListOf _ check => plain check
  | VDict fields =>
      keys_distinct (map (fun kv => field_key (fst kv)) fields)
      && (fix all (l : list (value * value)) : bool :=
            match l with
            | [] => true
            | (_, expv) :: l' => plain expv && all l'
            end) fields
  | _ => true
  end.

(* ================================================================== *)
(** ** Further vocabulary *)

Section MoreProperties.

Variable W : Type.

(** What [m] appends and returns does not depend on the report it is
    given: it is what [m] does on an empty report, appended. *)
Definition framed {A} (m : M W A) : Prop :=
  forall r w,
    m r w = let '(o, ds, w') := m [] w in (o, (r ++ ds)%list, w').

(** [m] only appends diagnostics that satisfy [ok], and what it returns
    satisfies [Q]. *)
Definition appends {A} (ok : diag -> Prop) (Q : A -> Prop) (m : M W A)
  : Prop :=
  forall r w o r' w',
    m r w = (o, r', w') ->
    (exists ds, r' = (r ++ ds)%list /\ Forall ok ds)
    /\ (forall a, o = Ret a -> Q a).

End MoreProperties.

Arguments framed {W A} m.
Arguments appends {W A} ok Q m.

(** The path of a diagnostic. *)
Definition diag_path (d : diag) : string :=
  match d with
  | D2 p _ | D3 p _ _ | DFail p _ => p
  end.


(* ================================================================== *)
(** ** The path reader [read_data] of [_code_sample] *)

(** [s.split(c)[0]]: what comes before the first [c]. *)
Fixpoint before (c : ascii) (s : string) : string :=
  match s with
  | EmptyString => EmptyString
  | String a s' => if Ascii.eqb a c then EmptyString else String a (before c s')
  end.

(** [s[n:]] *)
Fixpoint drop (n : nat) (s : string) : string :=
  match n, s with
  | O, _ => s
  | S n', String _ s' => drop n' s'
  | S _, EmptyString => EmptyString
  end.

(** The characters [int] strips around a literal, among the 256 that a
    [string] holds: tab to carriage return, the space, and the two spaces
    above 127 (next line and no-break space). *)
Definition is_space (c : ascii) : bool :=
  let n := nat_of_ascii c in
  (Nat.leb 9 n && Nat.leb n 13) || Nat.eqb n 32
  || Nat.eqb n 133 || Nat.eqb n 160.

Definition digit_of (c : ascii) : option Z :=
  let n := nat_of_ascii c in
  if Nat.leb 48 n && Nat.leb n 57 then Some (Z.of_nat (n - 48)) else None.

Fixpoint lstrip (s : string) : string :=
  match s with
  | String c s' => if is_space c then lstrip s' else s
  | EmptyString => s
  end.

Fixpoint all_space (s : string) : bool :=
  match s with
  | String c s' => is_space c && all_space s'
  | EmptyString => true
  end.

(** The digits of a decimal literal, where single underscores may stand
    between two digits; the result is the value read and what follows. *)
Fixpoint read_digits (s : string) (acc : Z) (after_digit : bool)
  : option (Z * string) :=
  match s with
  | EmptyString => if after_digit then Some (acc, s) else None
  | String c s' =>
      match digit_of c with
      | Some d => read_digits s' (10 * acc + d) true
      | None =>
          if Ascii.eqb c "_" then
            if after_digit then
              match s' with
              | String c' _ =>
                  match digit_of c' with
                  | Some _ => read_digits s' acc false
                  | None => None
                  end
              | EmptyString => None
              end
            else None
          else if after_digit then Some (acc, s) else None
      end
  end.

(** The digits [int] counts against the bound on the length of a literal:
    those of the run of digits and underscores the literal starts with. *)
Fixpoint count_digits (s : string) : nat :=
  match s with
  | EmptyString => O
  | String c s' =>
      match digit_of c with
      | Some _ => S (count_digits s')
      | None => if Ascii.eqb c "_" then count_digits s' else O
      end
  end.

(** The decimal numeral of a natural number: digits only, at least one. *)
Inductive numeral : string -> Prop :=
| numeral_one (c : ascii) (d : Z) : digit_of c = Some d ->
                                     numeral (String c EmptyString)
| numeral_more (c : ascii) (d : Z) (s : string) :
    digit_of c = Some d -> numeral s -> numeral (String c s).

Definition ValueError (msg : string) : exn := mkExn "ValueError" true msg.
Definition IndexError (msg : string) : exn := mkExn "IndexError" true msg.
Definition KeyError (msg : string) : exn := mkExn "KeyError" true msg.

Section Reader.

(** [repr(x)], for the messages of the exceptions; what subscripting
    does in the cases left open here: an object that is neither a dict
    nor a list, a tuple or a str (most raise TypeError, some type objects
    answer with a generic alias), and a list, tuple or str subscripted
    by something else than an int (a TypeError whose wording depends on
    the version of the interpreter); and
    [sys.get_int_max_str_digits()], the bound on the digits of a literal
    that [int] reads, 0 when there is none. *)
Variable py_repr : value -> string.
Variable subscript_other : value -> value -> outcome value.
Variable int_max_str_digits : nat.

(** [int(s)] of a str in base 10: blanks around, a sign, digits. *)
Definition py_int (s : string) : outcome Z :=
  let invalid :=
    Raise (ValueError ("invalid literal for int() with base 10: "
                       ++ py_repr (VStr s))) in
  let body := lstrip s in
  let '(negative, digits) :=
    match body with
    | String c rest =>
        if Ascii.eqb c "-" then (true, rest)
        else if Ascii.eqb c "+" then (false, rest)
        else (false, body)
    | EmptyString => (false, body)
    end in
  match read_digits digits 0 false with
  | Some (z, rest) =>
      let n := count_digits digits in
      if Nat.ltb 0 int_max_str_digits && Nat.ltb int_max_str_digits n then
        Raise (ValueError
                 ("Exceeds the limit (" ++ string_of_nat int_max_str_digits
                  ++ " digits) for integer string conversion: value has "
                  ++ string_of_nat n
                  ++ " digits; use sys.set_int_max_str_digits() to increase the limit"))
      else if all_space rest then Ret (if negative then - z else z)
      else invalid
  | None => invalid
  end.

(** An index into a sequence of length [len]: negative ones count from
    the end. *)
Definition py_index (len : nat) (z : Z) : option nat :=
  if (0 <=? z) && (z <? Z.of_nat len) then Some (Z.to_nat z)
  else if (- Z.of_nat len <=? z) && (z <? 0)
       then Some (Z.to_nat (Z.of_nat len + z))
       else None.

(** What can index a sequence: an int, a bool being one. *)
Definition index_of (key : value) : option Z :=
  match key with
  | VInt z => Some z
  | VBool b => Some (Z.b2z b)
  | _ => None
  end.

Definition sequence_item (kind : string) (xs : list value) (z : Z)
  : outcome value :=
  match py_index (List.length xs) z with
  | Some i =>
      match nth_error xs i with
      | Some x => Ret x
      | None => Raise (IndexError (kind ++ " index out of range"))
      end
  | None => Raise (IndexError (kind ++ " index out of range"))
  end.

(** [data[key]] *)
Definition py_getitem (data key : value) : outcome value :=
  match data with
  | VDict items =>
      match first_unhashable key with
      | Some u => Raise (unhashable u)
      | None =>
          match dict_get key items with
          | Some v => Ret v
          | None => Raise (KeyError (py_repr key))
          end
      end
  | VList xs =>
      match index_of key with
      | Some z => sequence_item "list" xs z
      | None => subscript_other data key
      end
  | VTuple xs =>
      match index_of key with
      | Some z => sequence_item "tuple" xs z
      | None => subscript_other data key
      end
  | VStr s =>
      match index_of key with
      | Some z =>
          sequence_item "string"
            (map (fun c => VStr (String c EmptyString))
               (list_ascii_of_string s))
            z
      | None => subscript_other data key
      end
  | _ => subscript_other data key
  end.

(** [read_data(data, path)]. Each call reads at least one character of
    [path], so the length of [path] bounds the depth of the recursion;
    the stack of the interpreter is taken to be deep enough for it (one
    frame for each segment of the path). *)
Fixpoint read_data_from (fuel : nat) (data : value) (path : string)
  : outcome value :=
  match path with
  | EmptyString => Ret data
  | String c rest =>
      match fuel with
      | O => Ret VNone
      | S fuel' =>
          if Ascii.eqb c "." then
            let key := before "." (before "[" rest) in
            match py_getitem data (VStr key) with
            | Ret d =>
                read_data_from fuel' d (drop (String.length key + 1) path)
            | Raise e => Raise e
            end
          else if Ascii.eqb c "[" then
            let key := before "]" rest in
            match py_int key with
            | Ret z =>
                match py_getitem data (VInt z) with
                | Ret d =>
                    read_data_from fuel' d (drop (String.length key + 2) path)
                | Raise e => Raise e
                end
            | Raise e => Raise e
            end
          else Ret VNone
      end
  end.

Definition read_data (data : value) (path : string) : outcome value :=
  read_data_from (String.length path) data path.

(** *** The grammar of the paths the engine builds *)

Inductive segment : Type :=
| SKey (key : string)
| SIndex (i : nat).

(** The path [sub] has built after descending along [segs] from [path]:
    [path+'.'+key] into a mapping, [path+'[%d]'%i] into a sequence. *)
Definition descend (path : string) (segs : list segment) : string :=
  fold_left
    (fun p s => match s with
                | SKey k => key_path p k
                | SIndex i => index_path p i
                end)
    segs path.

(** The value found by following [segs] with subscripts. *)
Definition follow (data : outcome value) (segs : list segment)
  : outcome value :=
  fold_left
    (fun acc s =>
       match acc with
       | Ret d =>
           match s with
           | SKey k => py_getitem d (VStr k)
           | SIndex i => py_getitem d (VInt (Z.of_nat i))
           end
       | Raise e => Raise e
       end)
    segs data.

(** A key the reader can tell from what follows it: without ['.'] and
    ['[']. *)
Fixpoint plain_key (k : string) : bool :=
  match k with
  | EmptyString => true
  | String c k' =>
      negb (Ascii.eqb c ".") && negb (Ascii.eqb c "[") && plain_key k'
  end.

(** An index whose numeral [int] reads back. *)
Definition fits (i : nat) : bool :=
  Nat.eqb int_max_str_digits 0
  || Nat.leb (String.length (string_of_nat i)) int_max_str_digits.

Definition plain_segment (s : segment) : bool :=
  match s with
  | SKey k => plain_key k
  | SIndex i => fits i
  end.

End Reader.

(* ================================================================== *)
(** ** Where the paths of the diagnostics lead *)

Section Address.

Variable int_max_str_digits : nat.

(** The shapes of input on which every path that [sub] builds can be
    followed with subscripts and read by [read_data]: [sub] enumerates
    only lists, tuples and strs (the position of an element of a set, or
    of a key in a dict, is no subscript), the numerals of their indices
    are within the bound of [int], and the keys it descends along are
    plain. *)
Fixpoint addressable (exp obj : value) {struct exp} : bool :=
  match exp with
  | VOr _ choice | VAnd _ choice =>
      forallb (fun c => addressable c obj) choice
  | VList es | VTuple es | VSet es | VFrozenset es =>
      match obj with
      | VList os | VTuple os =>
          forallb (fits int_max_str_digits) (seq 0 (List.length os))
          && (fix go (es os : list value) : bool :=
                match es, os with
                | e :: es', o :: os' => addressable e o && go es' os'
                | _, _ => true
                end) es os
      | VSet os | VFrozenset os =>
          match os with [] => true | _ :: _ => false end
      | _ => true
      end
  | VListOf _ check =>
      match obj with
      | VList os | VTuple os =>
          forallb (fits int_max_str_digits) (seq 0 (List.length os))
          && forallb (addressable check) os
      | VStr s =>
          forallb (fits int_max_str_digits) (seq 0 (String.length s))
          && forallb (fun c => addressable check (VStr (String c EmptyString)))
               (list_ascii_of_string s)
      | VSet os | VFrozenset os =>
          match os with [] => true | _ :: _ => false end
      | VDict items =>
          match items with [] => true | _ :: _ => false end
      | _ => true
      end
  | VDict fields =>
      match obj with
      | VDict items =>
          forallb
            (fun field : value * value =>
               let (expk, expv) := field in
               match field_key expk with
               | VStr k =>
                   match dict_get (VStr k) items with
                   | Some v => plain_key k && addressable expv v
                   | None => true
                   end
               | _ => true
               end)
            fields
      | _ => true
      end
  | _ => true
  end.

End Address.

(** What follows a key in a path: nothing, or the next ['.'] or ['[']. *)
Definition path_head (s : string) : bool :=
  match s with
  | EmptyString => true
  | String c _ => Ascii.eqb c "." || Ascii.eqb c "["
  end.

Definition segment_text (s : segment) : string :=
  match s with
  | SKey k => key_path "" k
  | SIndex i => index_path "" i
  end.

(** What a diagnostic says about the value [x] at its path: a triple names
    [x] itself, or a key that the mapping [x] lacks ('not found') or has
    ('extra key'). *)
Definition names (d : diag) (x : value) : Prop :=
  match d with
  | D3 _ msg v =>
      v = x
      \/ exists items,
          x = VDict items
          /\ ((msg = VStr "not found" /\ dict_get v items = None)
              \/ (msg = VStr "extra key" /\ In v (map fst items)))
  | D2 _ _ | DFail _ _ => True
  end.

Section Located.

Variable py_repr : value -> string.
Variable subscript_other : value -> value -> outcome value.
Variable int_max_str_digits : nat.
Variable root : value.

(** The subtree [obj] of [root] that [sub] has reached at [path]. *)
Definition reached (exp obj : value) (path : string) : Prop :=
  exists segs,
    path = descend "" segs
    /\ Forall (fun s => plain_segment int_max_str_digits s = true) segs
    /\ follow py_repr subscript_other (Ret root) segs = Ret obj
    /\ addressable int_max_str_digits exp obj = true.

(** [read_data] finds at the path of [d] the value that [d] is about. *)
Definition located (d : diag) : Prop :=
  exists x,
    read_data py_repr subscript_other int_max_str_digits root (diag_path d)
    = Ret x
    /\ names d x.

End Located.

(* ================================================================== *)
(** ** The stateful checker [DateChecker] of [_code_sample] *)

(** [needle in hay], for two strs. *)
Fixpoint contains (needle hay : string) : bool :=
  String.prefix needle hay
  || match hay with
     | EmptyString => false
     | String _ hay' => contains needle hay'
     end.

Module DateChecker.

(** The attributes of the instance. *)
Record dates : Type := mkDates { birth : value; death : value }.

(** [__init__] and [reset] *)
Definition reset : dates := mkDates VNone VNone.

Inductive order_op : Type := OpLe | OpLt | OpGt.

Section Call.

(** What [<=], [<] and [>] answer, as a truth value, when one of the
    operands is not an int (floats compare by value, most other pairs
    raise TypeError), and what the other callables of a schema do. *)
Variable compare_other : order_op -> value -> value -> outcome bool.
Variable call_other : nat -> list value -> dates -> outcome value * dates.

Definition py_order (op : order_op) (a b : value) : outcome bool :=
  match index_of a, index_of b with
  | Some x, Some y =>
      Ret match op with
          | OpLe => x <=? y
          | OpLt => x <? y
          | OpGt => x >? y
          end
  | _, _ => compare_other op a b
  end.

(** [DateChecker.__call__(self, path, year)]; the identity of the
    [Error] objects it makes plays no role, [sub] keeps their message. *)
Definition date_check (path : string) (year : value) (w : dates)
  : outcome value * dates :=
  match py_order OpLe year (VInt 1800) with
  | Raise e => (Raise e, w)
  | Ret true => (Ret (VError 0 (VStr "invalid year")), w)
  | Ret false =>
      if contains "death" path then
        let w' := mkDates (birth w) year in
        if truthy (birth w) then
          match py_order OpGt (birth w) year with
          | Raise e => (Raise e, w')
          | Ret true =>
              (Ret (VError 0 (VStr "death must be after birth")), w')
          | Ret false => (Ret (VBool true), w')
          end
        else (Ret (VBool true), w')
      else if contains "birth" path then
        let w' := mkDates year (death w) in
        if truthy (death w) then
          match py_order OpLt (death w) year with
          | Raise e => (Raise e, w')
          | Ret true =>
              (Ret (VError 0 (VStr "birth must be before death")), w')
          | Ret false => (Ret (VBool true), w')
          end
        else (Ret (VBool true), w')
      else (Ret (VBool true), w)
  end.

(** The callables of a schema that uses [date_checker], the object 7;
    [sub] calls it with the path and the value. *)
Definition call (id : nat) (args : list value) (w : dates)
  : outcome value * dates :=
  match id, args with
  | 7%nat, [VStr path; year] => date_check path year w
  | _, _ => call_other id args w
  end.

End Call.

(** [date_checker = DateChecker()]: [__call__] has three parameters,
    [self] included. *)
Definition date_checker : value :=
  VFunc 7 (CallableObject "DateChecker") 3 "__call__".

(** The two entries of [person_scheme] that [date_checker] checks, in the
    two orders a dict can hold them, and a record with the two years. *)
Definition birth_first : value :=
  VDict [(VStr "birth_year", date_checker);
         (VStr "death_year", date_checker)].
Definition death_first : value :=
  VDict [(VStr "death_year", date_checker);
         (VStr "birth_year", date_checker)].
Definition record (b d : Z) : value :=
  VDict [(VStr "birth_year", VInt b); (VStr "death_year", VInt d)].

End DateChecker.

(* ================================================================== *)
(** ** More sample data of [_code_sample] *)

Module MoreSamples.

(** [repr] of the strs of the samples, the only values whose [repr] the
    reader shows. *)
Definition py_repr (x : value) : string :=
  match x with
  | VStr s => squote ++ s ++ squote
  | _ => "<object>"
  end.

Definition subscript_other (data key : value) : outcome value :=
  Raise (TypeError (squote ++ type_name (type_of data) ++ squote
                    ++ " object is not subscriptable")).

(** The default of [sys.get_int_max_str_digits()]. *)
Definition int_max_str_digits : nat := 4300.

Definition read (data : value) (path : string) : outcome value :=
  read_data py_repr subscript_other int_max_str_digits data path.

(** A record in the shape of [charlot]: the name of the second child is
    no str and the third child has lost its age. *)
Definition child_scheme : value :=
  VDict [(VStr "forename", VType TStr);
         (VOptional 9 (VStr "name"), VType TStr);
         (VStr "age", VOr 10 [VType TInt; VType TFloat])].

Definition family_scheme : value :=
  VDict [(VStr "forename", VType TStr);
         (VStr "children", VListOf 8 child_scheme)].

Definition charlot : value :=
  VDict [(VStr "forename", VStr "Charles Spencer");
         (VStr "children",
          VList [VDict [(VStr "forename", VStr "Geraldine");
                        (VStr "name", VStr "Leigh");
                        (VStr "age", VInt 78)];
                 VDict [(VStr "forename", VStr "Michael");
                        (VStr "name", VBool false);
                        (VStr "age", VInt 77)];
                 VDict [(VStr "forename", VStr "Josephine");
                        (VStr "name", VStr "Gardin")]])].

(** The operands and callables that the samples of [DateChecker] never
    meet. *)
Definition compare_other (op : DateChecker.order_op) (a b : value)
  : outcome bool :=
  Raise (TypeError "not supported between instances").

Definition call_other (id : nat) (args : list value)
  (w : DateChecker.dates) : outcome value * DateChecker.dates :=
  (Raise (TypeError "object is not callable"), w).

End MoreSamples.

(* ================================================================== *)
(** ** Facts about [float(z)] *)

Lemma digits2_pos_size (p : positive) : digits2_pos p = Pos.size p.
Proof. induction p; simpl; congruence. Qed.

Lemma digits2_pos_bound (m : positive) (n : Z) :
  0 <= n -> Zpos m < 2 ^ n -> Zpos (digits2_pos m) <= n.
Proof.
  intros Hn Hm. rewrite digits2_pos_size.
  pose proof (Pos.size_le m) as Hle.
  apply Pos2Z.pos_le_pos in Hle. rewrite Pos2Z.inj_pow in Hle.
  change (Zpos m~0) with (2 * Zpos m) in Hle.
  assert (H : 2 ^ Zpos (Pos.size m) < 2 ^ (n + 1)).
  { rewrite Z.pow_add_r by lia. lia. }
  apply Z.pow_lt_mono_r_iff in H; lia.
Qed.

Lemma digits2_pos_iter_xO (m k : positive) :
  digits2_pos (Pos.iter xO m k) = (digits2_pos m + k)%positive.
Proof.
  apply (Pos.iter_ind _ xO m (fun k a => digits2_pos a = (digits2_pos m + k)%positive)).
  - simpl. lia.
  - intros p a IH. simpl. rewrite IH. lia.
Qed.

Lemma Zpos_iter_xO (m k : positive) :
  Zpos (Pos.iter xO m k) = Zpos m * 2 ^ Zpos k.
Proof.
  apply (Pos.iter_ind _ xO m (fun k a => Zpos a = Zpos m * 2 ^ Zpos k)).
  - lia.
  - intros p a IH. rewrite Pos2Z.inj_succ, Z.pow_succ_r by lia.
    change (Zpos a~0) with (2 * Zpos a). rewrite IH. ring.
Qed.

(** A mantissa of exactly 53 bits with an exponent in range is already
    rounded. *)
Lemma binary_round_aux_exact (s : bool) (mz : positive) (ez : Z) :
  Zpos (digits2_pos mz) = prec64 ->
  -1074 <= ez <= 971 ->
  binary_round_aux prec64 emax64 s (Zpos mz) ez loc_Exact = S754_finite s mz ez.
Proof.
  intros Hd He.
  assert (Hf : fexp prec64 emax64 (Zpos (digits2_pos mz) + ez) - ez = 0).
  { unfold fexp, emin, prec64, emax64 in *. lia. }
  unfold binary_round_aux, shr_fexp. cbn [Zdigits2 shr_record_of_loc].
  rewrite Hf. cbn [shr shr_m loc_of_shr_record round_nearest_even Zdigits2 shr_record_of_loc].
  rewrite Hf. cbn [shr shr_m].
  replace (ez <=? emax64 - prec64) with true; [reflexivity|].
  symmetry. apply Z.leb_le. unfold emax64, prec64. lia.
Qed.

Lemma binary_round_small (s : bool) (m : positive) :
  Zpos m < 2 ^ 53 ->
  exists mz ez,
    binary_round prec64 emax64 s m 0 = S754_finite s mz ez
    /\ ez <= 0 /\ Zpos mz = Zpos m * 2 ^ (- ez).
Proof.
  intros Hm.
  pose proof (digits2_pos_bound m 53 ltac:(lia) Hm) as Hd.
  unfold binary_round, shl_align.
  assert (Hf : fexp prec64 emax64 (Zpos (digits2_pos m) + 0)
               = Zpos (digits2_pos m) - 53).
  { unfold fexp, emin, prec64, emax64. lia. }
  rewrite Hf.
  destruct (Zpos (digits2_pos m) - 53 - 0) as [|k|k] eqn:Hk.
  - exists m, 0. split; [|split; [lia | rewrite Z.mul_1_r; reflexivity]].
    apply binary_round_aux_exact; unfold prec64; lia.
  - lia.
  - exists (Pos.iter xO m k), (Zpos (digits2_pos m) - 53).
    split; [|split; [lia|]].
    + apply binary_round_aux_exact.
      * rewrite digits2_pos_iter_xO. unfold prec64. lia.
      * lia.
    + rewrite Zpos_iter_xO. f_equal. f_equal. lia.
Qed.

Lemma float_of_int_exact (z : Z) :
  Z.abs z <= 2 ^ 53 ->
  exists f, float_of_int z = Some f /\ float_eq_int f z = true.
Proof.
  intros Hz. unfold float_of_int, binary_normalize.
  destruct z as [|m|m].
  - eexists. split; reflexivity.
  - destruct (Z.eq_dec (Zpos m) (2 ^ 53)) as [E|E].
    + injection E as ->. eexists. split; reflexivity.
    + destruct (binary_round_small false m) as (mz & ez & -> & Hez & Hmz);
        [simpl in Hz; lia|].
      eexists. split; [reflexivity|]. unfold float_eq_int.
      destruct (0 <=? ez) eqn:H0.
      * apply Z.leb_le in H0. assert (ez = 0) as -> by lia.
        apply Z.eqb_eq. simpl in Hmz. lia.
      * apply Z.eqb_eq. symmetry. exact Hmz.
  - destruct (Z.eq_dec (Zpos m) (2 ^ 53)) as [E|E].
    + injection E as ->. eexists. split; reflexivity.
    + destruct (binary_round_small true m) as (mz & ez & -> & Hez & Hmz);
        [simpl in Hz; lia|].
      eexists. split; [reflexivity|]. unfold float_eq_int.
      destruct (0 <=? ez) eqn:H0.
      * apply Z.leb_le in H0. assert (ez = 0) as -> by lia.
        apply Z.eqb_eq. simpl in Hmz. lia.
      * apply Z.eqb_eq. change (Zneg mz) with (- Zpos mz).
        change (Zneg m) with (- Zpos m). rewrite Hmz. ring.
Qed.

(* ================================================================== *)
(** ** Facts about the computations *)

Section MonadFacts.

Variable W : Type.

Lemma grows_ret A (a : A) : grows (ret (W:=W) a).
Proof. intros r w o r' w' [= <- <- <-]. exists []. now rewrite app_nil_r. Qed.

Lemma grows_raise A (e : exn) : grows (raise (W:=W) (A:=A) e).
Proof. intros r w o r' w' [= <- <- <-]. exists []. now rewrite app_nil_r. Qed.

Lemma grows_append (d : diag) : grows (append (W:=W) d).
Proof. intros r w o r' w' [= <- <- <-]. now exists [d]. Qed.

Lemma grows_extend (ds : list diag) : grows (extend (W:=W) ds).
Proof. intros r w o r' w' [= <- <- <-]. now exists ds. Qed.

Lemma grows_bind A B (m : M W A) (k : A -> M W B) :
  grows m -> (forall a, grows (k a)) -> grows (bind m k).
Proof.
  intros Hm Hk r w o r' w'. unfold bind.
  destruct (m r w) as [[[a|e] r1] w1] eqn:E.
  - intros H. destruct (Hm _ _ _ _ _ E) as [ds1 ->].
    destruct (Hk a _ _ _ _ _ H) as [ds2 ->].
    exists (ds1 ++ ds2)%list. now rewrite app_assoc.
  - intros [= <- <- <-]. exact (Hm _ _ _ _ _ E).
Qed.

Lemma grows_try_except A (m : M W A) (h : exn -> M W A) :
  grows m -> (forall e, grows (h e)) -> grows (try_except m h).
Proof.
  intros Hm Hh r w o r' w'. unfold try_except.
  destruct (m r w) as [[[a|e] r1] w1] eqn:E.
  - intros [= <- <- <-]. exact (Hm _ _ _ _ _ E).
  - destruct (Hm _ _ _ _ _ E) as [ds1 ->].
    destruct (exn_is_exception e).
    + intros H. destruct (Hh e _ _ _ _ _ H) as [ds2 ->].
      exists (ds1 ++ ds2)%list. now rewrite app_assoc.
    + intros [= <- <- <-]. now exists ds1.
Qed.

Lemma grows_fresh A (m : M W A) : grows (fresh m).
Proof.
  intros r w o r' w'. unfold fresh.
  destruct (m [] w) as [[[a|e] r1] w1]; intros [= <- <- <-];
    exists []; now rewrite app_nil_r.
Qed.

Lemma grows_invoke call (id : nat) (args : list value) :
  grows (invoke (W:=W) call id args).
Proof.
  intros r w o r' w'. unfold invoke. destruct (call id args w).
  intros [= <- <- <-]. exists []. now rewrite app_nil_r.
Qed.

Lemma safe_ret A (a : A) : safe (ret (W:=W) a).
Proof. intros r w e r' w' [=]. Qed.

Lemma safe_raise A (e : exn) :
  exn_is_exception e = true -> safe (raise (W:=W) (A:=A) e).
Proof. intros He r w e' r' w' [= <- <- <-]. exact He. Qed.

Lemma safe_append (d : diag) : safe (append (W:=W) d).
Proof. intros r w e r' w' [=]. Qed.

Lemma safe_extend (ds : list diag) : safe (extend (W:=W) ds).
Proof. intros r w e r' w' [=]. Qed.

Lemma safe_bind A B (m : M W A) (k : A -> M W B) :
  safe m -> (forall a, safe (k a)) -> safe (bind m k).
Proof.
  intros Hm Hk r w e r' w'. unfold bind.
  destruct (m r w) as [[[a|e1] r1] w1] eqn:E.
  - apply Hk.
  - intros [= <- <- <-]. exact (Hm _ _ _ _ _ E).
Qed.

Lemma safe_try_except A (m : M W A) (h : exn -> M W A) :
  safe m -> (forall e, safe (h e)) -> safe (try_except m h).
Proof.
  intros Hm Hh r w e r' w'. unfold try_except.
  destruct (m r w) as [[[a|e1] r1] w1] eqn:E.
  - intros [=].
  - destruct (exn_is_exception e1) eqn:E1.
    + apply Hh.
    + intros [= <- <- <-]. rewrite (Hm _ _ _ _ _ E) in E1. discriminate.
Qed.

Lemma safe_fresh A (m : M W A) : safe m -> safe (fresh m).
Proof.
  intros Hm r w e r' w'. unfold fresh.
  destruct (m [] w) as [[[a|e1] r1] w1] eqn:E.
  - intros [=].
  - intros [= <- <- <-]. exact (Hm _ _ _ _ _ E).
Qed.

Lemma safe_invoke call (id : nat) (args : list value) :
  (forall id args w e w',
      call id args w = (Raise e, w') -> exn_is_exception e = true) ->
  safe (invoke (W:=W) call id args).
Proof.
  intros Hc r w e r' w'. unfold invoke.
  destruct (call id args w) as [o w1] eqn:E.
  intros [= -> <- <-]. exact (Hc _ _ _ _ _ E).
Qed.

(** The five loops, for any property of computations that the
    constructions of the monad preserve. *)
Section Loops.
Variable P : forall A, M W A -> Prop.
Hypothesis P_ret : forall A (a : A), P A (ret a).
Hypothesis P_bind : forall A B (m : M W A) (k : A -> M W B),
    P A m -> (forall a, P B (k a)) -> P B (bind m k).
Hypothesis P_fresh : forall A (m : M W A), P A m -> P _ (fresh m).

Lemma or_loop_preserves f cs last :
  Forall (fun c => P _ (f c)) cs -> P _ (or_loop f cs last).
Proof.
  intros H. revert last. induction H as [|c cs Hc _ IH]; intros last.
  - apply P_ret.
  - simpl. apply P_bind; [apply P_fresh, Hc|].
    intros a. destruct (nonempty (snd a)); [apply IH | apply P_ret].
Qed.

Lemma and_loop_preserves f cs last :
  Forall (fun c => P _ (f c)) cs -> P _ (and_loop f cs last).
Proof.
  intros H. revert last. induction H as [|c cs Hc _ IH]; intros last.
  - apply P_ret.
  - simpl. apply P_bind; [apply P_fresh, Hc|].
    intros a. destruct (nonempty (snd a)); [apply P_ret | apply IH].
Qed.

Lemma zip_loop_preserves f es os i :
  Forall (fun e => forall o i, P _ (f e o i)) es -> P _ (zip_loop f es os i).
Proof.
  intros H. revert os i.
  induction H as [|e es He _ IH]; intros os i.
  - apply P_ret.
  - destruct os as [|o os]; [apply P_ret|]. simpl.
    apply P_bind; [apply He|]. intros x.
    apply P_bind; [apply IH|]. intros xs. apply P_ret.
Qed.

Lemma each_loop_preserves f os i :
  (forall o i, P _ (f o i)) -> P _ (each_loop f os i).
Proof.
  intros H. revert i. induction os as [|o os IH]; intros i.
  - apply P_ret.
  - simpl. apply P_bind; [apply H|]. intros x.
    apply P_bind; [apply IH|]. intros xs. apply P_ret.
Qed.

Hypothesis P_append : forall d, P _ (append d).
Hypothesis P_raise_exception : forall A e,
    exn_is_exception e = true -> P A (raise e).

Lemma fields_loop_preserves f path items fields keys obj2 :
  Forall (fun kv => forall v p, P _ (f (snd kv) v p)) fields ->
  P _ (fields_loop f path items fields keys obj2).
Proof.
  intros H. revert keys obj2.
  induction H as [|[expk expv] fields Hf _ IH]; intros keys obj2.
  - apply P_ret.
  - simpl.
    destruct (field_entry expk) as [key mandatory].
    destruct (first_unhashable key); [now apply P_raise_exception|].
    destruct (dict_get key items).
    + destruct key; try (now apply P_raise_exception).
      apply P_bind; [apply Hf|]. intros x. apply IH.
    + apply P_bind; [|intros; apply IH].
      destruct mandatory; [apply P_append | apply P_ret].
Qed.
End Loops.

End MonadFacts.

(* ================================================================== *)
(** ** Facts about the engine *)

Section EngineFacts.

Variable W : Type.
Variable call : nat -> list value -> W -> outcome value * W.
Variable py_str : value -> string.
Variable ignore_extra_keys : bool.

Local Abbreviation sub' := (sub call py_str ignore_extra_keys).
Local Abbreviation sub_try' := (sub_try call py_str ignore_extra_keys).

(** [sub] is its body under the handler of the safety net. *)
Lemma sub_unfold (exp obj : value) (path : string) :
  sub' exp obj path
  = try_except (sub_try' sub' exp obj path)
      (fun e => bind (append (DFail path e)) (fun _ => ret obj)).
Proof. destruct exp; reflexivity. Qed.

Lemma sub_equal (exp obj : value) (path : string) (r : list diag) (w : W) :
  py_eq obj exp = true -> sub' exp obj path r w = (Ret obj, r, w).
Proof.
  intros H. rewrite sub_unfold. unfold try_except, sub_try.
  rewrite H. reflexivity.
Qed.

(** Every property of computations that the constructions of the monad
    preserve holds of [sub], by induction on the schema. *)
Section SubPreserves.
Variable P : forall A, M W A -> Prop.
Hypothesis P_ret : forall A (a : A), P A (ret a).
Hypothesis P_bind : forall A B (m : M W A) (k : A -> M W B),
    P A m -> (forall a, P B (k a)) -> P B (bind m k).
Hypothesis P_fresh : forall A (m : M W A), P A m -> P _ (fresh m).
Hypothesis P_append : forall d, P _ (append d).
Hypothesis P_extend : forall ds, P _ (extend ds).
Hypothesis P_raise_exception : forall A e,
    exn_is_exception e = true -> P A (raise e).
Hypothesis P_try_except : forall A (m : M W A) (h : exn -> M W A),
    P A m -> (forall e, P A (h e)) -> P A (try_except m h).
Hypothesis P_invoke : forall id args, P _ (invoke call id args).

Ltac step :=
  repeat match goal with
    | |- P _ (ret _) => apply P_ret
    | |- P _ (append _) => apply P_append
    | |- P _ (extend _) => apply P_extend
    | |- P _ (invoke _ _ _) => apply P_invoke
    | |- P _ (raise _) => apply P_raise_exception; reflexivity
    | |- P _ (bind _ _) => apply P_bind; [|intros]
    | |- P _ (try_except _ _) => apply P_try_except; [|intros]
    | |- P _ (if ?b then _ else _) => destruct b
    | |- P _ (let '(_, _) := ?x in _) => destruct x
    | |- P _ (match ?x with _ => _ end) => destruct x
    end.

Lemma sub_preserves (exp obj : value) (path : string) :
  P _ (sub' exp obj path).
Proof.
  revert obj path.
  induction exp as
    [ | | | | | es IH | es IH | es IH | es IH | fields IH | | id cs IH
    | id cs IH | id c IH | | | | ] using value_ind_nested;
    intros obj path; rewrite sub_unfold;
    (apply P_try_except; [|intros; step]);
    unfold sub_try; (destruct (py_eq obj _); [apply P_ret|]).
  1-5: step.
  1-4: destruct (isList obj); [|step];
       destruct (negb _); [step|];
       (apply P_bind; [|intros; step]);
       apply zip_loop_preserves; auto;
       (eapply Forall_impl; [|exact IH]); cbv beta; auto.
  - destruct obj; step.
    apply fields_loop_preserves; auto.
    eapply Forall_impl; [|exact IH]. cbv beta. intros kv [_ H]. auto.
  - step.
  - destruct cs as [|c cs]; [step|].
    apply P_bind; [|intros; step].
    apply or_loop_preserves; auto.
    eapply Forall_impl; [|exact IH]. cbv beta. auto.
  - destruct cs as [|c cs]; [step|].
    apply P_bind; [|intros; step].
    apply and_loop_preserves; auto.
    eapply Forall_impl; [|exact IH]. cbv beta. auto.
  - destruct (py_iter obj); [|step].
    apply P_bind; [|intros; step].
    apply each_loop_preserves; auto.
  - step.
  - step.
  - step.
  - step.
Qed.
End SubPreserves.

(** [sub] only appends to [report]. *)
Lemma sub_grows (exp obj : value) (path : string) :
  grows (sub' exp obj path).
Proof.
  apply (sub_preserves (fun A => @grows W A)).
  - apply grows_ret.
  - apply grows_bind.
  - intros; apply grows_fresh.
  - apply grows_append.
  - apply grows_extend.
  - intros; apply grows_raise.
  - apply grows_try_except.
  - apply grows_invoke.
Qed.

(** As long as the callables raise nothing outside of [Exception], neither
    does [sub]. *)
Lemma sub_safe (exp obj : value) (path : string) :
  callables_raise_exceptions call -> safe (sub' exp obj path).
Proof.
  intros Hc. apply (sub_preserves (fun A => @safe W A)).
  - apply safe_ret.
  - apply safe_bind.
  - apply safe_fresh.
  - apply safe_append.
  - apply safe_extend.
  - apply safe_raise.
  - apply safe_try_except.
  - intros. apply safe_invoke, Hc.
Qed.

Lemma sub_try_safe (exp obj : value) (path : string) :
  callables_raise_exceptions call -> safe (sub_try' sub' exp obj path).
Proof.
  intros Hc r w e r' w' H.
  destruct (exn_is_exception e) eqn:E; [reflexivity|].
  assert (Hs : sub' exp obj path r w = (Raise e, r', w')).
  { rewrite sub_unfold. unfold try_except. rewrite H, E. reflexivity. }
  rewrite (sub_safe _ _ _ Hc _ _ _ _ _ Hs) in E. discriminate.
Qed.

Lemma sub_returns (exp obj : value) (path : string) (r : list diag) (w : W) :
  callables_raise_exceptions call ->
  exists v r' w', sub' exp obj path r w = (Ret v, r', w').
Proof.
  intros Hc. destruct (sub' exp obj path r w) as [[[v|e] r'] w'] eqn:E.
  - now exists v, r', w'.
  - pose proof (sub_safe _ _ _ Hc _ _ _ _ _ E) as He.
    rewrite sub_unfold in E. unfold try_except in E.
    destruct (sub_try' sub' exp obj path r w) as [[[v1|e1] r1] w1];
      [discriminate|].
    destruct (exn_is_exception e1) eqn:E1; [discriminate|].
    injection E as <- <- <-. congruence.
Qed.

(** A type marker never equals a number, so line 285 lets booleans and
    ints through to the type branch. *)
Lemma sub_type_marker (t : pytype) (obj : value) (path : string)
  (r : list diag) (w : W) :
  py_eq obj (VType t) = false ->
  sub' (VType t) obj path r w
  = match (if pytype_eqb t TFloat then int_of obj else None) with
    | Some z =>
        match float_of_int z with
        | Some f => (Ret (VFloat f), r, w)
        | None => (Ret obj, (r ++ [DFail path OverflowError])%list, w)
        end
    | None =>
        if pytype_eqb t TStr then
          if negb (is_str obj)
          then (Ret obj, (r ++ [D3 path (VStr "not a str") obj])%list, w)
          else (Ret obj, r, w)
        else if negb (pytype_eqb t (type_of obj))
             then (Ret obj,
                   (r ++ [D3 path (VStr ("not a " ++ type_name t)) obj])%list,
                   w)
             else (Ret obj, r, w)
    end.
Proof.
  intros H. rewrite sub_unfold. unfold try_except, sub_try. rewrite H.
  destruct (if pytype_eqb t TFloat then int_of obj else None) as [z|].
  - destruct (float_of_int z); reflexivity.
  - destruct (pytype_eqb t TStr).
    + destruct (negb (is_str obj)); reflexivity.
    + destruct (negb (pytype_eqb t (type_of obj))); reflexivity.
Qed.

(** [validate] when [sub] returns and every tuple of the report can be
    hashed. *)
Lemma validate_of_sub (given expected output : value)
  (report : list diag) (w w' : W) :
  sub' expected given "" [] w = (Ret output, report, w') ->
  report_unhashable report = None ->
  validate call py_str given expected ignore_extra_keys w
  = (Ret (output, dedup [] report), w').
Proof.
  intros Hs Hh. unfold validate, set_of_report. rewrite Hs, Hh. reflexivity.
Qed.

(** **** C10 *)

(** C10. The first test of [sub] is [obj == exp] under the equality of the
    host: whenever the given value compares equal to the descriptor (1.0 or
    True against the literal 1, by the numeric comparison across types),
    [validate] reports nothing and returns the given value itself, not the
    descriptor. *)
Theorem equal_value_is_accepted_unchanged (given expected : value) (w : W) :
  py_eq given expected = true ->
  validate call py_str given expected ignore_extra_keys w
  = (Ret (given, []), w).
Proof.
  intros H.
  apply validate_of_sub with (report := []).
  - apply sub_equal, H.
  - reflexivity.
Qed.

(** **** C9 *)

(** C9. [type(obj) == int] is false of a bool, so a bool against the float
    marker is not widened: [sub] reports [(path, 'not a float', value)] and
    returns the bool; against the int marker it reports
    [(path, 'not a int', value)]. The same holds of [validate] at the root
    path. *)
Theorem bool_is_not_an_int (b : bool) (path : string) (r : list diag) (w : W) :
  sub' (VType TFloat) (VBool b) path r w
  = (Ret (VBool b), (r ++ [D3 path (VStr "not a float") (VBool b)])%list, w)
  /\ sub' (VType TInt) (VBool b) path r w
     = (Ret (VBool b), (r ++ [D3 path (VStr "not a int") (VBool b)])%list, w)
  /\ validate call py_str (VBool b) (VType TFloat) ignore_extra_keys w
     = (Ret (VBool b, [D3 "" (VStr "not a float") (VBool b)]), w)
  /\ validate call py_str (VBool b) (VType TInt) ignore_extra_keys w
     = (Ret (VBool b, [D3 "" (VStr "not a int") (VBool b)]), w).
Proof.
  split; [|split; [|split]].
  - rewrite sub_type_marker by reflexivity. reflexivity.
  - rewrite sub_type_marker by reflexivity. reflexivity.
  - unfold validate. rewrite sub_type_marker by reflexivity. reflexivity.
  - unfold validate. rewrite sub_type_marker by reflexivity. reflexivity.
Qed.

(** **** C1 *)

(** C1 (amended). As long as the callables raise nothing outside of
    [Exception], [sub] returns normally for every value, schema, path and
    policy. A fault raised by the body of [sub] is caught at that subtree:
    the triple [(path, 'failure', e)] is appended and the value of the
    subtree is returned unchanged. A fault raised by a callable checker is
    caught by the handler around the call, which appends the pair
    [(path, '<name> call raised <e>')] and leaves the value unchanged.
    [validate] then returns the output of [sub] with the set of the report,
    provided every tuple of the report can be hashed. *)
Theorem faults_are_caught_at_the_subtree :
  callables_raise_exceptions call ->
  forall (exp obj : value) (path : string) (r : list diag) (w : W),
    (exists v r' w', sub' exp obj path r w = (Ret v, r', w'))
    /\ (forall e r1 w1,
           sub_try' sub' exp obj path r w = (Raise e, r1, w1) ->
           sub' exp obj path r w
           = (Ret obj, (r1 ++ [DFail path e])%list, w1))
    /\ (forall id kind argc name nb nm e w1,
           exp = VFunc id kind argc name ->
           py_eq obj exp = false ->
           funcInfo kind argc name = Some (nb, nm) ->
           nb = 1 \/ nb = 2 ->
           call id (if Z.eqb nb 1 then [obj] else [VStr path; obj]) w
           = (Raise e, w1) ->
           sub' exp obj path r w
           = (Ret obj,
              (r ++ [D2 path (VStr (nm ++ " call raised " ++ exn_str e))])%list,
              w1))
    /\ (exists output report w',
           sub' exp obj "" [] w = (Ret output, report, w')
           /\ (report_unhashable report = None ->
               validate call py_str obj exp ignore_extra_keys w
               = (Ret (output, dedup [] report), w'))).
Proof.
  intros Hc exp obj path r w. split; [|split; [|split]].
  - apply sub_returns, Hc.
  - intros e r1 w1 H. rewrite sub_unfold. unfold try_except. rewrite H.
    rewrite (sub_try_safe _ _ _ Hc _ _ _ _ _ H). reflexivity.
  - intros id kind argc name nb nm e w1 -> Heq Hinfo Hnb Hcall.
    rewrite sub_unfold. unfold try_except at 1. unfold sub_try.
    rewrite Heq, Hinfo.
    replace (negb (Z.eqb nb 1 || Z.eqb nb 2)) with false
      by (destruct Hnb as [-> | ->]; reflexivity).
    unfold bind, try_except, invoke. rewrite Hcall.
    rewrite (Hc _ _ _ _ _ Hcall). reflexivity.
  - destruct (sub_returns exp obj "" [] w Hc) as (output & report & w' & Hs).
    exists output, report, w'. split; [exact Hs|].
    intros Hh. now apply validate_of_sub.
Qed.

(** **** C2 *)

(** The [ListOf] branch hands the value to [enumerate] without the
    [isList] test of the fixed-sequence branch. *)
Lemma sub_listof_not_iterable (id : nat) (check obj : value) (path : string)
  (r : list diag) (w : W) :
  py_eq obj (VListOf id check) = false ->
  py_iter obj = None ->
  sub' (VListOf id check) obj path r w
  = (Ret obj, (r ++ [DFail path (not_iterable obj)])%list, w).
Proof.
  intros Heq Hit. rewrite sub_unfold. unfold try_except, sub_try.
  rewrite Heq, Hit. reflexivity.
Qed.

Lemma sub_fixed_sequence_not_a_list (es : list value) (obj : value)
  (path : string) (r : list diag) (w : W) :
  py_eq obj (VList es) = false ->
  isList obj = None ->
  sub' (VList es) obj path r w
  = (Ret obj, (r ++ [D3 path (VStr "array expected") obj])%list, w).
Proof.
  intros Heq Hl. rewrite sub_unfold. unfold try_except, sub_try.
  rewrite Heq, Hl. reflexivity.
Qed.

(** C2 (the code at the failing inputs). Against [ListOf(int)] the int 5
    is reported as [('', 'failure', TypeError)], not as
    [('', 'array expected', 5)]; against [ListOf(str)] the str 'ab' is
    iterated, no diagnostic is produced and the output is the list of its
    characters. *)
Theorem listof_misses_the_sequence_test (id : nat) (w : W) :
  validate call py_str (VInt 5) (VListOf id (VType TInt)) ignore_extra_keys w
  = (Ret (VInt 5, [DFail "" (not_iterable (VInt 5))]), w)
  /\ validate call py_str (VStr "ab") (VListOf id (VType TStr))
       ignore_extra_keys w
     = (Ret (VList [VStr "a"; VStr "b"], []), w).
Proof. split; reflexivity. Qed.

(** **** C6 *)

(** C6 (amended). An int of magnitude at most 2^53 validated against the
    float marker yields no diagnostic, and the output is the float of the
    same value. *)
Theorem small_int_widens_to_float (z : Z) (w : W) :
  Z.abs z <= 2 ^ 53 ->
  exists f,
    validate call py_str (VInt z) (VType TFloat) ignore_extra_keys w
    = (Ret (VFloat f, []), w)
    /\ type_of (VFloat f) = TFloat
    /\ py_eq (VFloat f) (VInt z) = true
    /\ py_eq (VInt z) (VFloat f) = true.
Proof.
  intros Hz. destruct (float_of_int_exact z Hz) as (f & Hf & Heq).
  exists f. split; [|split; [reflexivity | split; exact Heq]].
  unfold validate. rewrite sub_type_marker by reflexivity.
  cbn [pytype_eqb int_of]. rewrite Hf. reflexivity.
Qed.

(** **** C8 *)

(** [sub] lets nothing derived from [Exception] through. *)
Lemma sub_raises_outside_exception (exp obj : value) (path : string)
  r w e r' w' :
  sub' exp obj path r w = (Raise e, r', w') -> exn_is_exception e = false.
Proof.
  rewrite sub_unfold. unfold try_except.
  destruct (sub_try' sub' exp obj path r w) as [[[v|e1] r1] w1];
    [discriminate|].
  destruct (exn_is_exception e1) eqn:E1; [discriminate|].
  intros [= <- _ _]. exact E1.
Qed.

Lemma each_loop_run (check : value) (path : string) (os : list value) :
  forall i r w,
    (forall xs r' w',
        each_loop (fun o i => sub' check o (index_path path i)) os i r w
        = (Ret xs, r', w')
        <-> run_each
              (listof_calls call py_str ignore_extra_keys check path os i)
              r w xs r' w')
    /\ (forall e r' w',
           each_loop (fun o i => sub' check o (index_path path i)) os i r w
           = (Raise e, r', w') -> exn_is_exception e = false).
Proof.
  induction os as [|o os IH]; intros i r w.
  - split.
    + intros xs r' w'. split.
      * intros [= <- <- <-]. constructor.
      * inversion 1. reflexivity.
    + discriminate.
  - cbn [each_loop listof_calls]. unfold bind.
    destruct (sub' check o (index_path path i) r w) as [[[x|e0] r1] w1] eqn:Hx.
    + destruct (IH (S i) r1 w1) as [IHr IHe].
      destruct (each_loop _ os (S i) r1 w1) as [[[xs0|e0] r2] w2] eqn:Hl.
      * split; [|discriminate]. intros xs r' w'. split.
        -- intros [= <- <- <-]. econstructor; [exact Hx|]. now apply IHr.
        -- inversion 1; subst.
           match goal with
           | H1 : sub' _ _ _ _ _ = (Ret _, _, _) |- _ =>
               rewrite Hx in H1; injection H1 as <- <- <-
           end.
           match goal with
           | H2 : run_each _ _ _ _ _ _ |- _ =>
               apply IHr in H2; injection H2 as <- <- <-
           end.
           reflexivity.
      * split.
        -- intros xs r' w'. split; [discriminate|].
           inversion 1; subst.
           match goal with
           | H1 : sub' _ _ _ _ _ = (Ret _, _, _) |- _ =>
               rewrite Hx in H1; injection H1 as <- <- <-
           end.
           match goal with
           | H2 : run_each _ _ _ _ _ _ |- _ =>
               apply IHr in H2; discriminate
           end.
        -- intros e r' w' [= <- _ _]. now apply (IHe e0 r2 w2).
    + split.
      * intros xs r' w'. split; [discriminate|].
        inversion 1; subst. congruence.
      * intros e r' w' [= <- _ _].
        exact (sub_raises_outside_exception _ _ _ _ _ _ _ _ Hx).
Qed.

Lemma zip_loop_run (path : string) (es : list value) :
  forall os i r w,
    (forall xs r' w',
        zip_loop (fun e o i => sub' e o (index_path path i)) es os i r w
        = (Ret xs, r', w')
        <-> run_each (zip_calls call py_str ignore_extra_keys path es os i)
              r w xs r' w')
    /\ (forall e r' w',
           zip_loop (fun e o i => sub' e o (index_path path i)) es os i r w
           = (Raise e, r', w') -> exn_is_exception e = false).
Proof.
  induction es as [|e1 es IH]; intros os i r w.
  - split.
    + intros xs r' w'. split.
      * intros [= <- <- <-]. constructor.
      * inversion 1. reflexivity.
    + discriminate.
  - destruct os as [|o os].
    { split.
      + intros xs r' w'. split.
        * intros [= <- <- <-]. constructor.
        * inversion 1. reflexivity.
      + discriminate. }
    cbn [zip_loop zip_calls]. unfold bind.
    destruct (sub' e1 o (index_path path i) r w) as [[[x|e0] r1] w1] eqn:Hx.
    + destruct (IH os (S i) r1 w1) as [IHr IHe].
      destruct (zip_loop _ es os (S i) r1 w1) as [[[xs0|e0] r2] w2] eqn:Hl.
      * split; [|discriminate]. intros xs r' w'. split.
        -- intros [= <- <- <-]. econstructor; [exact Hx|]. now apply IHr.
        -- inversion 1; subst.
           match goal with
           | H1 : sub' _ _ _ _ _ = (Ret _, _, _) |- _ =>
               rewrite Hx in H1; injection H1 as <- <- <-
           end.
           match goal with
           | H2 : run_each _ _ _ _ _ _ |- _ =>
               apply IHr in H2; injection H2 as <- <- <-
           end.
           reflexivity.
      * split.
        -- intros xs r' w'. split; [discriminate|].
           inversion 1; subst.
           match goal with
           | H1 : sub' _ _ _ _ _ = (Ret _, _, _) |- _ =>
               rewrite Hx in H1; injection H1 as <- <- <-
           end.
           match goal with
           | H2 : run_each _ _ _ _ _ _ |- _ =>
               apply IHr in H2; discriminate
           end.
        -- intros e r' w' [= <- _ _]. now apply (IHe e0 r2 w2).
    + split.
      * intros xs r' w'. split; [discriminate|].
        inversion 1; subst. congruence.
      * intros e r' w' [= <- _ _].
        exact (sub_raises_outside_exception _ _ _ _ _ _ _ _ Hx).
Qed.

(** In the two branches that recurse element-wise, [sub] is the loop
    followed by the construction of the list. *)
Lemma sub_element_wise (exp obj : value) (os : list value) (path : string)
  (calls : list (M W value)) (r : list diag) (w : W) :
  isList obj = Some os ->
  py_eq obj exp = false ->
  element_calls call py_str ignore_extra_keys exp os path = Some calls ->
  exists loop : M W (list value),
    sub_try' sub' exp obj path r w
    = bind loop (fun xs => ret (VList xs)) r w
    /\ (forall xs r' w',
           loop r w = (Ret xs, r', w') <-> run_each calls r w xs r' w')
    /\ (forall e r' w',
           loop r w = (Raise e, r', w') -> exn_is_exception e = false).
Proof.
  intros Hos Heq Hcalls. unfold element_calls in Hcalls.
  assert (Hiter : py_iter obj = Some os)
    by (destruct obj; try discriminate; exact Hos).
  unfold sub_try. rewrite Heq.
  destruct exp; cbn [isList] in Hcalls; try discriminate;
    try (destruct (Nat.eqb (List.length xs) (List.length os)) eqn:El;
         [|discriminate];
         injection Hcalls as <-;
         exists (zip_loop (fun e o i => sub' e o (index_path path i))
                   xs os 0%nat);
         rewrite Hos, El; cbn [negb];
         destruct (zip_loop_run path xs os 0%nat r w) as [H1 H2];
         (split; [reflexivity | split; [exact H1 | exact H2]])).
  injection Hcalls as <-.
  exists (each_loop (fun o i => sub' exp o (index_path path i)) os 0%nat).
  rewrite Hiter.
  destruct (each_loop_run exp path os 0%nat r w) as [H1 H2].
  split; [reflexivity | split; [exact H1 | exact H2]].
Qed.

(** C8. When a list, tuple, set or frozenset is recursed element-wise, by
    [ListOf] or by a sequence of descriptors of the same length, what [sub]
    returns is a list, whatever the kind of the input sequence, and its
    elements are the values returned by the calls of [sub] on the
    elements, in order: if these calls return [xs] then [sub] returns the
    list [xs], and [sub] returns nothing else. It does return as long as
    the callables raise nothing outside of [Exception]. *)
Theorem sequence_recursion_returns_a_list (exp obj : value)
  (os : list value) (path : string) (calls : list (M W value))
  (r : list diag) (w : W) :
  isList obj = Some os ->
  py_eq obj exp = false ->
  element_calls call py_str ignore_extra_keys exp os path = Some calls ->
  (forall xs r' w',
      run_each calls r w xs r' w' ->
      sub' exp obj path r w = (Ret (VList xs), r', w'))
  /\ (forall v r' w',
         sub' exp obj path r w = (Ret v, r', w') ->
         exists xs, v = VList xs /\ run_each calls r w xs r' w')
  /\ (callables_raise_exceptions call ->
       exists xs r' w', sub' exp obj path r w = (Ret (VList xs), r', w')).
Proof.
  intros Hos Heq Hcalls.
  destruct (sub_element_wise exp obj os path calls r w Hos Heq Hcalls)
    as (loop & Hbody & Hret & Hraise).
  assert (Hsub : sub' exp obj path r w
                 = match loop r w with
                   | (Ret xs, r', w') => (Ret (VList xs), r', w')
                   | (Raise e, r', w') => (Raise e, r', w')
                   end).
  { rewrite sub_unfold. unfold try_except. rewrite Hbody. unfold bind.
    destruct (loop r w) as [[[xs|e] r1] w1] eqn:El; [reflexivity|].
    now rewrite (Hraise e r1 w1 eq_refl). }
  split; [|split].
  - intros xs r' w' Hrun. apply Hret in Hrun. now rewrite Hsub, Hrun.
  - intros v r' w'. rewrite Hsub.
    destruct (loop r w) as [[[xs|e] r1] w1] eqn:El; [|discriminate].
    intros [= <- <- <-]. exists xs. split; [reflexivity|]. now apply Hret.
  - intros Hc.
    destruct (sub_returns exp obj path r w Hc) as (v & r' & w' & Hv).
    rewrite Hsub in Hv |- *.
    destruct (loop r w) as [[[xs|e] r1] w1]; [|discriminate].
    now exists xs, r1, w1.
Qed.

(** **** C3 and C4 *)

(** Choices that fail are passed over by the loop of [Or]. *)
Lemma or_loop_skips_failures (obj : value) (path : string)
  (pre : list value) (w w1 : W) :
  run_choices call py_str ignore_extra_keys true obj path pre w w1 ->
  forall rest last r,
  exists last',
    or_loop (fun c => sub' c obj path) (pre ++ rest) last r w
    = or_loop (fun c => sub' c obj path) rest last' r w1.
Proof.
  induction 1 as [w|c cs w w1 w2 v rc Hc Hne _ IH]; intros rest last r.
  - now exists last.
  - destruct (IH rest (v, rc) r) as [last' Hl]. exists last'.
    simpl. unfold bind at 1. unfold fresh. rewrite Hc. cbn [snd].
    rewrite Hne. exact Hl.
Qed.

(** Choices that succeed are passed over by the loop of [And]. *)
Lemma and_loop_skips_successes (obj : value) (path : string)
  (pre : list value) (w w1 : W) :
  run_choices call py_str ignore_extra_keys false obj path pre w w1 ->
  forall rest last r,
  exists last',
    and_loop (fun c => sub' c obj path) (pre ++ rest) last r w
    = and_loop (fun c => sub' c obj path) rest last' r w1.
Proof.
  induction 1 as [w|c cs w w1 w2 v rc Hc Hne _ IH]; intros rest last r.
  - now exists last.
  - destruct (IH rest (v, rc) r) as [last' Hl]. exists last'.
    simpl. unfold bind at 1. unfold fresh. rewrite Hc. cbn [snd].
    rewrite Hne. exact Hl.
Qed.

Lemma nonempty_true A (l : list A) : l <> [] -> nonempty l = true.
Proof. destruct l; [congruence | reflexivity]. Qed.

Lemma sub_or (id : nat) (choice : list value) (obj : value) (path : string)
  (r : list diag) (w : W) :
  choice <> [] ->
  py_eq obj (VOr id choice) = false ->
  sub' (VOr id choice) obj path r w
  = try_except
      (bind (or_loop (fun c => sub' c obj path) choice (obj, []))
         (fun res =>
            let '(obj2, report2) := res in
            if nonempty report2
            then bind (extend report2) (fun _ => ret obj)
            else ret obj2))
      (fun e => bind (append (DFail path e)) (fun _ => ret obj)) r w.
Proof.
  intros Hne Heq. rewrite sub_unfold. unfold try_except, sub_try.
  rewrite Heq. destruct choice; [congruence | reflexivity].
Qed.

Lemma sub_and (id : nat) (choice : list value) (obj : value) (path : string)
  (r : list diag) (w : W) :
  choice <> [] ->
  py_eq obj (VAnd id choice) = false ->
  sub' (VAnd id choice) obj path r w
  = try_except
      (bind (and_loop (fun c => sub' c obj path) choice (obj, []))
         (fun res =>
            let '(obj2, report2) := res in
            if nonempty report2
            then bind (extend report2) (fun _ => ret obj)
            else ret obj2))
      (fun e => bind (append (DFail path e)) (fun _ => ret obj)) r w.
Proof.
  intros Hne Heq. rewrite sub_unfold. unfold try_except, sub_try.
  rewrite Heq. destruct choice; [congruence | reflexivity].
Qed.

Lemma app_cons_not_nil A (pre : list A) (c : A) (post : list A) :
  (pre ++ c :: post)%list <> [].
Proof. destruct pre; discriminate. Qed.

(** C3. For an [Or] node whose choices are attempted (the value is not the
    node itself): when every choice fails, [sub] appends to the report
    exactly the diagnostics of the last choice and returns the value
    unchanged, the diagnostics of the earlier choices being dropped; at the
    first choice that produces no diagnostic, [sub] returns the value that
    choice returned and appends nothing. *)
Theorem or_keeps_the_last_failure (id : nat) (choice : list value)
  (obj : value) (path : string) (r : list diag) (w : W) :
  py_eq obj (VOr id choice) = false ->
  (forall pre c v rc w1 w2,
      choice = (pre ++ [c])%list ->
      run_choices call py_str ignore_extra_keys true obj path pre w w1 ->
      sub' c obj path [] w1 = (Ret v, rc, w2) ->
      rc <> [] ->
      sub' (VOr id choice) obj path r w = (Ret obj, (r ++ rc)%list, w2))
  /\ (forall pre c post v w1 w2,
         choice = (pre ++ c :: post)%list ->
         run_choices call py_str ignore_extra_keys true obj path pre w w1 ->
         sub' c obj path [] w1 = (Ret v, [], w2) ->
         sub' (VOr id choice) obj path r w = (Ret v, r, w2)).
Proof.
  intros Heq. split.
  - intros pre c v rc w1 w2 -> Hpre Hc Hrc.
    rewrite sub_or by (apply app_cons_not_nil || exact Heq).
    destruct (or_loop_skips_failures obj path pre w w1 Hpre [c] (obj, []) r)
      as [last' Hl].
    unfold try_except, bind at 1. rewrite Hl.
    simpl. unfold bind, fresh. rewrite Hc.
    cbn [snd]. rewrite (nonempty_true _ rc Hrc). cbn.
    rewrite (nonempty_true _ rc Hrc). reflexivity.
  - intros pre c post v w1 w2 -> Hpre Hc.
    rewrite sub_or by (apply app_cons_not_nil || exact Heq).
    destruct (or_loop_skips_failures obj path pre w w1 Hpre (c :: post) (obj, []) r)
      as [last' Hl].
    unfold try_except, bind at 1. rewrite Hl.
    simpl. unfold bind, fresh. rewrite Hc.
    reflexivity.
Qed.

(** C4 (amended). For an [And] node whose choices are attempted: the
    choices are evaluated in order, each on the value given to the node;
    at the first choice that produces diagnostics, [sub] appends exactly
    those, returns the value unchanged and evaluates no later choice (the
    context is the one that choice left); when no choice fails, [sub]
    returns the value returned by the last choice and appends nothing. *)
Theorem and_stops_at_the_first_failure (id : nat) (choice : list value)
  (obj : value) (path : string) (r : list diag) (w : W) :
  py_eq obj (VAnd id choice) = false ->
  (forall pre c post v rc w1 w2,
      choice = (pre ++ c :: post)%list ->
      run_choices call py_str ignore_extra_keys false obj path pre w w1 ->
      sub' c obj path [] w1 = (Ret v, rc, w2) ->
      rc <> [] ->
      sub' (VAnd id choice) obj path r w = (Ret obj, (r ++ rc)%list, w2))
  /\ (forall pre c v w1 w2,
         choice = (pre ++ [c])%list ->
         run_choices call py_str ignore_extra_keys false obj path pre w w1 ->
         sub' c obj path [] w1 = (Ret v, [], w2) ->
         sub' (VAnd id choice) obj path r w = (Ret v, r, w2)).
Proof.
  intros Heq. split.
  - intros pre c post v rc w1 w2 -> Hpre Hc Hrc.
    rewrite sub_and by (apply app_cons_not_nil || exact Heq).
    destruct (and_loop_skips_successes obj path pre w w1 Hpre (c :: post) (obj, []) r)
      as [last' Hl].
    unfold try_except, bind at 1. rewrite Hl.
    simpl. unfold bind, fresh. rewrite Hc.
    cbn [snd]. rewrite (nonempty_true _ rc Hrc). cbn.
    rewrite (nonempty_true _ rc Hrc). reflexivity.
  - intros pre c v w1 w2 -> Hpre Hc.
    rewrite sub_and by (apply app_cons_not_nil || exact Heq).
    destruct (and_loop_skips_successes obj path pre w w1 Hpre [c] (obj, []) r)
      as [last' Hl].
    unfold try_except, bind at 1. rewrite Hl.
    simpl. unfold bind, fresh. rewrite Hc.
    reflexivity.
Qed.

(** **** C7 *)

Lemma str_eqb_neq (a b : string) : a <> b -> String.eqb a b = false.
Proof. intros H. now apply String.eqb_neq. Qed.

(** C7. For the schema [{a: T}] and the input [{a: x, b: y}] with two
    different str keys, where matching [x] against [T] at path ['.a']
    returns [x'] without diagnostics: when extra keys are rejected,
    [validate] yields exactly the diagnostic [('', 'extra key', b)] and the
    output [{a: x'}] has no key [b]; when they are ignored, it yields no
    diagnostic and the output [{a: x', b: y}] holds [y] as given. *)
Theorem extra_key_is_reported_or_copied (a b : string) (x y T x' : value)
  (items : list (value * value)) (w w' : W) :
  a <> b ->
  items = [(VStr a, x); (VStr b, y)] \/ items = [(VStr b, y); (VStr a, x)] ->
  sub' T x (key_path "" a) [] w = (Ret x', [], w') ->
  validate call py_str (VDict items) (VDict [(VStr a, T)]) ignore_extra_keys w
  = if ignore_extra_keys
    then (Ret (VDict [(VStr a, x'); (VStr b, y)], []), w')
    else (Ret (VDict [(VStr a, x')], [D3 "" (VStr "extra key") (VStr b)]), w').
Proof.
  intros Hab Hitems Hx.
  assert (Hba : String.eqb b a = false) by (apply str_eqb_neq; congruence).
  assert (Hab' : String.eqb a b = false) by (apply str_eqb_neq; congruence).
  change (key_path "" a) with (String "." a) in Hx.
  unfold validate. rewrite sub_unfold. unfold try_except, sub_try.
  destruct Hitems as [-> | ->].
  - cbn - [sub]. rewrite !String.eqb_refl. unfold bind at 1 2.
    rewrite Hx. cbn. rewrite ?String.eqb_refl, ?Hba, ?Hab'. cbn.
    destruct ignore_extra_keys; cbn;
      rewrite ?String.eqb_refl, ?Hba, ?Hab'; cbn;
      rewrite ?String.eqb_refl, ?Hba, ?Hab'; reflexivity.
  - cbn - [sub]. rewrite !String.eqb_refl, ?Hba. unfold bind at 1 2.
    rewrite Hx. cbn. rewrite ?String.eqb_refl, ?Hba, ?Hab'. cbn.
    destruct ignore_extra_keys; cbn;
      rewrite ?String.eqb_refl, ?Hba, ?Hab'; cbn;
      rewrite ?String.eqb_refl, ?Hba, ?Hab'; reflexivity.
Qed.

End EngineFacts.

(* ================================================================== *)
(** ** Validating the output again *)

Section Idempotence.

Variable W : Type.
Variable call : nat -> list value -> W -> outcome value * W.
Variable py_str : value -> string.

(** Extra keys are rejected: [validate(v, d)] with the default policy. *)
Local Abbreviation subF := (sub call py_str false).

Lemma app_nil_inv A (r ds : list A) : [] = (r ++ ds)%list -> r = [].
Proof. destruct r; [reflexivity | discriminate]. Qed.

(** A computation that ends with an empty report started its
    continuation with an empty report. *)
Lemma bind_inv_nil A B (m : M W A) (k : A -> M W B) w b w' :
  (forall a, grows (k a)) ->
  bind m k [] w = (Ret b, [], w') ->
  exists a w1, m [] w = (Ret a, [], w1) /\ k a [] w1 = (Ret b, [], w').
Proof.
  intros Hk. unfold bind.
  destruct (m [] w) as [[[a|e] r1] w1]; [|discriminate].
  intros H. destruct (Hk a _ _ _ _ _ H) as [ds Hds].
  apply app_nil_inv in Hds. subst r1. now exists a, w1.
Qed.

Lemma sub_inv_nil (d obj : value) (path : string) w out w' :
  subF d obj path [] w = (Ret out, [], w') ->
  sub_try call py_str false subF d obj path [] w = (Ret out, [], w').
Proof.
  rewrite sub_unfold. unfold try_except.
  destruct (sub_try _ _ _ _ _ _ _ _ _) as [[[v|e] r1] w1]; [trivial|].
  destruct (exn_is_exception e); [|discriminate].
  unfold bind, append, ret. intros [= _ H _]. now destruct r1.
Qed.

Lemma sub_of_sub_try (d obj : value) (path : string) r w out r' w' :
  sub_try call py_str false subF d obj path r w = (Ret out, r', w') ->
  subF d obj path r w = (Ret out, r', w').
Proof.
  intros H. rewrite sub_unfold. unfold try_except. now rewrite H.
Qed.

Lemma zip_loop_grows (path : string) es os i :
  grows (zip_loop (fun e o i => subF e o (index_path path i)) es os i).
Proof.
  apply (zip_loop_preserves W (fun A => @grows W A)).
  - apply grows_ret.
  - apply grows_bind.
  - apply Forall_forall. intros. apply sub_grows.
Qed.

Lemma each_loop_grows (check : value) (path : string) os i :
  grows (each_loop (fun o i => subF check o (index_path path i)) os i).
Proof.
  apply (each_loop_preserves W (fun A => @grows W A)).
  - apply grows_ret.
  - apply grows_bind.
  - intros. apply sub_grows.
Qed.

Lemma fields_loop_grows (path : string) items fields keys obj2 :
  grows (fields_loop (fun expv v p => subF expv v p) path items fields
           keys obj2).
Proof.
  apply (fields_loop_preserves W (fun A => @grows W A)).
  - apply grows_ret.
  - apply grows_bind.
  - apply grows_append.
  - intros. apply grows_raise.
  - apply Forall_forall. intros. apply sub_grows.
Qed.

(** *** Dicts whose keys are strs *)

Lemma py_eq_str_refl (s : value) : is_str s = true -> py_eq s s = true.
Proof. destruct s; try discriminate. intros _. apply String.eqb_refl. Qed.

Lemma py_eq_str_trans (s k key : value) :
  is_str s = true -> py_eq s k = true -> py_eq s key = py_eq k key.
Proof.
  destruct s as [| | | |s| | | | | | | | | | | | |]; try discriminate.
  intros _. destruct k as [| | | |k| | | | | | | | | | | | |]; try discriminate.
  cbn. intros H. apply String.eqb_eq in H. now subst.
Qed.

Lemma py_eq_str_neq (s k key : value) :
  is_str s = true -> is_str k = true ->
  py_eq s k = false -> py_eq s key = true -> py_eq k key = false.
Proof.
  destruct s as [| | | |s| | | | | | | | | | | | |]; try discriminate.
  destruct k as [| | | |k| | | | | | | | | | | | |]; try discriminate.
  intros _ _. destruct key as [| | | |t| | | | | | | | | | | | |];
    try discriminate.
  cbn. intros Hsk Hst. apply String.eqb_eq in Hst. subst t.
  rewrite String.eqb_sym. exact Hsk.
Qed.

Lemma dict_get_set (k x key : value) (d : list (value * value)) :
  is_str k = true -> str_keys d ->
  dict_get key (dict_set k x d)
  = if py_eq k key then Some x else dict_get key d.
Proof.
  intros Hk Hd. induction Hd as [|[s y] d Hs _ IH]; cbn [dict_set dict_get].
  - reflexivity.
  - cbn [fst] in Hs. destruct (py_eq s k) eqn:Esk; cbn [dict_get].
    + rewrite (py_eq_str_trans s k key Hs Esk).
      destruct (py_eq k key); reflexivity.
    + rewrite IH. destruct (py_eq s key) eqn:Es.
      * now rewrite (py_eq_str_neq s k key Hs Hk Esk Es).
      * reflexivity.
Qed.

Lemma dict_set_str_keys (k x : value) (d : list (value * value)) :
  is_str k = true -> str_keys d -> str_keys (dict_set k x d).
Proof.
  intros Hk Hd. induction Hd as [|[s y] d Hs Hd IH]; cbn [dict_set].
  - repeat constructor. exact Hk.
  - destruct (py_eq s k); constructor; auto.
Qed.

Lemma dict_set_keys (k x s : value) (d : list (value * value)) :
  In s (map fst (dict_set k x d)) -> s = k \/ In s (map fst d).
Proof.
  induction d as [|[s' y] d IH]; cbn [dict_set].
  - cbn. intros [<- | []]. now left.
  - destruct (py_eq s' k); cbn [map fst In].
    + intros [<- | H]; auto.
    + intros [<- | H]; auto. destruct (IH H); auto.
Qed.

(** *** The loops *)

Lemma zip_loop_stable (es : list value) :
  Forall (fun e => stable (subF e)) es ->
  forall os i path w xs w',
    zip_loop (fun e o i => subF e o (index_path path i)) es os i [] w
    = (Ret xs, [], w') ->
    List.length es = List.length os ->
    List.length xs = List.length es
    /\ forall path2 j w2,
        zip_loop (fun e o i => subF e o (index_path path2 i)) es xs j [] w2
        = (Ret xs, [], w2).
Proof.
  induction 1 as [|e es He _ IH]; intros [|o os] i path w xs w' H Hlen;
    try discriminate.
  - injection H as <- _. split; reflexivity.
  - cbn [zip_loop] in H.
    apply bind_inv_nil in H as (x & w1 & Hx & H);
      [|intros; apply grows_bind;
        [apply zip_loop_grows | intros; apply grows_ret]].
    apply bind_inv_nil in H as (xs' & w2 & Hxs & H);
      [|intros; apply grows_ret].
    injection H as <- <-.
    destruct (IH os (S i) path w1 xs' w2 Hxs) as [Hl Hsecond];
      [now injection Hlen|].
    split; [cbn; congruence|].
    intros path2 j w3. cbn [zip_loop]. unfold bind.
    rewrite (He _ _ _ _ _ Hx), Hsecond. reflexivity.
Qed.

Lemma each_loop_stable (check : value) :
  stable (subF check) ->
  forall os i path w xs w',
    each_loop (fun o i => subF check o (index_path path i)) os i [] w
    = (Ret xs, [], w') ->
    forall path2 j w2,
      each_loop (fun o i => subF check o (index_path path2 i)) xs j [] w2
      = (Ret xs, [], w2).
Proof.
  intros Hc. induction os as [|o os IH]; intros i path w xs w' H.
  - injection H as <- _. reflexivity.
  - cbn [each_loop] in H.
    apply bind_inv_nil in H as (x & w1 & Hx & H);
      [|intros; apply grows_bind;
        [apply each_loop_grows | intros; apply grows_ret]].
    apply bind_inv_nil in H as (xs' & w2 & Hxs & H);
      [|intros; apply grows_ret].
    injection H as <- <-.
    intros path2 j w3. cbn [each_loop]. unfold bind.
    rewrite (Hc _ _ _ _ _ Hx), (IH _ _ _ _ _ Hxs). reflexivity.
Qed.

Lemma keys_distinct_cons (k : value) (fields : list (value * value)) :
  keys_distinct (k :: map (fun kv => field_key (fst kv)) fields) = true ->
  keys_distinct (map (fun kv => field_key (fst kv)) fields) = true
  /\ forall kv, In kv fields ->
                py_eq k (field_key (fst kv)) = false
                /\ py_eq (field_key (fst kv)) k = false.
Proof.
  cbn [keys_distinct]. intros H. apply andb_prop in H as [Hall Hrest].
  split; [exact Hrest|]. intros kv Hin.
  rewrite forallb_forall in Hall.
  specialize (Hall (field_key (fst kv))
                (in_map (fun kv => field_key (fst kv)) _ _ Hin)).
  apply andb_prop in Hall as [H1 H2].
  split; [now destruct (py_eq k _) | now destruct (py_eq _ k)].
Qed.

Local Abbreviation F := (fun expv v p => subF expv v p).

Lemma fields_loop_stable (items fields : list (value * value)) :
  Forall (fun kv => stable (subF (snd kv))) fields ->
  keys_distinct (map (fun kv => field_key (fst kv)) fields) = true ->
  forall path keys obj2 w K O w',
    fields_loop F path items fields keys obj2 [] w = (Ret (K, O), [], w') ->
    str_keys obj2 ->
    (forall s, In s (map fst obj2) -> In s keys) ->
    (forall kv, In kv fields -> dict_get (field_key (fst kv)) obj2 = None) ->
    str_keys O
    /\ (forall s, In s (map fst O) -> In s K)
    /\ (forall key,
           (forall kv, In kv fields -> py_eq (field_key (fst kv)) key = false) ->
           dict_get key O = dict_get key obj2)
    /\ (forall items2 path2 w2,
           (forall kv, In kv fields ->
                       dict_get (field_key (fst kv)) items2
                       = dict_get (field_key (fst kv)) O) ->
           fields_loop F path2 items2 fields keys obj2 [] w2
           = (Ret (K, O), [], w2)).
Proof.
  induction 1 as [|[expk expv] fields He _ IH];
    intros Hdist path keys obj2 w K O w' H Hstr Hkeys Hfree.
  - injection H as <- <- _. repeat split; auto.
  - cbn [map fst] in Hdist.
    apply keys_distinct_cons in Hdist as [Hdist Hhead].
    cbn [fields_loop] in H.
    pose proof (Hfree (expk, expv) (or_introl eq_refl)) as Hfree0.
    cbn [fst] in Hfree0, Hhead.
    destruct (field_entry expk) as [key mandatory] eqn:E.
    assert (Hkey : field_key expk = key) by (unfold field_key; now rewrite E).
    rewrite Hkey in Hfree0, Hhead.
    destruct (first_unhashable key) eqn:Ehash; [discriminate|].
    destruct (dict_get key items) as [v|] eqn:Eget.
    + destruct key as [| | | |k| | | | | | | | | | | | |]; try discriminate.
      apply bind_inv_nil in H as (x & w1 & Hx & H);
        [|intros; apply fields_loop_grows].
      destruct (IH Hdist path _ _ w1 K O w' H) as (HO & HK & Hframe & Hsecond).
      { now apply dict_set_str_keys. }
      { intros s Hs. apply dict_set_keys in Hs as [-> | Hs];
          apply in_or_app; [right; now left | left; auto]. }
      { intros kv Hin. rewrite dict_get_set by (auto || reflexivity).
        destruct (Hhead kv Hin) as [-> _].
        apply Hfree. now right. }
      assert (HgetO : dict_get (VStr k) O = Some x).
      { rewrite Hframe by (intros kv Hin; apply (Hhead kv Hin)).
        rewrite dict_get_set by (auto || reflexivity).
        cbn. now rewrite String.eqb_refl. }
      split; [exact HO|]. split; [exact HK|]. split.
      * intros key' Hk'. rewrite Hframe by (intros; apply Hk'; now right).
        rewrite dict_get_set by (auto || reflexivity).
        specialize (Hk' (expk, expv) (or_introl eq_refl)).
        cbn [fst] in Hk'. rewrite Hkey in Hk'.
        now rewrite Hk'.
      * intros items2 path2 w2 Hitems2. cbn [fields_loop]. rewrite E.
        cbn [first_unhashable].
        pose proof (Hitems2 (expk, expv) (or_introl eq_refl)) as H0.
        cbn [fst] in H0. rewrite Hkey in H0.
        rewrite H0, HgetO. unfold bind.
        rewrite (He _ _ _ _ _ Hx). apply Hsecond.
        intros kv Hin. apply Hitems2. now right.
    + apply bind_inv_nil in H as ([] & w1 & Hm & H);
        [|intros; apply fields_loop_grows].
      destruct mandatory; [discriminate|]. injection Hm as <-.
      destruct (IH Hdist path _ _ w K O w' H) as (HO & HK & Hframe & Hsecond).
      { exact Hstr. }
      { intros s Hs. apply in_or_app. left. auto. }
      { intros kv Hin. apply Hfree. now right. }
      assert (HgetO : dict_get key O = None).
      { rewrite Hframe by (intros kv Hin; apply (Hhead kv Hin)).
        exact Hfree0. }
      split; [exact HO|]. split; [exact HK|]. split.
      * intros key' Hk'. apply Hframe. intros; apply Hk'; now right.
      * intros items2 path2 w2 Hitems2. cbn [fields_loop]. rewrite E, Ehash.
        pose proof (Hitems2 (expk, expv) (or_introl eq_refl)) as H0.
        cbn [fst] in H0. rewrite Hkey in H0.
        rewrite H0, HgetO. unfold bind, ret. apply Hsecond.
        intros kv Hin. apply Hitems2. now right.
Qed.

Lemma extra_keys_nil (O : list (value * value)) (K : list value) :
  str_keys O ->
  (forall s, In s (map fst O) -> In s K) ->
  extra_keys O K = [].
Proof.
  unfold extra_keys. intros HO. induction HO as [|[s y] O Hs _ IH]; intros HK.
  - reflexivity.
  - cbn [map fst filter].
    assert (Hin : existsb (py_eq s) K = true).
    { apply existsb_exists. exists s. split.
      - apply HK. now left.
      - now apply py_eq_str_refl. }
    rewrite Hin. cbn [negb]. apply IH. intros s' Hs'. apply HK. now right.
Qed.

Lemma plain_elements (P : value -> Prop) (es : list value) :
  Forall (fun e => plain e = true -> P e) es ->
  forallb plain es = true -> Forall P es.
Proof.
  induction 1 as [|e es He _ IH]; cbn [forallb]; intros H.
  - constructor.
  - apply andb_prop in H as [H1 H2]. constructor; auto.
Qed.

Lemma plain_fields (P : value -> Prop) (fields : list (value * value)) :
  Forall (fun kv => (plain (fst kv) = true -> P (fst kv))
                    /\ (plain (snd kv) = true -> P (snd kv))) fields ->
  (fix all (l : list (value * value)) : bool :=
     match l with
     | [] => true
     | (_, expv) :: l' => plain expv && all l'
     end) fields = true ->
  Forall (fun kv => P (snd kv)) fields.
Proof.
  induction 1 as [|[k e] fields [_ He] _ IH]; intros H.
  - constructor.
  - apply andb_prop in H as [H1 H2]. constructor; auto.
Qed.

Ltac no_diag H :=
  cbv [bind append extend ret raise] in H; discriminate.

(** The fixed-sequence branch, whatever the kind of the sequence in the
    schema. *)
Lemma fixed_sequence_stable (d : value) (es : list value) :
  isList d = Some es ->
  Forall (fun e => stable (subF e)) es ->
  stable (subF d).
Proof.
  intros Hd Hes obj path w out w' H path2 w2.
  apply sub_inv_nil in H. unfold sub_try in H.
  destruct (py_eq obj d) eqn:Eobj.
  { injection H as <- <-. now apply sub_equal. }
  assert (Hbody : forall o,
             sub_try call py_str false subF d o path2 [] w2
             = if py_eq o d then (Ret o, [], w2) else
                 match isList o with
                 | None =>
                     (Ret o, [D3 path2 (VStr "array expected") o], w2)
                 | Some os =>
                     if negb (Nat.eqb (List.length es) (List.length os)) then
                       (Ret o,
                        [D3 path2
                           (VStr ("length is "
                                  ++ string_of_nat (List.length os)
                                  ++ " but should be "
                                  ++ string_of_nat (List.length es))) o], w2)
                     else
                       bind (zip_loop
                               (fun e o i => subF e o (index_path path2 i))
                               es os 0%nat)
                         (fun xs => ret (VList xs)) [] w2
                 end).
  { intros o. unfold sub_try. destruct (py_eq o d); [reflexivity|].
    destruct d; try discriminate; injection Hd as ->;
      destruct (isList o); try reflexivity;
      destruct (negb _); reflexivity. }
  assert (Hfirst :
            match isList obj with
            | None => False
            | Some os =>
                Nat.eqb (List.length es) (List.length os) = true
                /\ exists xs w1,
                    zip_loop (fun e o i => subF e o (index_path path i))
                      es os 0%nat [] w = (Ret xs, [], w1)
                    /\ out = VList xs
            end).
  { destruct d; try discriminate; injection Hd as ->;
      (destruct (isList obj) as [os|]; [|no_diag H]);
      (destruct (Nat.eqb _ _); [cbn [negb] in H | no_diag H]);
      (apply bind_inv_nil in H as (xs & w1 & Hz & Hr);
       [|intros; apply grows_ret]);
      injection Hr as <- <-; (split; [reflexivity|]);
      exists xs, w1; (split; [exact Hz | reflexivity]). }
  destruct (isList obj) as [os|]; [|contradiction].
  destruct Hfirst as (Hlen & xs & w1 & Hz & ->).
  apply Nat.eqb_eq in Hlen.
  destruct (zip_loop_stable es Hes os 0%nat path w xs w1 Hz Hlen)
    as [Hl Hsecond].
  apply sub_of_sub_try. rewrite Hbody.
  destruct (py_eq (VList xs) d); [reflexivity|].
  cbn [isList]. rewrite Hl, Nat.eqb_refl. cbn [negb].
  unfold bind. rewrite Hsecond. reflexivity.
Qed.

(** The branch of the literals: [exp != obj] does not depend on the path. *)
Lemma literal_stable (d : value) :
  (forall o p r w,
      sub_try call py_str false subF d o p r w
      = if py_eq o d then (Ret o, r, w)
        else if py_ne d o
             then (Ret o, (r ++ [D3 p (VStr ("!= " ++ py_str d)) o])%list, w)
             else (Ret o, r, w)) ->
  stable (subF d).
Proof.
  intros Hbody obj path w out w' H path2 w2.
  apply sub_inv_nil in H. rewrite Hbody in H.
  apply sub_of_sub_try. rewrite Hbody.
  destruct (py_eq obj d) eqn:E.
  - injection H as <- <-. now rewrite E.
  - destruct (py_ne d obj) eqn:E'; [discriminate|].
    injection H as <- <-. now rewrite E, E'.
Qed.

Ltac literal :=
  intros _; apply literal_stable; intros o p r w; unfold sub_try;
  destruct (py_eq o _); [reflexivity|];
  destruct (py_ne _ o); reflexivity.

(** On the schemas without [Or], [And] and callables and without a key
    named twice, the output of a match without diagnostics matches again,
    unchanged. *)
Lemma plain_stable (d : value) : plain d = true -> stable (subF d).
Proof.
  induction d as
    [ | | | | | es IH | es IH | es IH | es IH | fields IH | t | id cs IH
    | id cs IH | id c IH | | | | ] using value_ind_nested.
  1-5: literal.
  1-4: intros Hp; eapply fixed_sequence_stable; [reflexivity|];
       apply (plain_elements (fun e => stable (subF e)));
       [exact IH | exact Hp].
  - (* a mapping *)
    cbn [plain]. intros Hp. apply andb_prop in Hp as [Hdist Hall].
    pose proof (plain_fields (fun e => stable (subF e)) fields IH Hall)
      as Hfields.
    intros obj path w out w' H path2 w2.
    apply sub_inv_nil in H. unfold sub_try in H.
    destruct (py_eq obj (VDict fields)) eqn:Eobj.
    { injection H as <- <-. now apply sub_equal. }
    destruct obj as [| | | | | | | | |items| | | | | | | |]; try no_diag H.
    apply bind_inv_nil in H as ([K O] & w1 & Hloop & H).
    2:{ intros [K O]. destruct (nonempty _);
        [apply grows_bind; [apply grows_extend | intros; apply grows_ret]
        | apply grows_ret]. }
    cbv zeta in H.
    destruct (extra_keys items K) as [|k extra]; [|no_diag H].
    injection H as <- <-.
    destruct (fields_loop_stable items fields Hfields Hdist path [] [] w K O
                w1 Hloop) as (HO & HK & _ & Hsecond).
    { constructor. }
    { intros s []. }
    { reflexivity. }
    destruct (py_eq (VDict O) (VDict fields)) eqn:Eout.
    { now apply sub_equal. }
    apply sub_of_sub_try. unfold sub_try. rewrite Eout.
    unfold bind at 1.
    rewrite (Hsecond O path2 w2 (fun _ _ => eq_refl)).
    cbv zeta. rewrite (extra_keys_nil O K HO HK). reflexivity.
  - (* a type marker *)
    intros _ obj path w out w' H path2 w2.
    destruct (py_eq obj (VType t)) eqn:Eobj.
    { rewrite sub_equal in H by exact Eobj. injection H as <- <-.
      now apply sub_equal. }
    rewrite sub_type_marker in H by exact Eobj.
    destruct (if pytype_eqb t TFloat then int_of obj else None) as [z|] eqn:E1.
    + destruct (float_of_int z) as [f|]; [|discriminate].
      injection H as <- <-.
      destruct t; try discriminate. reflexivity.
    + destruct (pytype_eqb t TStr) eqn:Es.
      * destruct (negb (is_str obj)) eqn:Ei; [discriminate|].
        injection H as <- <-.
        rewrite sub_type_marker by exact Eobj. now rewrite E1, Es, Ei.
      * destruct (negb (pytype_eqb t (type_of obj))) eqn:Et; [discriminate|].
        injection H as <- <-.
        rewrite sub_type_marker by exact Eobj. now rewrite E1, Es, Et.
  - discriminate.
  - discriminate.
  - (* ListOf *)
    cbn [plain]. intros Hp. specialize (IH Hp).
    intros obj path w out w' H path2 w2.
    apply sub_inv_nil in H. unfold sub_try in H.
    destruct (py_eq obj (VListOf id c)) eqn:Eobj.
    { injection H as <- <-. now apply sub_equal. }
    destruct (py_iter obj) as [os|]; [|no_diag H].
    apply bind_inv_nil in H as (xs & w1 & Hloop & H);
      [|intros; apply grows_ret].
    injection H as <- <-.
    apply sub_of_sub_try. unfold sub_try.
    replace (py_eq (VList xs) (VListOf id c)) with false by reflexivity.
    cbn [py_iter]. unfold bind.
    rewrite (each_loop_stable c IH os 0%nat path w xs w1 Hloop). reflexivity.
  - literal.
  - literal.
  - literal.
  - discriminate.
Qed.

(** **** C5 *)

Lemma set_of_report_nil (report : list diag) :
  set_of_report report = Ret [] -> report = [].
Proof.
  unfold set_of_report. destruct (report_unhashable report); [discriminate|].
  destruct report; [reflexivity | discriminate].
Qed.

(** C5 (amended). For a schema without [Or], [And] and callables whose
    mappings name no key twice, under the default policy: when
    [validate(v, d)] returns an output and no diagnostic, validating that
    output against [d] again returns no diagnostic and the very same
    output. *)
Theorem validation_is_idempotent_on_plain_schemas (v d output : value)
  (w w' : W) :
  plain d = true ->
  validate call py_str v d false w = (Ret (output, []), w') ->
  forall w2,
    validate call py_str output d false w2 = (Ret (output, []), w2).
Proof.
  intros Hp H w2. unfold validate in H.
  destruct (subF d v "" [] w) as [[[out|e] report] w1] eqn:Hs;
    [|discriminate].
  destruct (set_of_report report) as [errors|] eqn:Hset; [|discriminate].
  injection H as -> -> _.
  apply set_of_report_nil in Hset. subst report.
  unfold validate.
  rewrite (plain_stable d Hp v "" w output w1 Hs "" w2). reflexivity.
Qed.

End Idempotence.

(* ================================================================== *)
(** ** The statements at concrete inputs *)

Lemma samples_raise_exceptions : callables_raise_exceptions Samples.call.
Proof.
  intros id args w e w'. unfold Samples.call. intros [= H _]. revert H.
  unfold Samples.result.
  destruct id as [|[|[|[|[|id]]]]];
    repeat match goal with
      | |- context [match ?x with _ => _ end] => destruct x
      end;
    intros [= <-]; reflexivity.
Qed.

(** **** C1 *)

(** A value that is a list checked against [int]: the report holds the
    tuple [('', 'not a int', [1])], whose last component cannot be hashed,
    and [set(report)] raises TypeError out of [validate]. A checker that
    raises ValueError is reported as the pair
    [('', 'raiser call raised bad value')], not as a ['failure'] triple. A
    checker that exits the interpreter is not caught at all. *)
Lemma validate_raises_and_checker_faults_differ :
  validate Samples.call Samples.py_str (VList [VInt 1]) (VType TInt) false tt
  = (Raise (unhashable (VList [VInt 1])), tt)
  /\ validate Samples.call Samples.py_str (VInt 1) Samples.raiser false tt
     = (Ret (VInt 1, [D2 "" (VStr "raiser call raised bad value")]), tt)
  /\ validate Samples.call_or_exit Samples.py_str (VInt 1) Samples.quitter
       false tt
     = (Raise (mkExn "SystemExit" false "0"), tt).
Proof. split; [|split]; reflexivity. Qed.

Lemma faults_are_caught_at_the_subtree_witness :
  callables_raise_exceptions Samples.call
  /\ (exists v r' w',
         sub Samples.call Samples.py_str false
           (VListOf 0 (VType TInt)) (VInt 5) ".n" [] tt = (Ret v, r', w'))
  /\ sub Samples.call Samples.py_str false
       (VListOf 0 (VType TInt)) (VInt 5) ".n" [] tt
     = (Ret (VInt 5), [DFail ".n" (not_iterable (VInt 5))], tt)
  /\ sub Samples.call Samples.py_str false Samples.raiser (VInt 5) ".n" [] tt
     = (Ret (VInt 5), [D2 ".n" (VStr "raiser call raised bad value")], tt)
  /\ (exists output report w',
         sub Samples.call Samples.py_str false Samples.raiser (VInt 5) "" [] tt
         = (Ret output, report, w')
         /\ (report_unhashable report = None ->
             validate Samples.call Samples.py_str (VInt 5) Samples.raiser
               false tt
             = (Ret (output, dedup [] report), w'))).
Proof.
  split; [exact samples_raise_exceptions|].
  destruct (faults_are_caught_at_the_subtree unit Samples.call Samples.py_str
              false samples_raise_exceptions
              (VListOf 0 (VType TInt)) (VInt 5) ".n" [] tt) as (H1 & H2 & _).
  destruct (faults_are_caught_at_the_subtree unit Samples.call Samples.py_str
              false samples_raise_exceptions
              Samples.raiser (VInt 5) ".n" [] tt) as (_ & _ & H3 & H4).
  split; [exact H1|]. split; [|split; [|exact H4]].
  - apply (H2 (not_iterable (VInt 5)) [] tt). reflexivity.
  - apply (H3 4%nat PlainFunction 1 "raiser" 1 "raiser"
              (mkExn "ValueError" true "bad value") tt);
      try reflexivity. left. reflexivity.
Defined.

(** **** C3 *)

Lemma or_keeps_the_last_failure_witness :
  py_eq VNone (VOr 0 [VType TInt; VType TStr]) = false
  /\ sub Samples.call Samples.py_str false
       (VOr 0 [VType TInt; VType TStr]) VNone ".x" [] tt
     = (Ret VNone, [D3 ".x" (VStr "not a str") VNone], tt)
  /\ sub Samples.call Samples.py_str false
       (VOr 0 [VType TInt; VType TFloat; VType TStr]) (VInt 3) ".x" [] tt
     = (Ret (VInt 3), [], tt).
Proof.
  split; [reflexivity|]. split.
  - destruct (or_keeps_the_last_failure unit Samples.call Samples.py_str false
                0%nat [VType TInt; VType TStr] VNone ".x" [] tt eq_refl)
      as [H _].
    apply (H [VType TInt] (VType TStr) VNone
             [D3 ".x" (VStr "not a str") VNone] tt tt).
    + reflexivity.
    + eapply run_choices_cons; [reflexivity | reflexivity | constructor].
    + reflexivity.
    + discriminate.
  - destruct (or_keeps_the_last_failure unit Samples.call Samples.py_str false
                0%nat [VType TInt; VType TFloat; VType TStr] (VInt 3) ".x" []
                tt eq_refl) as [_ H].
    apply (H [] (VType TInt) [VType TFloat; VType TStr] (VInt 3) tt tt).
    + reflexivity.
    + constructor.
    + reflexivity.
Defined.

(** **** C4 *)

(** [And(float, int)] on the int 1: the code gives [int] the value given to
    the node, which passes, and adopts the result of the last choice; the
    chained evaluation of the specification gives [int] the float 1.0, which
    fails. *)
Lemma and_does_not_chain :
  sub Samples.call Samples.py_str false
    (VAnd 0 [VType TFloat; VType TInt]) (VInt 1) "" [] tt
  = (Ret (VInt 1), [], tt)
  /\ spec_and_rule
       (fun c o => sub Samples.call Samples.py_str false c o "")
       [VType TFloat; VType TInt] (VInt 1) [] tt
     = (Ret (VInt 1), [D3 "" (VStr "not a int") (VFloat Samples.f1)], tt).
Proof. split; reflexivity. Qed.

Lemma and_stops_at_the_first_failure_witness :
  py_eq (VInt 1789) (VAnd 7 [VType TInt; Samples.check_year; Samples.raiser])
  = false
  /\ sub Samples.call Samples.py_str false
       (VAnd 7 [VType TInt; Samples.check_year; Samples.raiser]) (VInt 1789)
       ".birth_year" [] tt
     = (Ret (VInt 1789),
        [D3 ".birth_year" (VStr "invalidated by check_year") (VInt 1789)], tt)
  /\ sub Samples.call Samples.py_str false
       (VAnd 7 [VType TFloat; VType TInt]) (VInt 1) "" [] tt
     = (Ret (VInt 1), [], tt).
Proof.
  split; [reflexivity|]. split.
  - destruct (and_stops_at_the_first_failure unit Samples.call Samples.py_str
                false 7%nat [VType TInt; Samples.check_year; Samples.raiser]
                (VInt 1789) ".birth_year" [] tt eq_refl) as [H _].
    apply (H [VType TInt] Samples.check_year [Samples.raiser] (VInt 1789)
             [D3 ".birth_year" (VStr "invalidated by check_year") (VInt 1789)]
             tt tt).
    + reflexivity.
    + eapply run_choices_cons; [reflexivity | reflexivity | constructor].
    + reflexivity.
    + discriminate.
  - destruct (and_stops_at_the_first_failure unit Samples.call Samples.py_str
                false 7%nat [VType TFloat; VType TInt] (VInt 1) "" [] tt
                eq_refl) as [_ H].
    apply (H [VType TFloat] (VType TInt) (VInt 1) tt tt).
    + reflexivity.
    + eapply run_choices_cons; [reflexivity | reflexivity | constructor].
    + reflexivity.
Defined.

(** **** C5 *)

(** [lambda n : ForceValue( n*2 )] on 44: no diagnostic and the output 88;
    validated again, the output is 176. *)
Lemma force_value_is_not_idempotent :
  validate Samples.call Samples.py_str (VInt 44) Samples.doubler false tt
  = (Ret (VInt 88, []), tt)
  /\ validate Samples.call Samples.py_str (VInt 88) Samples.doubler false tt
     = (Ret (VInt 176, []), tt)
  /\ py_eq (VInt 176) (VInt 88) = false.
Proof. split; [|split]; reflexivity. Qed.

(** Without callables: [And(int, float)] on 1 returns the float 1.0, which
    [int] rejects. *)
Example and_is_not_idempotent :
  validate Samples.call Samples.py_str (VInt 1)
    (VAnd 0 [VType TInt; VType TFloat]) false tt
  = (Ret (VFloat Samples.f1, []), tt)
  /\ validate Samples.call Samples.py_str (VFloat Samples.f1)
       (VAnd 0 [VType TInt; VType TFloat]) false tt
     = (Ret (VFloat Samples.f1,
             [D3 "" (VStr "not a int") (VFloat Samples.f1)]), tt).
Proof. split; reflexivity. Qed.

(** [Or([list, ListOf(int)], [ListOf(int), tuple])] on [((1,), (2,))]: the
    second choice returns [[[1], (2,)]], on which the first choice succeeds
    and returns [[[1], [2]]]. *)
Example or_is_not_idempotent :
  let d := VOr 0 [VList [VType TList; VListOf 1 (VType TInt)];
                  VList [VListOf 2 (VType TInt); VType TTuple]] in
  validate Samples.call Samples.py_str
    (VTuple [VTuple [VInt 1]; VTuple [VInt 2]]) d false tt
  = (Ret (VList [VList [VInt 1]; VTuple [VInt 2]], []), tt)
  /\ validate Samples.call Samples.py_str
       (VList [VList [VInt 1]; VTuple [VInt 2]]) d false tt
     = (Ret (VList [VList [VInt 1]; VList [VInt 2]], []), tt)
  /\ py_eq (VList [VList [VInt 1]; VList [VInt 2]])
       (VList [VList [VInt 1]; VTuple [VInt 2]]) = false.
Proof. split; [|split]; reflexivity. Qed.

(** A key named twice, [{Optional('a'): int, 'a': float}], on [{'a': 1}]. *)
Example repeated_key_is_not_idempotent :
  let d := VDict [(VOptional 0 (VStr "a"), VType TInt);
                  (VStr "a", VType TFloat)] in
  validate Samples.call Samples.py_str (VDict [(VStr "a", VInt 1)]) d false tt
  = (Ret (VDict [(VStr "a", VFloat Samples.f1)], []), tt)
  /\ validate Samples.call Samples.py_str
       (VDict [(VStr "a", VFloat Samples.f1)]) d false tt
     = (Ret (VDict [(VStr "a", VFloat Samples.f1)],
             [D3 ".a" (VStr "not a int") (VFloat Samples.f1)]), tt).
Proof. split; reflexivity. Qed.

Lemma validation_is_idempotent_on_plain_schemas_witness :
  plain Samples.scheme = true
  /\ validate Samples.call Samples.py_str Samples.person1 Samples.scheme
       false tt
     = (Ret (VDict [(VStr "name", VStr "Arthur Dent");
                    (VStr "age", VFloat Samples.f42)], []), tt)
  /\ validate Samples.call Samples.py_str
       (VDict [(VStr "name", VStr "Arthur Dent");
               (VStr "age", VFloat Samples.f42)]) Samples.scheme false tt
     = (Ret (VDict [(VStr "name", VStr "Arthur Dent");
                    (VStr "age", VFloat Samples.f42)], []), tt).
Proof.
  split; [reflexivity|]. split; [reflexivity|].
  apply (validation_is_idempotent_on_plain_schemas unit Samples.call
           Samples.py_str Samples.person1 Samples.scheme _ tt tt).
  - reflexivity.
  - reflexivity.
Defined.

(** **** C6 *)

(** 2^53 + 1 is widened to the float 2^53, which is not equal to it; 2^1024
    is not widened at all: [float] raises OverflowError and a diagnostic is
    reported. *)
Lemma widening_loses_large_ints :
  validate Samples.call Samples.py_str (VInt (2 ^ 53 + 1)) (VType TFloat)
    false tt
  = (Ret (VFloat (S754_finite false 4503599627370496 1), []), tt)
  /\ py_eq (VFloat (S754_finite false 4503599627370496 1)) (VInt (2 ^ 53 + 1))
     = false
  /\ py_eq (VFloat (S754_finite false 4503599627370496 1)) (VInt (2 ^ 53))
     = true
  /\ validate Samples.call Samples.py_str (VInt (2 ^ 1024)) (VType TFloat)
       false tt
     = (Ret (VInt (2 ^ 1024), [DFail "" OverflowError]), tt).
Proof. split; [|split; [|split]]; vm_compute; reflexivity. Qed.

Lemma small_int_widens_to_float_witness :
  Z.abs 42 <= 2 ^ 53
  /\ exists f,
      validate Samples.call Samples.py_str (VInt 42) (VType TFloat) false tt
      = (Ret (VFloat f, []), tt)
      /\ type_of (VFloat f) = TFloat
      /\ py_eq (VFloat f) (VInt 42) = true
      /\ py_eq (VInt 42) (VFloat f) = true.
Proof.
  split; [vm_compute; discriminate|].
  apply (small_int_widens_to_float unit Samples.call Samples.py_str false 42 tt).
  vm_compute. discriminate.
Defined.

(** **** C7 *)

Lemma extra_key_is_reported_or_copied_witness :
  "a" <> "b"
  /\ validate Samples.call Samples.py_str
       (VDict [(VStr "a", VInt 42); (VStr "b", VList [VNone])])
       (VDict [(VStr "a", VType TFloat)]) false tt
     = (Ret (VDict [(VStr "a", VFloat Samples.f42)],
             [D3 "" (VStr "extra key") (VStr "b")]), tt)
  /\ validate Samples.call Samples.py_str
       (VDict [(VStr "a", VInt 42); (VStr "b", VList [VNone])])
       (VDict [(VStr "a", VType TFloat)]) true tt
     = (Ret (VDict [(VStr "a", VFloat Samples.f42);
                    (VStr "b", VList [VNone])], []), tt).
Proof.
  split; [discriminate|]. split.
  - apply (extra_key_is_reported_or_copied unit Samples.call Samples.py_str
             false "a" "b" (VInt 42) (VList [VNone]) (VType TFloat)
             (VFloat Samples.f42) _ tt tt).
    + discriminate.
    + left. reflexivity.
    + reflexivity.
  - apply (extra_key_is_reported_or_copied unit Samples.call Samples.py_str
             true "a" "b" (VInt 42) (VList [VNone]) (VType TFloat)
             (VFloat Samples.f42) _ tt tt).
    + discriminate.
    + left. reflexivity.
    + reflexivity.
Defined.

(** **** C8 *)

Lemma sequence_recursion_returns_a_list_witness :
  isList (VTuple [VInt 1; VInt 2]) = Some [VInt 1; VInt 2]
  /\ sub Samples.call Samples.py_str false (VListOf 0 (VType TFloat))
       (VTuple [VInt 1; VInt 2]) "" [] tt
     = (Ret (VList [VFloat Samples.f1;
                    VFloat (S754_finite false 4503599627370496 (-51))]),
        [], tt)
  /\ (exists xs,
         VList [VInt 1; VInt 2] = VList xs
         /\ run_each
              (zip_calls Samples.call Samples.py_str false ""
                 [VType TInt; VType TInt] [VInt 1; VInt 2] 0) [] tt xs [] tt)
  /\ (exists xs r' w',
         sub Samples.call Samples.py_str false
           (VFrozenset [VType TInt; VType TInt])
           (VSet [VInt 1; VInt 2]) "" [] tt
         = (Ret (VList xs), r', w')).
Proof.
  split; [reflexivity|]. split; [|split].
  - destruct (sequence_recursion_returns_a_list unit Samples.call
                Samples.py_str false
                (VListOf 0 (VType TFloat)) (VTuple [VInt 1; VInt 2])
                [VInt 1; VInt 2] "" _ [] tt eq_refl eq_refl eq_refl)
      as (H & _ & _).
    apply H.
    eapply run_each_cons; [reflexivity|].
    eapply run_each_cons; [reflexivity|]. constructor.
  - destruct (sequence_recursion_returns_a_list unit Samples.call
                Samples.py_str false
                (VFrozenset [VType TInt; VType TInt])
                (VTuple [VInt 1; VInt 2])
                [VInt 1; VInt 2] "" _ [] tt eq_refl eq_refl eq_refl)
      as (_ & H & _).
    apply H. reflexivity.
  - destruct (sequence_recursion_returns_a_list unit Samples.call
                Samples.py_str false
                (VFrozenset [VType TInt; VType TInt])
                (VSet [VInt 1; VInt 2])
                [VInt 1; VInt 2] "" _ [] tt eq_refl eq_refl eq_refl)
      as (_ & _ & H).
    exact (H samples_raise_exceptions).
Defined.

(** **** C10 *)

Lemma equal_value_is_accepted_unchanged_witness :
  py_eq (VFloat Samples.f1) (VInt 1) = true
  /\ validate Samples.call Samples.py_str (VFloat Samples.f1) (VInt 1) false tt
     = (Ret (VFloat Samples.f1, []), tt).
Proof.
  split; [reflexivity|].
  apply (equal_value_is_accepted_unchanged unit Samples.call Samples.py_str
           false (VFloat Samples.f1) (VInt 1) tt).
  reflexivity.
Defined.

Example true_is_accepted_against_one :
  validate Samples.call Samples.py_str (VBool true) (VInt 1) false tt
  = (Ret (VBool true, []), tt).
Proof. reflexivity. Qed.

(* ================================================================== *)
(** ** Further properties of the engine: the branches one by one *)

Section Frame.

Variable W : Type.

Lemma framed_ret A (a : A) : framed (ret (W:=W) a).
Proof. intros r w. cbn. now rewrite app_nil_r. Qed.

Lemma framed_raise A (e : exn) : framed (raise (W:=W) (A:=A) e).
Proof. intros r w. cbn. now rewrite app_nil_r. Qed.

Lemma framed_append (d : diag) : framed (append (W:=W) d).
Proof. intros r w. reflexivity. Qed.

Lemma framed_extend (ds : list diag) : framed (extend (W:=W) ds).
Proof. intros r w. reflexivity. Qed.

Lemma framed_bind A B (m : M W A) (k : A -> M W B) :
  framed m -> (forall a, framed (k a)) -> framed (bind m k).
Proof.
  intros Hm Hk r w. unfold bind. rewrite (Hm r w).
  destruct (m [] w) as [[[a|e] ds] w1]; [|reflexivity].
  rewrite (Hk a (r ++ ds)%list w1), (Hk a ds w1).
  destruct (k a [] w1) as [[o ds'] w2]. now rewrite app_assoc.
Qed.

Lemma framed_try_except A (m : M W A) (h : exn -> M W A) :
  framed m -> (forall e, framed (h e)) -> framed (try_except m h).
Proof.
  intros Hm Hh r w. unfold try_except. rewrite (Hm r w).
  destruct (m [] w) as [[[a|e] ds] w1]; [reflexivity|].
  destruct (exn_is_exception e); [|reflexivity].
  rewrite (Hh e (r ++ ds)%list w1), (Hh e ds w1).
  destruct (h e [] w1) as [[o ds'] w2]. now rewrite app_assoc.
Qed.

Lemma framed_fresh A (m : M W A) : framed (fresh m).
Proof.
  intros r w. unfold fresh.
  destruct (m [] w) as [[[a|e] r2] w1]; now rewrite app_nil_r.
Qed.

Lemma framed_invoke call (id : nat) (args : list value) :
  framed (invoke (W:=W) call id args).
Proof.
  intros r w. unfold invoke. destruct (call id args w).
  now rewrite app_nil_r.
Qed.

End Frame.

Section Branches.

Variable W : Type.
Variable call : nat -> list value -> W -> outcome value * W.
Variable py_str : value -> string.
Variable ignore_extra_keys : bool.

Local Abbreviation sub' := (sub call py_str ignore_extra_keys).
Local Abbreviation sub_try' := (sub_try call py_str ignore_extra_keys).

(** X1. What [sub] returns and what it appends to [report] do not depend
    on what [report] already holds: matching with a report [r] gives the
    result of matching with an empty report, its diagnostics appended to
    [r]. In particular [sub] never removes or reorders earlier
    diagnostics. *)
Theorem sub_appends_independently (exp obj : value) (path : string)
  (r : list diag) (w : W) :
  sub' exp obj path r w
  = let '(o, ds, w') := sub' exp obj path [] w in (o, (r ++ ds)%list, w').
Proof.
  revert r w.
  apply (sub_preserves W call py_str ignore_extra_keys
           (fun A => @framed W A)).
  - apply framed_ret.
  - apply framed_bind.
  - intros; apply framed_fresh.
  - apply framed_append.
  - apply framed_extend.
  - intros; apply framed_raise.
  - apply framed_try_except.
  - apply framed_invoke.
Qed.

(** *** Equality with a container or a type *)

Lemma py_eq_not_a_list (obj exp : value) (es : list value) :
  isList exp = Some es -> isList obj = None -> py_eq obj exp = false.
Proof.
  destruct exp; try discriminate; intros _;
    destruct obj; try discriminate; intros _; try reflexivity;
    cbn; match goal with
         | |- context [number_of ?x] => reflexivity
         | _ => idtac
         end.
Qed.

Lemma all2_length (xs ys : list value) :
  (fix all2 (xs ys : list value) : bool :=
     match xs, ys with
     | [], [] => true
     | x :: xs', y :: ys' => py_eq x y && all2 xs' ys'
     | _, _ => false
     end) xs ys = true ->
  List.length xs = List.length ys.
Proof.
  revert ys. induction xs as [|x xs IH]; intros [|y ys] H;
    try discriminate; [reflexivity|].
  apply andb_prop in H as [_ H]. cbn. f_equal. now apply IH.
Qed.

Lemma py_eq_lists_length (obj exp : value) (os es : list value) :
  isList obj = Some os -> isList exp = Some es ->
  py_eq obj exp = true -> List.length os = List.length es.
Proof.
  intros Ho He H.
  destruct obj; try discriminate; injection Ho as ->;
    destruct exp; try discriminate; injection He as ->;
    cbn in H; try discriminate;
    try (now apply all2_length);
    apply andb_prop in H as [H _]; now apply Nat.eqb_eq in H.
Qed.

(** *** The combinators without choices *)

(** X2. An [Or] or [And] node without choices, matched against any value
    but the node itself, appends the pair [(path, 'empty choice')], returns
    the value unchanged and leaves the context as it was. *)
Theorem empty_choice_is_reported (id : nat) (obj : value) (path : string)
  (r : list diag) (w : W) :
  (py_eq obj (VOr id []) = false ->
   sub' (VOr id []) obj path r w
   = (Ret obj, (r ++ [D2 path (VStr "empty choice")])%list, w))
  /\ (py_eq obj (VAnd id []) = false ->
      sub' (VAnd id []) obj path r w
      = (Ret obj, (r ++ [D2 path (VStr "empty choice")])%list, w)).
Proof.
  split; intros H; rewrite sub_unfold; unfold try_except, sub_try;
    rewrite H; reflexivity.
Qed.

(** *** Sequences of descriptors *)

(** X3. A sequence of descriptors (list, tuple, set or frozenset) against
    a value that is no sequence appends [(path, 'array expected', value)];
    against a sequence of another length it appends
    [(path, 'length is <n> but should be <m>', value)]. In both cases the
    value is returned unchanged, no element is examined and no callable is
    invoked: the context is untouched. *)
Theorem fixed_sequence_mismatch (exp obj : value) (es : list value)
  (path : string) (r : list diag) (w : W) :
  isList exp = Some es ->
  (isList obj = None ->
   sub' exp obj path r w
   = (Ret obj, (r ++ [D3 path (VStr "array expected") obj])%list, w))
  /\ (forall os,
         isList obj = Some os ->
         List.length os <> List.length es ->
         sub' exp obj path r w
         = (Ret obj,
            (r ++ [D3 path
                     (VStr ("length is " ++ string_of_nat (List.length os)
                            ++ " but should be "
                            ++ string_of_nat (List.length es))) obj])%list,
            w)).
Proof.
  intros Hes. split.
  - intros Hobj. rewrite sub_unfold. unfold try_except, sub_try.
    rewrite (py_eq_not_a_list obj exp es Hes Hobj).
    destruct exp; try discriminate; rewrite Hobj; reflexivity.
  - intros os Hos Hlen. rewrite sub_unfold. unfold try_except, sub_try.
    assert (Heq : py_eq obj exp = false).
    { destruct (py_eq obj exp) eqn:E; [|reflexivity].
      exfalso. apply Hlen. eapply py_eq_lists_length; eassumption. }
    rewrite Heq.
    assert (Hne : Nat.eqb (List.length es) (List.length os) = false).
    { apply Nat.eqb_neq. congruence. }
    destruct exp; try discriminate; injection Hes as ->;
      rewrite Hos, Hne; reflexivity.
Qed.

(** *** Mappings *)



(** *** Callable checkers *)

Lemma sub_callable (id : nat) (kind : callable_kind) (argc : Z)
  (name : string) (obj : value) (path : string) (r : list diag) (w : W) :
  py_eq obj (VFunc id kind argc name) = false ->
  sub' (VFunc id kind argc name) obj path r w
  = match funcInfo kind argc name with
    | None => (Ret obj, (r ++ [DFail path RecursionError])%list, w)
    | Some (nb, nm) =>
        if negb (Z.eqb nb 1 || Z.eqb nb 2) then
          (Ret obj,
           (r ++ [D2 path (VStr (nm ++ " should take 1 or 2 parameters"))])%list,
           w)
        else
          match call id (if Z.eqb nb 1 then [obj] else [VStr path; obj]) w with
          | (Ret (VForceValue _ v), w1) => (Ret v, r, w1)
          | (Ret (VError _ message), w1) =>
              (Ret obj, (r ++ [D3 path message obj])%list, w1)
          | (Ret x, w1) =>
              if truthy x then (Ret obj, r, w1)
              else (Ret obj,
                    (r ++ [D3 path (VStr ("invalidated by " ++ nm)) obj])%list,
                    w1)
          | (Raise e, w1) =>
              if exn_is_exception e
              then (Ret obj,
                    (r ++ [D2 path
                             (VStr (nm ++ " call raised " ++ exn_str e))])%list,
                    w1)
              else (Raise e, r, w1)
          end
    end.
Proof.
  intros Heq. rewrite sub_unfold. unfold try_except at 1. unfold sub_try.
  rewrite Heq. destruct (funcInfo kind argc name) as [[nb nm]|];
    [|reflexivity].
  destruct (negb (Z.eqb nb 1 || Z.eqb nb 2)); [reflexivity|].
  unfold bind, try_except, invoke, ret, append.
  destruct (call id _ w) as [[x|e] w1].
  - destruct x; try reflexivity; cbn; try reflexivity;
      match goal with
      | |- context [if ?b then _ else _] => destruct b; reflexivity
      end.
  - destruct (exn_is_exception e) eqn:E; [reflexivity|].
    now rewrite E.
Qed.

(** X5. A callable whose arity, as [funcInfo] reads it, is neither 1 nor 2
    is never invoked: whatever it would do, [sub] appends the pair
    [(path, '<name> should take 1 or 2 parameters')], returns the value
    unchanged and leaves the context untouched. The arity of a bound
    method or of an object with [__call__] does not count [self]. A
    callable without code object ends the introspection in a
    RecursionError, reported as a ['failure']. *)
Theorem wrong_arity_is_not_invoked (id : nat) (kind : callable_kind)
  (argc : Z) (name : string) (obj : value) (path : string)
  (r : list diag) (w : W) :
  py_eq obj (VFunc id kind argc name) = false ->
  let arity := match kind with
               | PlainFunction => argc
               | _ => argc - 1
               end in
  (kind <> Builtin -> arity <> 1 -> arity <> 2 ->
   sub' (VFunc id kind argc name) obj path r w
   = (Ret obj,
      (r ++ [D2 path (VStr (name ++ " should take 1 or 2 parameters"))])%list,
      w))
  /\ (kind = Builtin ->
      sub' (VFunc id kind argc name) obj path r w
      = (Ret obj, (r ++ [DFail path RecursionError])%list, w)).
Proof.
  intros Heq arity. split.
  - intros Hk H1 H2. rewrite sub_callable by exact Heq.
    assert (Hinfo : funcInfo kind argc name = Some (arity, name))
      by (destruct kind; try reflexivity; now destruct Hk).
    rewrite Hinfo.
    replace (negb (Z.eqb arity 1 || Z.eqb arity 2)) with true; [reflexivity|].
    symmetry. apply negb_true_iff, orb_false_iff.
    split; apply Z.eqb_neq; assumption.
  - intros ->. rewrite sub_callable by exact Heq. reflexivity.
Qed.

(** X6. A checker of arity 1 is called on the value, one of arity 2 on
    the path and the value. When it returns [ForceValue(v)], [sub] returns
    [v], whatever the value was, and appends nothing; when it returns
    [Error(message)], [sub] appends [(path, message, value)] and returns
    the value unchanged. The context is the one the checker left. *)
Theorem checker_overrides (id : nat) (kind : callable_kind) (argc : Z)
  (name nm : string) (nb : Z) (obj res : value) (path : string)
  (r : list diag) (w w1 : W) :
  py_eq obj (VFunc id kind argc name) = false ->
  funcInfo kind argc name = Some (nb, nm) ->
  nb = 1 \/ nb = 2 ->
  call id (if Z.eqb nb 1 then [obj] else [VStr path; obj]) w = (Ret res, w1) ->
  (forall i v, res = VForceValue i v ->
               sub' (VFunc id kind argc name) obj path r w = (Ret v, r, w1))
  /\ (forall i message,
         res = VError i message ->
         sub' (VFunc id kind argc name) obj path r w
         = (Ret obj, (r ++ [D3 path message obj])%list, w1)).
Proof.
  intros Heq Hinfo Hnb Hcall.
  assert (Hneg : negb (Z.eqb nb 1 || Z.eqb nb 2) = false)
    by (destruct Hnb as [-> | ->]; reflexivity).
  split; intros i v ->; rewrite sub_callable by exact Heq;
    rewrite Hinfo, Hneg, Hcall; reflexivity.
Qed.

(** X7. When the checker returns anything but a [ForceValue] or an
    [Error], only its truth value counts: a true result accepts the value
    silently, a false one (None, False, 0, 0.0, an empty str or container)
    appends [(path, 'invalidated by <name>', value)]. Either way the value
    is returned unchanged: what the checker returned is dropped. *)
Theorem checker_verdict (id : nat) (kind : callable_kind) (argc : Z)
  (name nm : string) (nb : Z) (obj res : value) (path : string)
  (r : list diag) (w w1 : W) :
  py_eq obj (VFunc id kind argc name) = false ->
  funcInfo kind argc name = Some (nb, nm) ->
  nb = 1 \/ nb = 2 ->
  call id (if Z.eqb nb 1 then [obj] else [VStr path; obj]) w = (Ret res, w1) ->
  type_of res <> TForceValue ->
  type_of res <> TError ->
  sub' (VFunc id kind argc name) obj path r w
  = if truthy res then (Ret obj, r, w1)
    else (Ret obj,
          (r ++ [D3 path (VStr ("invalidated by " ++ nm)) obj])%list, w1).
Proof.
  intros Heq Hinfo Hnb Hcall Hf He.
  assert (Hneg : negb (Z.eqb nb 1 || Z.eqb nb 2) = false)
    by (destruct Hnb as [-> | ->]; reflexivity).
  rewrite sub_callable by exact Heq. rewrite Hinfo, Hneg, Hcall.
  destruct res; try reflexivity; cbn in Hf, He; congruence.
Qed.

(** *** Type markers *)

Lemma pytype_eqb_eq (a b : pytype) : pytype_eqb a b = true <-> a = b.
Proof.
  split.
  - destruct a, b; try discriminate; try reflexivity.
    cbn. intros H. apply String.eqb_eq in H. now subst.
  - intros <-. destruct a; try reflexivity. cbn. apply String.eqb_refl.
Qed.


(** *** When [validate] raises *)

Lemma first_unhashable_not_scalar (obj u : value) :
  first_unhashable obj = Some u ->
  int_of obj = None /\ is_str obj = false
  /\ forall t, py_eq obj (VType t) = false.
Proof.
  destruct obj; try discriminate; intros _; repeat split.
Qed.

(** X9. Whenever a value that cannot be hashed (a list, a set, a dict, or
    a tuple that holds one) is checked at the top level against a type
    marker of another type, the diagnostic carries that value and
    [set(report)] fails: [validate] raises TypeError instead of returning
    the diagnostic. *)
Theorem unhashable_mismatch_raises (obj u : value) (t : pytype) (w : W) :
  first_unhashable obj = Some u ->
  t <> type_of obj ->
  validate call py_str obj (VType t) ignore_extra_keys w
  = (Raise (unhashable u), w).
Proof.
  intros Hu Ht.
  destruct (first_unhashable_not_scalar obj u Hu) as (Hint & Hstr & Heq).
  unfold validate. rewrite sub_type_marker by apply Heq.
  rewrite Hint, Hstr.
  replace (if pytype_eqb t TFloat then None else None) with (@None Z)
    by (destruct (pytype_eqb t TFloat); reflexivity).
  assert (Hne : pytype_eqb t (type_of obj) = false).
  { destruct (pytype_eqb t (type_of obj)) eqn:E; [|reflexivity].
    apply pytype_eqb_eq in E. contradiction. }
  rewrite Hne. cbn [negb].
  destruct (pytype_eqb t TStr); unfold set_of_report; cbn; rewrite Hu;
    reflexivity.
Qed.

End Branches.

(* ================================================================== *)
(** ** Further properties of the engine: what every diagnostic satisfies *)

Section Appends.

Variable W : Type.

Lemma appends_ret A (ok : diag -> Prop) (Q : A -> Prop) (a : A) :
  Q a -> appends ok Q (ret (W:=W) a).
Proof.
  intros HQ r w o r' w' [= <- <- <-]. split.
  - exists []. split; [now rewrite app_nil_r | constructor].
  - now intros a' [= <-].
Qed.

Lemma appends_raise A (ok : diag -> Prop) (Q : A -> Prop) (e : exn) :
  appends ok Q (raise (W:=W) (A:=A) e).
Proof.
  intros r w o r' w' [= <- <- <-]. split.
  - exists []. split; [now rewrite app_nil_r | constructor].
  - discriminate.
Qed.

Lemma appends_append (ok : diag -> Prop) (Q : unit -> Prop) (d : diag) :
  ok d -> Q tt -> appends ok Q (append (W:=W) d).
Proof.
  intros Hd HQ r w o r' w' [= <- <- <-]. split.
  - exists [d]. split; [reflexivity | now constructor].
  - now intros [] _.
Qed.

Lemma appends_extend (ok : diag -> Prop) (Q : unit -> Prop)
  (ds : list diag) :
  Forall ok ds -> Q tt -> appends ok Q (extend (W:=W) ds).
Proof.
  intros Hd HQ r w o r' w' [= <- <- <-]. split.
  - now exists ds.
  - now intros [] _.
Qed.

Lemma appends_bind A B (ok : diag -> Prop) (Q1 : A -> Prop)
  (Q2 : B -> Prop) (m : M W A) (k : A -> M W B) :
  appends ok Q1 m -> (forall a, Q1 a -> appends ok Q2 (k a)) ->
  appends ok Q2 (bind m k).
Proof.
  intros Hm Hk r w o r' w'. unfold bind.
  destruct (m r w) as [[[a|e] r1] w1] eqn:E.
  - intros H. destruct (Hm _ _ _ _ _ E) as [(ds1 & -> & Hds1) Ha].
    destruct (Hk a (Ha a eq_refl) _ _ _ _ _ H) as [(ds2 & -> & Hds2) Hb].
    split; [|exact Hb].
    exists (ds1 ++ ds2)%list. split; [now rewrite app_assoc|].
    now apply Forall_app.
  - intros [= <- <- <-]. destruct (Hm _ _ _ _ _ E) as [Hds _].
    split; [exact Hds | discriminate].
Qed.

Lemma appends_try_except A (ok : diag -> Prop) (Q : A -> Prop)
  (m : M W A) (h : exn -> M W A) :
  appends ok Q m -> (forall e, appends ok Q (h e)) ->
  appends ok Q (try_except m h).
Proof.
  intros Hm Hh r w o r' w'. unfold try_except.
  destruct (m r w) as [[[a|e] r1] w1] eqn:E.
  - intros [= <- <- <-]. exact (Hm _ _ _ _ _ E).
  - destruct (Hm _ _ _ _ _ E) as [(ds1 & -> & Hds1) _].
    destruct (exn_is_exception e).
    + intros H. destruct (Hh e _ _ _ _ _ H) as [(ds2 & -> & Hds2) Hb].
      split; [|exact Hb].
      exists (ds1 ++ ds2)%list. split; [now rewrite app_assoc|].
      now apply Forall_app.
    + intros [= <- <- <-]. split; [now exists ds1 | discriminate].
Qed.

(** What ran on a fresh report hands its diagnostics back as a value. *)
Lemma appends_fresh A (ok ok' : diag -> Prop) (Q : A -> Prop) (m : M W A) :
  appends ok Q m ->
  appends ok' (fun ar => Q (fst ar) /\ Forall ok (snd ar)) (fresh m).
Proof.
  intros Hm r w o r' w'. unfold fresh.
  destruct (m [] w) as [[[a|e] r2] w1] eqn:E; intros [= <- <- <-].
  - destruct (Hm _ _ _ _ _ E) as [(ds & Hr2 & Hds) Ha]. cbn in Hr2. subst.
    split.
    + exists []. split; [now rewrite app_nil_r | constructor].
    + intros ar [= <-]. split; [now apply Ha | exact Hds].
  - split; [|discriminate].
    exists []. split; [now rewrite app_nil_r | constructor].
Qed.

Lemma appends_invoke (ok : diag -> Prop) call (id : nat)
  (args : list value) :
  appends ok (fun _ => True) (invoke (W:=W) call id args).
Proof.
  intros r w o r' w'. unfold invoke. destruct (call id args w).
  intros [= <- <- <-]. split; [|trivial].
  exists []. split; [now rewrite app_nil_r | constructor].
Qed.

Lemma appends_weaken A (ok ok' : diag -> Prop) (Q Q' : A -> Prop)
  (m : M W A) :
  (forall d, ok d -> ok' d) -> (forall a, Q a -> Q' a) ->
  appends ok Q m -> appends ok' Q' m.
Proof.
  intros Hok HQ Hm r w o r' w' E.
  destruct (Hm _ _ _ _ _ E) as [(ds & -> & Hds) Ha]. split.
  - exists ds. split; [reflexivity|].
    eapply Forall_impl; [|exact Hds]. exact Hok.
  - intros a Ho. apply HQ, Ha, Ho.
Qed.

(** *** The loops *)

Lemma or_loop_appends (ok ok' : diag -> Prop) f cs last :
  (forall c, In c cs -> appends ok (fun _ => True) (f c)) ->
  Forall ok (snd last) ->
  appends ok' (fun r : value * list diag => Forall ok (snd r))
    (or_loop (W:=W) f cs last).
Proof.
  revert last. induction cs as [|c cs IH]; intros last Hf Hlast.
  - now apply appends_ret.
  - cbn [or_loop].
    eapply appends_bind.
    + apply appends_fresh with (ok := ok). apply Hf. now left.
    + intros r [_ Hr]. destruct (nonempty (snd r)).
      * apply IH; [|exact Hr]. intros c' Hc'. apply Hf. now right.
      * now apply appends_ret.
Qed.

Lemma and_loop_appends (ok ok' : diag -> Prop) f cs last :
  (forall c, In c cs -> appends ok (fun _ => True) (f c)) ->
  Forall ok (snd last) ->
  appends ok' (fun r : value * list diag => Forall ok (snd r))
    (and_loop (W:=W) f cs last).
Proof.
  revert last. induction cs as [|c cs IH]; intros last Hf Hlast.
  - now apply appends_ret.
  - cbn [and_loop].
    eapply appends_bind.
    + apply appends_fresh with (ok := ok). apply Hf. now left.
    + intros r [_ Hr]. destruct (nonempty (snd r)).
      * now apply appends_ret.
      * apply IH; [|exact Hr]. intros c' Hc'. apply Hf. now right.
Qed.

Lemma zip_loop_appends (ok : diag -> Prop) f es :
  forall os i,
    (forall j e o,
        nth_error es j = Some e -> nth_error os j = Some o ->
        appends ok (fun _ => True) (f e o (i + j)%nat)) ->
    appends ok (fun _ => True) (zip_loop (W:=W) f es os i).
Proof.
  induction es as [|e es IH]; intros os i Hf.
  - now apply appends_ret.
  - destruct os as [|o os]; [now apply appends_ret|].
    cbn [zip_loop]. eapply appends_bind.
    + specialize (Hf 0%nat e o eq_refl eq_refl).
      rewrite Nat.add_0_r in Hf. exact Hf.
    + intros x _. eapply appends_bind.
      * apply IH. intros j e' o' He' Ho'.
        specialize (Hf (S j) e' o' He' Ho').
        now rewrite Nat.add_succ_r in Hf.
      * intros xs _. now apply appends_ret.
Qed.

Lemma each_loop_appends (ok : diag -> Prop) f os :
  forall i,
    (forall j o, nth_error os j = Some o ->
                 appends ok (fun _ => True) (f o (i + j)%nat)) ->
    appends ok (fun _ => True) (each_loop (W:=W) f os i).
Proof.
  induction os as [|o os IH]; intros i Hf.
  - now apply appends_ret.
  - cbn [each_loop]. eapply appends_bind.
    + specialize (Hf 0%nat o eq_refl). rewrite Nat.add_0_r in Hf. exact Hf.
    + intros x _. eapply appends_bind.
      * apply IH. intros j o' Ho'.
        specialize (Hf (S j) o' Ho'). now rewrite Nat.add_succ_r in Hf.
      * intros xs _. now apply appends_ret.
Qed.

Lemma fields_loop_appends (ok : diag -> Prop) f path items fields :
  (forall expk expv k v,
      In (expk, expv) fields ->
      field_key expk = VStr k ->
      dict_get (VStr k) items = Some v ->
      appends ok (fun _ => True) (f expv v (key_path path k))) ->
  (forall expk expv,
      In (expk, expv) fields ->
      dict_get (field_key expk) items = None ->
      ok (D3 path (VStr "not found") (field_key expk))) ->
  forall keys obj2,
    appends ok (fun _ => True)
      (fields_loop (W:=W) f path items fields keys obj2).
Proof.
  induction fields as [|[expk expv] fields IH]; intros Hf Hnf keys obj2.
  - now apply appends_ret.
  - cbn [fields_loop].
    assert (IH' : forall keys obj2,
               appends ok (fun _ => True)
                 (fields_loop f path items fields keys obj2)).
    { apply IH.
      - intros expk' expv' k v Hin Hk Hg.
        apply (Hf expk' expv' k v); [now right | exact Hk | exact Hg].
      - intros expk' expv' Hin Hg.
        apply (Hnf expk' expv'); [now right | exact Hg]. }
    pose proof (Hf expk expv) as Hf0. pose proof (Hnf expk expv) as Hnf0.
    unfold field_key in Hf0, Hnf0.
    destruct (field_entry expk) as [key mandatory]. cbn [fst] in Hf0, Hnf0.
    destruct (first_unhashable key); [apply appends_raise|].
    destruct (dict_get key items) as [v|] eqn:Eget.
    + destruct key; try apply appends_raise.
      eapply appends_bind.
      * apply (Hf0 s v); [now left | reflexivity | exact Eget].
      * intros x _. apply IH'.
    + eapply appends_bind with (Q1 := fun _ => True).
      * destruct mandatory.
        -- apply appends_append; [|trivial].
           apply Hnf0; [now left | reflexivity].
        -- now apply appends_ret.
      * intros _ _. apply IH'.
Qed.

End Appends.

(** A property [ok] of diagnostics holds of everything [sub] appends, as soon
    as it holds of the diagnostics a node appends for itself and a condition
    [inv] on the call, assumed at the root, passes from a node to the calls it
    makes. *)
Section DiagnosticInvariant.

Variable W : Type.
Variable call : nat -> list value -> W -> outcome value * W.
Variable py_str : value -> string.
Variable ignore_extra_keys : bool.

Local Abbreviation sub' := (sub call py_str ignore_extra_keys).

Variable ok : diag -> Prop.
Variable inv : value -> value -> string -> Prop.

Hypothesis ok_pair : forall exp obj path m,
    inv exp obj path -> ok (D2 path m).
Hypothesis ok_failure : forall exp obj path e,
    inv exp obj path -> ok (DFail path e).
Hypothesis ok_value : forall exp obj path m,
    inv exp obj path -> ok (D3 path m obj).
Hypothesis ok_not_found : forall fields items path key,
    inv (VDict fields) (VDict items) path ->
    dict_get key items = None ->
    ok (D3 path (VStr "not found") key).
Hypothesis ok_extra_key : forall fields items path key,
    inv (VDict fields) (VDict items) path ->
    In key (map fst items) ->
    ok (D3 path (VStr "extra key") key).
Hypothesis inv_or : forall id cs obj path c,
    inv (VOr id cs) obj path -> In c cs -> inv c obj path.
Hypothesis inv_and : forall id cs obj path c,
    inv (VAnd id cs) obj path -> In c cs -> inv c obj path.
Hypothesis inv_zip : forall exp obj path es os j e o,
    inv exp obj path ->
    isList exp = Some es -> isList obj = Some os ->
    List.length es = List.length os ->
    nth_error es j = Some e -> nth_error os j = Some o ->
    inv e o (index_path path j).
Hypothesis inv_each : forall id check obj path os j o,
    inv (VListOf id check) obj path ->
    py_iter obj = Some os -> nth_error os j = Some o ->
    inv check o (index_path path j).
Hypothesis inv_field : forall fields items path expk expv k v,
    inv (VDict fields) (VDict items) path ->
    In (expk, expv) fields ->
    field_key expk = VStr k ->
    dict_get (VStr k) items = Some v ->
    inv expv v (key_path path k).

Ltac astep :=
  repeat match goal with
    | |- appends _ _ (ret _) => apply appends_ret; trivial
    | |- appends _ _ (raise _) => apply appends_raise
    | |- appends _ _ (append _) => apply appends_append; [eauto | trivial]
    | |- appends _ _ (invoke _ _ _) => apply appends_invoke
    | |- appends _ _ (bind _ _) =>
        apply appends_bind with (Q1 := fun _ => True); [|intros ? _]
    | |- appends _ _ (try_except _ _) =>
        apply appends_try_except; [|intros]
    | |- appends _ _ (if ?b then _ else _) => destruct b
    | |- appends _ _ (let '(_, _) := ?x in _) => destruct x
    | |- appends _ _ (match ?x with _ => _ end) => destruct x
    end.

Lemma fixed_sequence_invariant (exp : value) (es : list value) :
  isList exp = Some es ->
  Forall (fun e => forall obj path,
              inv e obj path ->
              appends ok (fun _ => True) (sub' e obj path)) es ->
  forall obj path,
    inv exp obj path -> appends ok (fun _ => True) (sub' exp obj path).
Proof.
  intros Hes IH obj path Hinv. rewrite sub_unfold.
  apply appends_try_except; [|intros; astep].
  assert (Hbody :
            sub_try call py_str ignore_extra_keys sub' exp obj path
            = if py_eq obj exp then ret obj else
                match isList obj with
                | None =>
                    bind (append (D3 path (VStr "array expected") obj))
                      (fun _ => ret obj)
                | Some os =>
                    if negb (Nat.eqb (List.length es) (List.length os)) then
                      bind (append
                              (D3 path
                                 (VStr ("length is "
                                        ++ string_of_nat (List.length os)
                                        ++ " but should be "
                                        ++ string_of_nat (List.length es)))
                                 obj))
                        (fun _ => ret obj)
                    else
                      bind (zip_loop
                              (fun e o i => sub' e o (index_path path i))
                              es os 0%nat)
                        (fun xs => ret (VList xs))
                end).
  { unfold sub_try. destruct (py_eq obj exp); [reflexivity|].
    destruct exp; try discriminate; injection Hes as ->; reflexivity. }
  rewrite Hbody. destruct (py_eq obj exp); [astep|].
  destruct (isList obj) as [os|] eqn:Hos; [|astep].
  destruct (Nat.eqb (List.length es) (List.length os)) eqn:Hlen;
    cbn [negb]; [|astep].
  apply Nat.eqb_eq in Hlen.
  apply appends_bind with (Q1 := fun _ => True); [|intros; astep].
  apply zip_loop_appends. intros j e o He Ho. cbn [Nat.add].
  rewrite Forall_forall in IH. apply IH.
  - eapply nth_error_In, He.
  - eapply inv_zip; eassumption.
Qed.

Lemma sub_invariant (exp : value) :
  forall obj path,
    inv exp obj path -> appends ok (fun _ => True) (sub' exp obj path).
Proof.
  induction exp as
    [ | | | | | es IH | es IH | es IH | es IH | fields IH | t | id cs IH
    | id cs IH | id c IH | | | | ] using value_ind_nested;
    try (eapply fixed_sequence_invariant; [reflexivity | exact IH]);
    intros obj path Hinv; rewrite sub_unfold;
    (apply appends_try_except; [|intros; astep]);
    unfold sub_try; (destruct (py_eq obj _); [astep|]).
  1-5: astep.
  - (* a mapping *)
    destruct obj; astep.
    + apply fields_loop_appends.
      * intros expk expv k v Hin Hk Hget.
        rewrite Forall_forall in IH.
        apply (proj2 (IH (expk, expv) Hin)).
        eapply inv_field; eassumption.
      * intros expk expv Hin Hget. eapply ok_not_found; eassumption.
    + apply appends_extend; [|trivial].
      apply Forall_forall. intros d Hd.
      apply in_map_iff in Hd as (key & <- & Hkey).
      eapply ok_extra_key; [exact Hinv|].
      unfold extra_keys in Hkey. apply filter_In in Hkey. tauto.
  - (* a type marker *)
    astep.
  - (* Or *)
    destruct cs as [|c cs]; [astep|].
    apply appends_bind
      with (Q1 := fun r : value * list diag => Forall ok (snd r)).
    + apply or_loop_appends with (ok := ok); [|constructor].
      intros c' Hc'. rewrite Forall_forall in IH. apply IH; [exact Hc'|].
      eapply inv_or; eassumption.
    + intros [obj2 report2] Hr. cbn [snd] in Hr.
      destruct (nonempty report2); [|astep].
      apply appends_bind with (Q1 := fun _ => True); [|intros; astep].
      now apply appends_extend.
  - (* And *)
    destruct cs as [|c cs]; [astep|].
    apply appends_bind
      with (Q1 := fun r : value * list diag => Forall ok (snd r)).
    + apply and_loop_appends with (ok := ok); [|constructor].
      intros c' Hc'. rewrite Forall_forall in IH. apply IH; [exact Hc'|].
      eapply inv_and; eassumption.
    + intros [obj2 report2] Hr. cbn [snd] in Hr.
      destruct (nonempty report2); [|astep].
      apply appends_bind with (Q1 := fun _ => True); [|intros; astep].
      now apply appends_extend.
  - (* ListOf *)
    destruct (py_iter obj) as [os|] eqn:Hos; [|astep].
    apply appends_bind with (Q1 := fun _ => True); [|intros; astep].
    apply each_loop_appends. intros j o Ho. cbn [Nat.add].
    apply IH. eapply inv_each; eassumption.
  - astep.
  - astep.
  - astep.
  - (* a callable *)
    astep.
Qed.

End DiagnosticInvariant.

(* ================================================================== *)
(** ** Further properties of the engine: paths and mappings *)

Lemma prefix_refl (p : string) : String.prefix p p = true.
Proof.
  induction p as [|a p IH]; [reflexivity|].
  cbn. destruct (ascii_dec a a); [exact IH | congruence].
Qed.

Lemma prefix_app (p q s : string) :
  String.prefix p q = true -> String.prefix p (q ++ s) = true.
Proof.
  revert q. induction p as [|a p IH]; intros q H;
    [destruct (q ++ s); reflexivity|].
  destruct q as [|b q]; [discriminate|].
  cbn in *. destruct (ascii_dec a b); [now apply IH | discriminate].
Qed.

Section Paths.

Variable W : Type.
Variable call : nat -> list value -> W -> outcome value * W.
Variable py_str : value -> string.
Variable ignore_extra_keys : bool.

Local Abbreviation sub' := (sub call py_str ignore_extra_keys).
Local Abbreviation sub_try' := (sub_try call py_str ignore_extra_keys).

(** X10. Every diagnostic that matching a subtree at [path] produces,
    whatever the schema, the value and the callables, carries a path that
    starts with [path]: the diagnostics of a subtree are found under the
    path of that subtree, and those of [validate] under [''] by the
    suffixes ['.key'] and ['[index]'] only. *)
Theorem diagnostics_lie_under_the_path (exp obj : value) (path : string)
  (w : W) :
  let '(_, ds, _) := sub' exp obj path [] w in
  Forall (fun d => String.prefix path (diag_path d) = true) ds.
Proof.
  destruct (sub' exp obj path [] w) as [[o ds] w'] eqn:E.
  assert (H : appends (fun d => String.prefix path (diag_path d) = true)
                (fun _ => True) (sub' exp obj path)).
  { apply (sub_invariant W call py_str ignore_extra_keys
             (fun d => String.prefix path (diag_path d) = true)
             (fun _ _ p => String.prefix path p = true));
      try (intros; cbn; assumption).
    - intros. unfold index_path. now apply prefix_app.
    - intros. unfold index_path. now apply prefix_app.
    - intros. unfold key_path. now apply prefix_app.
    - apply prefix_refl. }
  destruct (H _ _ _ _ _ E) as [(ds' & Hds & Hok) _].
  cbn in Hds. now subst.
Qed.

(** *** Mappings *)

Lemma dict_get_none (key : value) (items : list (value * value)) :
  dict_get key items = None <->
  forall k, In k (map fst items) -> py_eq k key = false.
Proof.
  induction items as [|[k x] items IH]; cbn [dict_get map fst In].
  - split; [intros _ k [] | reflexivity].
  - destruct (py_eq k key) eqn:E.
    + split; [discriminate|]. intros H.
      rewrite (H k (or_introl eq_refl)) in E. discriminate.
    + rewrite IH. split.
      * intros H k' [<- | Hk']; [exact E | now apply H].
      * intros H k' Hk'. apply H. now right.
Qed.

Lemma dict_get_in (key : value) (items : list (value * value)) :
  In key (map fst items) -> py_eq key key = true ->
  dict_get key items <> None.
Proof.
  intros Hin Hrefl H. rewrite dict_get_none in H.
  rewrite (H key Hin) in Hrefl. discriminate.
Qed.

Lemma py_eq_str_eq (s : string) (key : value) :
  py_eq (VStr s) key = true -> key = VStr s.
Proof.
  destruct key; try discriminate. cbn. intros H.
  apply String.eqb_eq in H. now subst.
Qed.

Lemma dict_get_set_kept (k x key : value) (d : list (value * value)) :
  is_str k = true -> str_keys d ->
  dict_get key d <> None -> dict_get key (dict_set k x d) <> None.
Proof.
  intros Hk Hd H. rewrite dict_get_set by assumption.
  destruct (py_eq k key); [discriminate | exact H].
Qed.

Local Abbreviation F := (fun expv v p => sub' expv v p).

(** What the loop over the fields leaves in [obj2] and [report]. *)
Lemma fields_loop_result (path : string) (items : list (value * value))
  (fields : list (value * value)) :
  forall keys obj2 r w K O r' w',
    fields_loop F path items fields keys obj2 r w = (Ret (K, O), r', w') ->
    (exists ds, r' = (r ++ ds)%list)
    /\ (forall k,
           In k (map fst O) ->
           In k (map fst obj2)
           \/ (is_str k = true /\ dict_get k items <> None
               /\ exists expk expv,
                   In (expk, expv) fields /\ field_key expk = k))
    /\ (forall expk expv key,
           In (expk, expv) fields ->
           field_entry expk = (key, true) ->
           dict_get key items = None ->
           In (D3 path (VStr "not found") key) r')
    /\ (str_keys obj2 ->
        str_keys O
        /\ (forall key, dict_get key obj2 <> None -> dict_get key O <> None)
        /\ (forall expk expv s,
               In (expk, expv) fields ->
               field_key expk = VStr s ->
               dict_get (VStr s) items <> None ->
               dict_get (VStr s) O <> None)).
Proof.
  induction fields as [|[expk expv] fields IH];
    intros keys obj2 r w K O r' w' H.
  - injection H as <- <- <- <-. split; [|split; [|split]].
    + exists []. now rewrite app_nil_r.
    + intros k Hk. now left.
    + intros expk expv key [].
    + intros Hstr. split; [exact Hstr|]. split; [auto|].
      intros expk expv s [].
  - cbn [fields_loop] in H.
    destruct (field_entry expk) as [key mandatory] eqn:E.
    assert (Hkey : field_key expk = key) by (unfold field_key; now rewrite E).
    destruct (first_unhashable key); [discriminate|].
    destruct (dict_get key items) as [v|] eqn:Eget.
    + destruct key as [| | | |s| | | | | | | | | | | | |]; try discriminate.
      unfold bind in H.
      destruct (sub' expv v (key_path path s) r w) as [[[x|e] r1] w1] eqn:Hx;
        [|discriminate].
      destruct (sub_grows W call py_str ignore_extra_keys _ _ _ _ _ _ _ _ Hx)
        as [ds1 ->].
      destruct (IH _ _ _ _ _ _ _ _ H) as ((ds & ->) & H2 & H3 & H4).
      split; [|split; [|split]].
      * exists (ds1 ++ ds)%list. now rewrite app_assoc.
      * intros k Hk. destruct (H2 k Hk) as [Hin | (Hs & Hg & ek & ev & Hi & Hf)].
        -- apply dict_set_keys in Hin as [-> | Hin]; [|now left].
           right. split; [reflexivity|]. split; [congruence|].
           exists expk, expv. split; [now left | exact Hkey].
        -- right. split; [exact Hs|]. split; [exact Hg|].
           exists ek, ev. split; [now right | exact Hf].
      * intros ek ev key' [[= <- <-] | Hin] He Hg.
        -- rewrite E in He. injection He as <- _. congruence.
        -- eapply H3; eassumption.
      * intros Hstr.
        destruct (H4 (dict_set_str_keys (VStr s) x obj2 eq_refl Hstr))
          as (HO & Hkept & Hfields).
        split; [exact HO|]. split.
        -- intros key' Hk'. apply Hkept.
           now apply dict_get_set_kept.
        -- intros ek ev s' [[= <- <-] | Hin] Hf Hg.
           ++ rewrite Hkey in Hf. injection Hf as <-.
              apply Hkept. rewrite dict_get_set by (auto || reflexivity).
              cbn. now rewrite String.eqb_refl.
           ++ eapply Hfields; eassumption.
    + unfold bind in H.
      destruct mandatory; cbn in H.
      * destruct (IH _ _ _ _ _ _ _ _ H) as ((ds & ->) & H2 & H3 & H4).
        split; [|split; [|split]].
        -- exists ([D3 path (VStr "not found") key] ++ ds)%list.
           now rewrite app_assoc.
        -- intros k Hk.
           destruct (H2 k Hk) as [Hin | (Hs & Hg & ek & ev & Hi & Hf)];
             [now left|].
           right. split; [exact Hs|]. split; [exact Hg|].
           exists ek, ev. split; [now right | exact Hf].
        -- intros ek ev key' [[= <- <-] | Hin] He Hg.
           ++ rewrite E in He. injection He as <-.
              apply in_or_app. left. apply in_or_app. right. now left.
           ++ eapply H3; eassumption.
        -- intros Hstr. destruct (H4 Hstr) as (HO & Hkept & Hfields).
           split; [exact HO|]. split; [exact Hkept|].
           intros ek ev s' [[= <- <-] | Hin] Hf Hg.
           ++ rewrite Hkey in Hf. rewrite Hf in Eget. contradiction.
           ++ eapply Hfields; eassumption.
      * destruct (IH _ _ _ _ _ _ _ _ H) as ((ds & ->) & H2 & H3 & H4).
        split; [|split; [|split]].
        -- now exists ds.
        -- intros k Hk.
           destruct (H2 k Hk) as [Hin | (Hs & Hg & ek & ev & Hi & Hf)];
             [now left|].
           right. split; [exact Hs|]. split; [exact Hg|].
           exists ek, ev. split; [now right | exact Hf].
        -- intros ek ev key' [[= <- <-] | Hin] He Hg.
           ++ rewrite E in He. discriminate.
           ++ eapply H3; eassumption.
        -- intros Hstr. destruct (H4 Hstr) as (HO & Hkept & Hfields).
           split; [exact HO|]. split; [exact Hkept|].
           intros ek ev s' [[= <- <-] | Hin] Hf Hg.
           ++ rewrite Hkey in Hf. rewrite Hf in Eget. contradiction.
           ++ eapply Hfields; eassumption.
Qed.

Lemma fields_loop_keys (path : string) (items : list (value * value))
  (fields : list (value * value)) :
  forall keys obj2 r w K O r' w',
    fields_loop F path items fields keys obj2 r w = (Ret (K, O), r', w') ->
    K = (keys ++ map (fun kv => field_key (fst kv)) fields)%list.
Proof.
  induction fields as [|[expk expv] fields IH];
    intros keys obj2 r w K O r' w' H.
  - injection H as <- _ _ _. now rewrite app_nil_r.
  - cbn [fields_loop] in H. cbn [map fst]. unfold field_key at 1.
    destruct (field_entry expk) as [key mandatory]. cbn [fst].
    destruct (first_unhashable key); [discriminate|].
    unfold bind in H.
    destruct (dict_get key items) as [v|].
    + destruct key; try discriminate.
      destruct (sub' expv v _ r w) as [[[x|e] r1] w1]; [|discriminate].
      rewrite (IH _ _ _ _ _ _ _ _ H). now rewrite <- app_assoc.
    + destruct mandatory; cbn in H;
        rewrite (IH _ _ _ _ _ _ _ _ H); now rewrite <- app_assoc.
Qed.

Lemma extra_keys_in (items : list (value * value)) (keys : list value)
  (k : value) :
  In k (extra_keys items keys) -> In k (map fst items).
Proof. unfold extra_keys. intros H. now apply filter_In in H. Qed.

(** The keys [copy_extra] puts into [obj2] are keys of the input. *)
Lemma copy_extra_keys (items : list (value * value)) (extra : list value) :
  forall d k,
    In k (map fst (copy_extra items extra d)) ->
    In k (map fst d) \/ (In k extra /\ dict_get k items <> None).
Proof.
  unfold copy_extra.
  induction extra as [|e extra IH]; intros d k H; [now left|].
  cbn [fold_left] in H. apply IH in H as [H | [H Hg]].
  - destruct (dict_get e items) eqn:E; [|now left].
    apply dict_set_keys in H as [-> | H]; [|now left].
    right. split; [now left | congruence].
  - right. split; [now right | exact Hg].
Qed.

Lemma copy_extra_kept (items : list (value * value)) (extra : list value) :
  (forall e, In e extra -> is_str e = true) ->
  forall d key,
    str_keys d ->
    dict_get key d <> None ->
    dict_get key (copy_extra items extra d) <> None.
Proof.
  unfold copy_extra.
  induction extra as [|e extra IH]; intros He d key Hd H; [exact H|].
  cbn [fold_left].
  assert (Hes : is_str e = true) by (apply He; now left).
  destruct (dict_get e items) as [v|].
  - apply IH.
    + intros e' He'. apply He. now right.
    + now apply dict_set_str_keys.
    + now apply dict_get_set_kept.
  - apply IH; [|exact Hd | exact H]. intros e' He'. apply He. now right.
Qed.

Lemma copy_extra_copies (items : list (value * value)) (extra : list value) :
  (forall e, In e extra -> is_str e = true /\ dict_get e items <> None) ->
  forall d k,
    str_keys d -> In k extra ->
    dict_get k (copy_extra items extra d) <> None.
Proof.
  induction extra as [|e extra IH]; intros He d k Hd Hk; [destruct Hk|].
  destruct (He e (or_introl eq_refl)) as [Hes Heg].
  assert (Hrest : forall e', In e' extra ->
                             is_str e' = true /\ dict_get e' items <> None)
    by (intros e' He'; apply He; now right).
  change (copy_extra items (e :: extra) d)
    with (copy_extra items extra
            (match dict_get e items with
             | Some v => dict_set e v d
             | None => d
             end)).
  destruct (dict_get e items) as [v|]; [|congruence].
  destruct Hk as [<- | Hk].
  - apply copy_extra_kept.
    + intros e' He'. now apply Hrest.
    + now apply dict_set_str_keys.
    + rewrite dict_get_set by assumption.
      now rewrite py_eq_str_refl.
  - apply IH; [exact Hrest | now apply dict_set_str_keys | exact Hk].
Qed.

Lemma str_keys_in (items : list (value * value)) (k : value) :
  str_keys items -> In k (map fst items) -> is_str k = true.
Proof.
  intros Hs Hk. apply in_map_iff in Hk as ([k' x] & <- & Hin).
  unfold str_keys in Hs. rewrite Forall_forall in Hs. exact (Hs _ Hin).
Qed.

(** The mapping branch, run to its end. *)
Lemma sub_try_mapping (fields items : list (value * value)) (path : string)
  (r : list diag) (w : W) (out : value) (r' : list diag) (w' : W) :
  py_eq (VDict items) (VDict fields) = false ->
  sub_try' sub' (VDict fields) (VDict items) path r w = (Ret out, r', w') ->
  exists K O r1,
    fields_loop F path items fields [] [] r w = (Ret (K, O), r1, w')
    /\ (exists ds, r' = (r1 ++ ds)%list)
    /\ out = VDict (if nonempty (extra_keys items K) && ignore_extra_keys
                    then copy_extra items (extra_keys items K) O
                    else O).
Proof.
  intros Heq H. unfold sub_try in H. rewrite Heq in H. unfold bind in H.
  destruct (fields_loop _ path items fields [] [] r w)
    as [[[[K O]|e] r1] w1] eqn:Hloop; [|discriminate].
  exists K, O, r1. cbv zeta in H.
  destruct (nonempty (extra_keys items K)); cbn [andb].
  - destruct ignore_extra_keys.
    + injection H as <- <- <-. split; [reflexivity|]. split; [|reflexivity].
      exists []. now rewrite app_nil_r.
    + cbn in H. injection H as <- <- <-. split; [reflexivity|].
      split; [|reflexivity]. eexists. reflexivity.
  - injection H as <- <- <-. split; [reflexivity|]. split; [|reflexivity].
    exists []. now rewrite app_nil_r.
Qed.

(** X11. When the mapping branch runs to its end with extra keys
    rejected, the output is a mapping whose keys are all str keys named by
    the schema (bare or under [Optional]) and present in the input: an
    extra key of the input never reaches the output. A key missing from
    the input is missing from the output, and if the schema names it as
    mandatory the report holds [(path, 'not found', key)], with the path
    of the mapping and the key as the value. *)
Theorem mapping_keeps_schema_keys (fields items : list (value * value))
  (path : string) (r : list diag) (w : W) (out : value) (r' : list diag)
  (w' : W) :
  ignore_extra_keys = false ->
  py_eq (VDict items) (VDict fields) = false ->
  sub_try' sub' (VDict fields) (VDict items) path r w = (Ret out, r', w') ->
  exists O,
    out = VDict O
    /\ sub' (VDict fields) (VDict items) path r w = (Ret (VDict O), r', w')
    /\ (forall k,
           In k (map fst O) ->
           is_str k = true /\ dict_get k items <> None
           /\ exists expk expv, In (expk, expv) fields /\ field_key expk = k)
    /\ (forall key, dict_get key items = None -> dict_get key O = None)
    /\ (forall expk expv key,
           In (expk, expv) fields ->
           field_entry expk = (key, true) ->
           dict_get key items = None ->
           In (D3 path (VStr "not found") key) r').
Proof.
  intros Hign Heq H.
  destruct (sub_try_mapping fields items path r w out r' w' Heq H)
    as (K & O & r1 & Hloop & (ds & ->) & ->).
  assert (Hif : nonempty (extra_keys items K) && ignore_extra_keys = false)
    by (rewrite Hign; apply andb_false_r).
  rewrite Hif in H |- *.
  destruct (fields_loop_result path items fields _ _ _ _ _ _ _ _ Hloop)
    as (_ & H2 & H3 & _).
  assert (Hkeys : forall k,
             In k (map fst O) ->
             is_str k = true /\ dict_get k items <> None
             /\ exists expk expv,
                 In (expk, expv) fields /\ field_key expk = k).
  { intros k Hk. destruct (H2 k Hk) as [[] | Hk']. exact Hk'. }
  exists O. split; [reflexivity|]. split; [|split; [exact Hkeys | split]].
  - rewrite sub_unfold. unfold try_except. now rewrite H.
  - intros key Hnone. apply dict_get_none. intros k Hk.
    destruct (Hkeys k Hk) as (Hs & Hg & _).
    destruct (py_eq k key) eqn:E; [|reflexivity].
    destruct k; try discriminate.
    apply py_eq_str_eq in E. subst key. contradiction.
  - intros expk expv key Hin He Hg. apply in_or_app. left.
    eapply H3; eassumption.
Qed.

(** X12. With [ignore_extra_keys], a mapping schema loses no key of an
    input mapping whose keys are strs and invents none: whenever [sub]
    returns, what it returns is a mapping with exactly the keys of the
    input, whether they are named by the schema or not, and whether the
    match went through, reported diagnostics or faulted. *)
Theorem ignoring_extra_keys_keeps_every_key
  (fields items : list (value * value)) (path : string) (r : list diag)
  (w : W) (out : value) (r' : list diag) (w' : W) :
  ignore_extra_keys = true ->
  str_keys items ->
  sub' (VDict fields) (VDict items) path r w = (Ret out, r', w') ->
  exists O,
    out = VDict O
    /\ (forall k, In k (map fst items) -> dict_get k O <> None)
    /\ (forall k, In k (map fst O) -> dict_get k items <> None).
Proof.
  intros Hign Hstr H.
  assert (Hsame : exists O,
             VDict items = VDict O
             /\ (forall k, In k (map fst items) -> dict_get k O <> None)
             /\ (forall k, In k (map fst O) -> dict_get k items <> None)).
  { exists items. split; [reflexivity|].
    split; intros k Hk; apply dict_get_in; try exact Hk;
      apply py_eq_str_refl; now apply (str_keys_in items). }
  rewrite sub_unfold in H. unfold try_except in H.
  destruct (py_eq (VDict items) (VDict fields)) eqn:Heq.
  { unfold sub_try in H. rewrite Heq in H. injection H as <- _ _.
    exact Hsame. }
  destruct (sub_try' sub' (VDict fields) (VDict items) path r w)
    as [[[v|e] r1] w1] eqn:Hbody.
  2:{ destruct (exn_is_exception e); [|discriminate].
      injection H as <- _ _. exact Hsame. }
  injection H as -> -> ->.
  destruct (sub_try_mapping fields items path r w out r' w' Heq Hbody)
    as (K & O & r1 & Hloop & _ & ->).
  rewrite Hign, andb_true_r.
  destruct (fields_loop_result path items fields _ _ _ _ _ _ _ _ Hloop)
    as (_ & H2 & _ & H4).
  destruct (H4 (Forall_nil _)) as (HO & _ & Hfields).
  pose proof (fields_loop_keys path items fields _ _ _ _ _ _ _ _ Hloop)
    as HK. cbn [app] in HK.
  assert (Hextra : forall e, In e (extra_keys items K) ->
                             is_str e = true /\ dict_get e items <> None).
  { intros e He. apply extra_keys_in in He.
    assert (Hs : is_str e = true) by now apply (str_keys_in items).
    split; [exact Hs|]. apply dict_get_in; [exact He|].
    now apply py_eq_str_refl. }
  eexists. split; [reflexivity|]. split.
  - (* no key is lost *)
    intros k Hk.
    assert (Hs : is_str k = true) by now apply (str_keys_in items).
    destruct (existsb (py_eq k) K) eqn:Ein.
    + apply existsb_exists in Ein as (key & HinK & Hpy).
      destruct k; try discriminate. apply py_eq_str_eq in Hpy. subst key.
      rewrite HK in HinK. apply in_map_iff in HinK as ([expk expv] & Hf & Hin).
      cbn [fst] in Hf.
      assert (HgO : dict_get (VStr s) O <> None).
      { apply (Hfields expk expv s Hin Hf).
        apply dict_get_in; [exact Hk | cbn; apply String.eqb_refl]. }
      destruct (nonempty (extra_keys items K)); [|exact HgO].
      apply copy_extra_kept; [|exact HO | exact HgO].
      intros e He. now apply Hextra.
    + assert (Hin : In k (extra_keys items K)).
      { unfold extra_keys. apply filter_In. split; [exact Hk|].
        now rewrite Ein. }
      destruct (extra_keys items K) as [|e extra] eqn:Ex; [destruct Hin|].
      cbn [nonempty]. now apply copy_extra_copies.
  - (* no key is invented *)
    intros k Hk.
    assert (HfromO : In k (map fst O) -> dict_get k items <> None).
    { intros HkO. destruct (H2 k HkO) as [[] | (_ & Hg & _)]. exact Hg. }
    destruct (nonempty (extra_keys items K)); [|now apply HfromO].
    apply copy_extra_keys in Hk as [HkO | [_ Hg]];
      [now apply HfromO | exact Hg].
Qed.

End Paths.

(* ================================================================== *)
(** ** Schema keys that are not strs *)

Section NonStrKeys.

Variable W : Type.
Variable call : nat -> list value -> W -> outcome value * W.
Variable py_str : value -> string.
Variable ignore_extra_keys : bool.

Local Abbreviation sub' := (sub call py_str ignore_extra_keys).

Hypothesis call_ok : callables_raise_exceptions call.

(** The loop over the fields cannot get past a key of the data that is
    not a str: [path+'.'+key] raises TypeError, when [key in obj] has
    not done so for an earlier key. *)
Lemma fields_loop_fails (path : string) (items : list (value * value))
  (expk expv v : value) (fields : list (value * value)) :
  In (expk, expv) fields ->
  (forall s, field_key expk <> VStr s) ->
  dict_get (field_key expk) items = Some v ->
  forall keys obj2 r w,
  exists ds e w',
    fields_loop (fun expv v p => sub' expv v p) path items fields keys obj2
      r w
    = (Raise e, (r ++ ds)%list, w')
    /\ exn_class e = "TypeError" /\ exn_is_exception e = true.
Proof.
  intros Hin Hkey Hget.
  induction fields as [|[expk0 expv0] fields IH]; [destruct Hin|].
  intros keys obj2 r w. cbn [fields_loop].
  destruct Hin as [Hhead | Htail].
  - injection Hhead as -> ->. unfold field_key in Hkey, Hget.
    destruct (field_entry expk) as [key mandatory]. cbn [fst] in Hkey, Hget.
    destruct (first_unhashable key) as [u|].
    + exists [], (unhashable u), w. rewrite app_nil_r. now repeat split.
    + rewrite Hget. destruct key;
        try (eexists [], _, w; rewrite app_nil_r; now repeat split).
      now destruct (Hkey s).
  - specialize (IH Htail).
    destruct (field_entry expk0) as [key0 mandatory0].
    destruct (first_unhashable key0) as [u|].
    { exists [], (unhashable u), w. rewrite app_nil_r. now repeat split. }
    destruct (dict_get key0 items) as [v0|].
    + destruct key0;
        try (eexists [], _, w; rewrite app_nil_r; now repeat split).
      unfold bind.
      destruct (sub_returns W call py_str ignore_extra_keys expv0 v0
                  (key_path path s) r w call_ok) as (x & r1 & w1 & E).
      rewrite E.
      destruct (sub_grows W call py_str ignore_extra_keys _ _ _ _ _ _ _ _ E)
        as [ds1 ->].
      destruct (IH (keys ++ [VStr s])%list (dict_set (VStr s) x obj2)
                  (r ++ ds1)%list w1) as (ds & e & w' & -> & He).
      exists (ds1 ++ ds)%list, e, w'. now rewrite app_assoc.
    + unfold bind. destruct mandatory0.
      * unfold append at 1.
        destruct (IH (keys ++ [key0])%list obj2
                    (r ++ [D3 path (VStr "not found") key0])%list w)
          as (ds & e & w' & -> & He).
        eexists (_ :: ds), e, w'. now rewrite <- app_assoc.
      * unfold ret at 1. apply IH.
Qed.

(** X13. A schema mapping cannot check a key that is not a str. When
    such a key of the schema is found in the data, and the data does not
    simply equal the schema, building the path of the entry raises
    TypeError: the mapping as a whole ends in a ['failure'] at its own
    path, the fields after that key are not looked at, and the data is
    returned as it came. *)
Theorem non_str_key_fails_the_mapping
  (fields items : list (value * value)) (path : string)
  (expk expv v : value) (r : list diag) (w : W) :
  py_eq (VDict items) (VDict fields) = false ->
  In (expk, expv) fields ->
  (forall s, field_key expk <> VStr s) ->
  dict_get (field_key expk) items = Some v ->
  exists ds e w',
    sub' (VDict fields) (VDict items) path r w
    = (Ret (VDict items), (r ++ ds ++ [DFail path e])%list, w')
    /\ exn_class e = "TypeError".
Proof.
  intros Heq Hin Hkey Hget.
  destruct (fields_loop_fails path items expk expv v fields Hin Hkey Hget
              [] [] r w) as (ds & e & w' & Hloop & Hclass & Hexc).
  exists ds, e, w'. split; [|exact Hclass].
  rewrite sub_unfold. unfold try_except, sub_try. rewrite Heq.
  unfold bind at 1. rewrite Hloop, Hexc.
  unfold bind, append, ret. now rewrite <- app_assoc.
Qed.

End NonStrKeys.

(* ================================================================== *)
(** ** The path reader and the paths of the engine *)

Lemma drop_length (n : nat) (s : string) :
  (String.length (drop n s) <= String.length s)%nat.
Proof.
  revert s. induction n as [|n IH]; intros s; [apply Nat.le_refl|].
  destruct s as [|c s]; [apply Nat.le_refl|].
  cbn. apply Nat.le_trans with (String.length s); [apply IH | apply Nat.le_succ_diag_r].
Qed.

Lemma drop_app (k rest : string) : drop (String.length k) (k ++ rest) = rest.
Proof. induction k as [|c k IH]; [reflexivity | exact IH]. Qed.

Lemma digit_is_no_mark (c : ascii) (d : Z) :
  digit_of c = Some d ->
  is_space c = false /\ Ascii.eqb c "-" = false /\ Ascii.eqb c "+" = false
  /\ Ascii.eqb c "]" = false.
Proof.
  destruct c as [[] [] [] [] [] [] [] []]; cbn; try discriminate;
    intros _; repeat split.
Qed.

Lemma string_of_uint_digits (d : Decimal.uint) :
  d <> Decimal.Nil -> numeral (NilEmpty.string_of_uint d).
Proof.
  induction d as [|d IH|d IH|d IH|d IH|d IH|d IH|d IH|d IH|d IH|d IH];
    intros Hd; [congruence| | | | | | | | | |];
    cbn [NilEmpty.string_of_uint];
    (destruct d;
     [eapply numeral_one; reflexivity
     |eapply numeral_more; [reflexivity | apply IH; discriminate] ..]).
Qed.

Lemma to_uint_nonnil (n : nat) : Nat.to_uint n <> Decimal.Nil.
Proof.
  rewrite <- (DecimalNat.Unsigned.of_to n) at 1.
  rewrite DecimalNat.Unsigned.to_of. apply DecimalFacts.unorm_nonnil.
Qed.

Lemma string_of_nat_numeral (n : nat) : numeral (string_of_nat n).
Proof. apply string_of_uint_digits, to_uint_nonnil. Qed.

Lemma read_digits_digit (c : ascii) (d : Z) (s : string) (acc : Z) (b : bool) :
  digit_of c = Some d ->
  read_digits (String c s) acc b = read_digits s (10 * acc + d) true.
Proof. intros Hd. cbn [read_digits]. now rewrite Hd. Qed.

Ltac digit_case k IH :=
  cbn [NilEmpty.string_of_uint Nat.of_uint_acc];
  rewrite (read_digits_digit _ k) by reflexivity;
  rewrite Nat.tail_mul_spec;
  match goal with
  | |- read_digits _ ?z true = Some (Z.of_nat (Nat.of_uint_acc _ ?m), _) =>
      replace z with (Z.of_nat m) by lia
  end;
  apply IH; reflexivity.

Lemma read_digits_of_uint (d : Decimal.uint) :
  forall n b,
    (d = Decimal.Nil -> b = true) ->
    read_digits (NilEmpty.string_of_uint d) (Z.of_nat n) b
    = Some (Z.of_nat (Nat.of_uint_acc d n), EmptyString).
Proof.
  induction d as [|d IH|d IH|d IH|d IH|d IH|d IH|d IH|d IH|d IH|d IH];
    intros n b Hb.
  - rewrite (Hb eq_refl). reflexivity.
  - digit_case 0 IH.
  - digit_case 1 IH.
  - digit_case 2 IH.
  - digit_case 3 IH.
  - digit_case 4 IH.
  - digit_case 5 IH.
  - digit_case 6 IH.
  - digit_case 7 IH.
  - digit_case 8 IH.
  - digit_case 9 IH.
Qed.

Lemma count_digits_numeral (s : string) :
  numeral s -> count_digits s = String.length s.
Proof.
  induction 1 as [c d Hd | c d s Hd _ IH]; cbn [count_digits String.length];
    rewrite Hd; [reflexivity | now rewrite IH].
Qed.

Section ReaderFacts.

Variable py_repr : value -> string.
Variable subscript_other : value -> value -> outcome value.
Variable int_max_str_digits : nat.

Local Abbreviation py_int' := (py_int py_repr int_max_str_digits).
Local Abbreviation py_getitem' := (py_getitem py_repr subscript_other).
Local Abbreviation read_data' :=
  (read_data py_repr subscript_other int_max_str_digits).
Local Abbreviation read_data_from' :=
  (read_data_from py_repr subscript_other int_max_str_digits).
Local Abbreviation follow' := (follow py_repr subscript_other).
Local Abbreviation fits' := (fits int_max_str_digits).
Local Abbreviation plain_segment' := (plain_segment int_max_str_digits).

(** [int('%d' % n) == n] *)
Lemma py_int_string_of_nat (n : nat) :
  fits' n = true -> py_int' (string_of_nat n) = Ret (Z.of_nat n).
Proof.
  intros Hfit.
  assert (Hlim : Nat.ltb 0 int_max_str_digits
                 && Nat.ltb int_max_str_digits
                      (count_digits (string_of_nat n)) = false).
  { rewrite (count_digits_numeral _ (string_of_nat_numeral n)).
    unfold fits in Hfit. apply Bool.orb_true_iff in Hfit.
    destruct Hfit as [H0 | Hle].
    - apply Nat.eqb_eq in H0. rewrite H0. reflexivity.
    - apply Nat.leb_le in Hle. apply Bool.andb_false_iff. right.
      apply Nat.ltb_ge. exact Hle. }
  revert Hlim.
  unfold py_int, string_of_nat.
  pose proof (to_uint_nonnil n) as Hnil.
  pose proof (string_of_uint_digits _ Hnil) as Hnum.
  pose proof (read_digits_of_uint (Nat.to_uint n) 0%nat false
                (fun H => False_ind _ (Hnil H))) as Hread.
  change (Nat.of_uint_acc (Nat.to_uint n) 0) with (Nat.of_uint (Nat.to_uint n))
    in Hread. rewrite DecimalNat.Unsigned.of_to in Hread.
  destruct (NilEmpty.string_of_uint (Nat.to_uint n)) as [|c s] eqn:E;
    [inversion Hnum|].
  assert (Hc : exists d, digit_of c = Some d)
    by (inversion Hnum; subst; eauto).
  destruct Hc as [d Hd].
  destruct (digit_is_no_mark c d Hd) as (Hsp & Hm & Hp & _).
  cbn [lstrip]. rewrite Hsp, Hm, Hp.
  change (Z.of_nat 0) with 0 in Hread. rewrite Hread.
  intros Hlim. cbv zeta. rewrite Hlim. reflexivity.
Qed.

Lemma before_numeral (s rest : string) :
  numeral s -> before "]" (s ++ String "]" rest) = s.
Proof.
  induction 1 as [c d Hd | c d s Hd _ IH];
    destruct (digit_is_no_mark c d Hd) as (_ & _ & _ & Hb);
    cbn [String.append before]; rewrite Hb.
  - reflexivity.
  - now rewrite IH.
Qed.

(** Any fuel that covers the length of the path gives the same result. *)
Lemma read_data_from_fuel (fuel1 : nat) :
  forall fuel2 data path,
    (String.length path <= fuel1)%nat ->
    (String.length path <= fuel2)%nat ->
    read_data_from' fuel1 data path = read_data_from' fuel2 data path.
Proof.
  induction fuel1 as [|fuel1 IH]; intros fuel2 data path H1 H2.
  - destruct path; [destruct fuel2; reflexivity | cbn in H1; lia].
  - destruct path as [|c rest]; [destruct fuel2; reflexivity|].
    destruct fuel2 as [|fuel2]; [cbn in H2; lia|].
    cbn [read_data_from]. cbn [String.length] in H1, H2.
    assert (Hdrop : forall n,
               (String.length (drop (n + 1) (String c rest))
                <= String.length rest)%nat).
    { intros n. rewrite Nat.add_1_r. cbn [drop]. apply drop_length. }
    assert (Hdrop2 : forall n,
               (String.length (drop (n + 2) (String c rest))
                <= String.length rest)%nat).
    { intros n. replace (n + 2)%nat with (S (n + 1)) by lia. cbn [drop].
      apply drop_length. }
    destruct (Ascii.eqb c ".").
    + cbv zeta. destruct (py_getitem' data _) as [d|e]; [|reflexivity].
      apply IH;
        (eapply Nat.le_trans; [apply Hdrop | lia]).
    + destruct (Ascii.eqb c "["); [|reflexivity].
      cbv zeta. destruct (py_int' _) as [z|e]; [|reflexivity].
      destruct (py_getitem' data _) as [d|e]; [|reflexivity].
      apply IH;
        (eapply Nat.le_trans; [apply Hdrop2 | lia]).
Qed.

Lemma read_data_from_enough (fuel : nat) (data : value) (path : string) :
  (String.length path <= fuel)%nat ->
  read_data_from' fuel data path = read_data' data path.
Proof.
  intros H. unfold read_data. apply read_data_from_fuel; [exact H | lia].
Qed.

(** The two equations of the source. *)
Lemma read_data_key (data : value) (rest : string) :
  read_data' data (String "." rest)
  = let key := before "." (before "[" rest) in
    match py_getitem' data (VStr key) with
    | Ret d => read_data' d (drop (String.length key) rest)
    | Raise e => Raise e
    end.
Proof.
  unfold read_data at 1. cbn [String.length read_data_from Ascii.eqb].
  cbv zeta. cbn [Ascii.eqb Bool.eqb]. 
  destruct (py_getitem' data _) as [d|e]; [|reflexivity].
  rewrite Nat.add_1_r. cbn [drop].
  apply read_data_from_enough, drop_length.
Qed.

Lemma read_data_index (data : value) (rest : string) :
  read_data' data (String "[" rest)
  = let key := before "]" rest in
    match py_int' key with
    | Ret z =>
        match py_getitem' data (VInt z) with
        | Ret d => read_data' d (drop (String.length key + 1) rest)
        | Raise e => Raise e
        end
    | Raise e => Raise e
    end.
Proof.
  unfold read_data at 1. cbn [String.length read_data_from Ascii.eqb].
  cbv zeta. cbn [Ascii.eqb Bool.eqb].
  destruct (py_int' _) as [z|e]; [|reflexivity].
  destruct (py_getitem' data _) as [d|e]; [|reflexivity].
  replace (String.length (before "]" rest) + 2)%nat
    with (S (String.length (before "]" rest) + 1)) by lia.
  cbn [drop]. apply read_data_from_enough.
  apply drop_length.
Qed.

Lemma before_plain (k : string) :
  plain_key k = false -> before "." (before "[" k) <> k.
Proof.
  induction k as [|c k IH]; [discriminate|].
  cbn [plain_key before]. intros H.
  destruct (Ascii.eqb c "[") eqn:Eb; [discriminate|].
  cbn [before]. destruct (Ascii.eqb c ".") eqn:Ed; [discriminate|].
  cbn [negb andb] in H. intros [= Hk]. now apply IH.
Qed.

(** X14. [read_data] cannot read back a key that holds a ['.'] or a
    ['[']: it looks up what comes before that character, and where the
    mapping has the key but not this part of it, the path that [sub]
    builds for the entry raises KeyError. *)
Theorem dotted_key_is_not_read_back (items : list (value * value))
  (k : string) (v : value) :
  plain_key k = false ->
  dict_get (VStr k) items = Some v ->
  dict_get (VStr (before "." (before "[" k))) items = None ->
  py_getitem' (VDict items) (VStr k) = Ret v
  /\ before "." (before "[" k) <> k
  /\ read_data' (VDict items) (key_path "" k)
     = Raise (KeyError (py_repr (VStr (before "." (before "[" k))))).
Proof.
  intros Hk Hget Hnone. split; [|split].
  - cbn [py_getitem first_unhashable]. now rewrite Hget.
  - now apply before_plain.
  - unfold key_path. cbn [String.append]. rewrite read_data_key. cbv zeta.
    cbn [py_getitem first_unhashable]. now rewrite Hnone.
Qed.

End ReaderFacts.

(* ================================================================== *)
(** ** Reading the paths of the diagnostics back *)

Lemma string_app_assoc (a b c : string) : ((a ++ b) ++ c = a ++ (b ++ c))%string.
Proof. induction a as [|x a IH]; [reflexivity | cbn; now rewrite IH]. Qed.

Lemma before_key (k rest : string) :
  plain_key k = true -> path_head rest = true ->
  before "." (before "[" (k ++ rest)) = k.
Proof.
  intros Hk Hrest. induction k as [|c k IH].
  - destruct rest as [|c r]; [reflexivity|].
    cbn [String.append before]. cbn [path_head] in Hrest.
    destruct (Ascii.eqb c "[") eqn:E1; [reflexivity|].
    rewrite Bool.orb_false_r in Hrest. cbn [before]. now rewrite Hrest.
  - cbn [plain_key] in Hk.
    apply Bool.andb_true_iff in Hk. destruct Hk as [Hk Hk'].
    apply Bool.andb_true_iff in Hk. destruct Hk as [Hd Hb].
    apply Bool.negb_true_iff in Hd, Hb.
    cbn [String.append before]. rewrite Hb. cbn [before]. rewrite Hd.
    now rewrite (IH Hk').
Qed.

Lemma list_ascii_length (s : string) :
  List.length (list_ascii_of_string s) = String.length s.
Proof. induction s as [|c s IH]; [reflexivity | cbn; now rewrite IH]. Qed.

Lemma drop_app_one (k : string) (c : ascii) (rest : string) :
  drop (String.length k + 1) (k ++ String c rest) = rest.
Proof. induction k as [|a k IH]; [reflexivity | exact IH]. Qed.

Section AddressFacts.

Variable py_repr : value -> string.
Variable subscript_other : value -> value -> outcome value.
Variable int_max_str_digits : nat.

Local Abbreviation py_getitem' := (py_getitem py_repr subscript_other).
Local Abbreviation read_data' :=
  (read_data py_repr subscript_other int_max_str_digits).
Local Abbreviation follow' := (follow py_repr subscript_other).
Local Abbreviation plain_segment' := (plain_segment int_max_str_digits).
Local Abbreviation addressable' := (addressable int_max_str_digits).

Lemma descend_cons (p : string) (s : segment) (segs : list segment) :
  descend p (s :: segs) = descend (p ++ segment_text s) segs.
Proof. destruct s; reflexivity. Qed.

Lemma descend_prefix (segs : list segment) :
  forall p, descend p segs = (p ++ descend "" segs)%string.
Proof.
  induction segs as [|s segs IH]; intros p.
  - cbn. induction p as [|c p IHp]; [reflexivity | cbn; now rewrite <- IHp].
  - rewrite !descend_cons. rewrite (IH (p ++ segment_text s)%string).
    rewrite (IH ("" ++ segment_text s)%string).
    now rewrite string_app_assoc.
Qed.

Lemma descend_snoc (segs : list segment) (s : segment) :
  descend "" (segs ++ [s])
  = match s with
    | SKey k => key_path (descend "" segs) k
    | SIndex i => index_path (descend "" segs) i
    end.
Proof. unfold descend. rewrite fold_left_app. destruct s; reflexivity. Qed.

Lemma descend_head (segs : list segment) :
  path_head (descend "" segs) = true.
Proof.
  destruct segs as [|s segs]; [reflexivity|].
  rewrite descend_cons, descend_prefix. destruct s; reflexivity.
Qed.

Lemma follow_raise (e : exn) (segs : list segment) :
  follow' (Raise e) segs = Raise e.
Proof. induction segs as [|s segs IH]; [reflexivity | exact IH]. Qed.

Lemma follow_snoc (data : outcome value) (segs : list segment) (s : segment) :
  follow' data (segs ++ [s])
  = match follow' data segs with
    | Ret d =>
        match s with
        | SKey k => py_getitem' d (VStr k)
        | SIndex i => py_getitem' d (VInt (Z.of_nat i))
        end
    | Raise e => Raise e
    end.
Proof. unfold follow. now rewrite fold_left_app. Qed.

(** [read_data] undoes the way [sub] builds its paths: on the path of a
    descent it takes the same subscripts, one after the other. *)
Lemma read_data_descend (segs : list segment) :
  forall data,
    Forall (fun s => plain_segment' s = true) segs ->
    read_data' data (descend "" segs) = follow' (Ret data) segs.
Proof.
  induction segs as [|s segs IH]; intros data Hsegs; [reflexivity|].
  inversion Hsegs as [|s' segs' Hs Hrest]; subst.
  rewrite descend_cons, descend_prefix.
  destruct s as [k | i]; cbn [segment_text plain_segment] in *.
  - unfold key_path. cbn [String.append].
    rewrite read_data_key. cbv zeta.
    rewrite (before_key k _ Hs (descend_head segs)).
    cbn [follow fold_left].
    destruct (py_getitem' data (VStr k)) as [d|e].
    + rewrite drop_app. now apply IH.
    + symmetry. apply follow_raise.
  - unfold index_path. cbn [String.append].
    rewrite string_app_assoc. cbn [String.append].
    rewrite read_data_index. cbv zeta.
    rewrite (before_numeral _ _ (string_of_nat_numeral i)).
    rewrite (py_int_string_of_nat py_repr int_max_str_digits i Hs).
    cbn [follow fold_left].
    destruct (py_getitem' data (VInt (Z.of_nat i))) as [d|e].
    + rewrite drop_app_one. now apply IH.
    + symmetry. apply follow_raise.
Qed.

(** X15. [read_data] reads the paths that [sub] writes: on the path built
    by descending from [''] along keys without ['.'] and ['['] and along
    indices whose numerals [int] accepts, it returns what subscripting
    [data] step by step returns, the same exception included. *)
Theorem read_data_follows_the_path (data : value) (segs : list segment) :
  Forall (fun s => plain_segment' s = true) segs ->
  read_data' data (descend "" segs) = follow' (Ret data) segs.
Proof. apply read_data_descend. Qed.

(** *** The diagnostics point into the input *)

Variable W : Type.
Variable call : nat -> list value -> W -> outcome value * W.
Variable py_str : value -> string.
Variable ignore_extra_keys : bool.

Local Abbreviation sub' := (sub call py_str ignore_extra_keys).

Variable root : value.

Local Abbreviation reached' :=
  (reached py_repr subscript_other int_max_str_digits root).
Local Abbreviation located' :=
  (located py_repr subscript_other int_max_str_digits root).

Lemma reached_read (exp obj : value) (path : string) :
  reached' exp obj path -> read_data' root path = Ret obj.
Proof.
  intros (segs & -> & Hsegs & Hf & _). now rewrite read_data_descend.
Qed.

Lemma sequence_item_nth (kind : string) (os : list value) (j : nat)
  (o : value) :
  nth_error os j = Some o ->
  sequence_item kind os (Z.of_nat j) = Ret o.
Proof.
  intros Hn. unfold sequence_item, py_index.
  assert (Hlt : (j < List.length os)%nat)
    by (apply nth_error_Some; congruence).
  replace (0 <=? Z.of_nat j) with true by (symmetry; apply Z.leb_le; lia).
  replace (Z.of_nat j <? Z.of_nat (List.length os)) with true
    by (symmetry; apply Z.ltb_lt; lia).
  cbn [andb]. rewrite Nat2Z.id, Hn. reflexivity.
Qed.

Lemma fits_below (n j : nat) :
  forallb (fits int_max_str_digits) (seq 0 n) = true ->
  (j < n)%nat -> fits int_max_str_digits j = true.
Proof.
  intros H Hj. rewrite forallb_forall in H. apply H.
  apply in_seq. lia.
Qed.

Lemma reached_snoc (exp obj : value) (path : string) (s : segment)
  (exp' obj' : value) :
  reached' exp obj path ->
  plain_segment' s = true ->
  match s with
  | SKey k => py_getitem' obj (VStr k)
  | SIndex i => py_getitem' obj (VInt (Z.of_nat i))
  end = Ret obj' ->
  addressable' exp' obj' = true ->
  reached' exp' obj'
    match s with
    | SKey k => key_path path k
    | SIndex i => index_path path i
    end.
Proof.
  intros (segs & -> & Hsegs & Hf & _) Hs Hget Ha.
  exists (segs ++ [s])%list. repeat split.
  - now rewrite descend_snoc.
  - apply Forall_app. split; [exact Hsegs | now constructor].
  - rewrite follow_snoc, Hf. exact Hget.
  - exact Ha.
Qed.

Lemma reached_addressable (exp obj : value) (path : string) :
  reached' exp obj path -> addressable' exp obj = true.
Proof. now intros (segs & _ & _ & _ & Ha). Qed.

Lemma reached_same (exp exp' obj : value) (path : string) :
  reached' exp obj path -> addressable' exp' obj = true ->
  reached' exp' obj path.
Proof.
  intros (segs & Hp & Hsegs & Hf & _) Ha. now exists segs.
Qed.

Lemma addressable_zip (es : list value) :
  forall os j e o,
    (fix go (es os : list value) : bool :=
       match es, os with
       | e :: es', o :: os' => addressable' e o && go es' os'
       | _, _ => true
       end) es os = true ->
    nth_error es j = Some e -> nth_error os j = Some o ->
    addressable' e o = true.
Proof.
  induction es as [|e0 es IH]; intros os j e o H He Ho;
    [destruct j; discriminate|].
  destruct os as [|o0 os]; [destruct j; discriminate|].
  apply Bool.andb_true_iff in H. destruct H as [H0 H].
  destruct j as [|j]; cbn [nth_error] in He, Ho.
  - injection He as <-. injection Ho as <-. exact H0.
  - exact (IH os j e o H He Ho).
Qed.

Lemma reached_zip (exp obj : value) (path : string) (es os : list value)
  (j : nat) (e o : value) :
  reached' exp obj path ->
  isList exp = Some es -> isList obj = Some os ->
  nth_error es j = Some e -> nth_error os j = Some o ->
  reached' e o (index_path path j).
Proof.
  intros Hr Hes Hos He Ho.
  pose proof (reached_addressable _ _ _ Hr) as Ha.
  assert (Hlt : (j < List.length os)%nat)
    by (apply nth_error_Some; congruence).
  destruct exp; try discriminate; injection Hes as ->;
    (destruct obj; try discriminate; injection Hos as ->;
     cbn [addressable] in Ha;
     [apply Bool.andb_true_iff in Ha; destruct Ha as [Hfit Hgo];
      apply (reached_snoc _ _ _ (SIndex j) e o Hr);
      [exact (fits_below _ _ Hfit Hlt)
      |cbn [py_getitem index_of]; now apply sequence_item_nth
      |exact (addressable_zip _ _ _ _ _ Hgo He Ho)] ..
     |destruct os; [destruct j|]; discriminate
     |destruct os; [destruct j|]; discriminate]).
Qed.

Lemma reached_each (id : nat) (check obj : value) (path : string)
  (os : list value) (j : nat) (o : value) :
  reached' (VListOf id check) obj path ->
  py_iter obj = Some os -> nth_error os j = Some o ->
  reached' check o (index_path path j).
Proof.
  intros Hr Hos Ho.
  pose proof (reached_addressable _ _ _ Hr) as Ha.
  assert (Hlt : (j < List.length os)%nat)
    by (apply nth_error_Some; congruence).
  destruct obj; try discriminate; cbn [py_iter] in Hos;
    injection Hos as <-; cbn [addressable] in Ha.
  - (* a str *)
    apply Bool.andb_true_iff in Ha. destruct Ha as [Hfit Hall].
    rewrite length_map in Hlt.
    apply (reached_snoc _ _ _ (SIndex j) check o Hr).
    + apply (fits_below _ _ Hfit).
      now rewrite list_ascii_length in Hlt.
    + cbn [py_getitem index_of]. now apply sequence_item_nth.
    + rewrite forallb_forall in Hall.
      apply nth_error_In in Ho. apply in_map_iff in Ho.
      destruct Ho as (c & <- & Hc). now apply Hall.
  - (* a list *)
    apply Bool.andb_true_iff in Ha. destruct Ha as [Hfit Hall].
    apply (reached_snoc _ _ _ (SIndex j) check o Hr).
    + exact (fits_below _ _ Hfit Hlt).
    + cbn [py_getitem index_of]. now apply sequence_item_nth.
    + rewrite forallb_forall in Hall. apply Hall.
      now apply nth_error_In with j.
  - (* a tuple *)
    apply Bool.andb_true_iff in Ha. destruct Ha as [Hfit Hall].
    apply (reached_snoc _ _ _ (SIndex j) check o Hr).
    + exact (fits_below _ _ Hfit Hlt).
    + cbn [py_getitem index_of]. now apply sequence_item_nth.
    + rewrite forallb_forall in Hall. apply Hall.
      now apply nth_error_In with j.
  - destruct xs; [destruct j|]; discriminate.
  - destruct xs; [destruct j|]; discriminate.
  - destruct items; [destruct j|]; discriminate.
Qed.

Lemma reached_field (fields items : list (value * value)) (path : string)
  (expk expv : value) (k : string) (v : value) :
  reached' (VDict fields) (VDict items) path ->
  In (expk, expv) fields ->
  field_key expk = VStr k ->
  dict_get (VStr k) items = Some v ->
  reached' expv v (key_path path k).
Proof.
  intros Hr Hin Hk Hget.
  pose proof (reached_addressable _ _ _ Hr) as Ha.
  cbn [addressable] in Ha. rewrite forallb_forall in Ha.
  specialize (Ha _ Hin). cbn beta iota in Ha. rewrite Hk, Hget in Ha.
  apply Bool.andb_true_iff in Ha. destruct Ha as [Hplain Ha].
  apply (reached_snoc _ _ _ (SKey k) expv v Hr).
  - exact Hplain.
  - cbn [py_getitem first_unhashable]. now rewrite Hget.
  - exact Ha.
Qed.

Lemma sub_located (exp obj : value) (path : string) :
  reached' exp obj path ->
  appends located' (fun _ => True) (sub' exp obj path).
Proof.
  apply (sub_invariant W call py_str ignore_extra_keys located' reached').
  - intros e o p m Hr. exists o. split; [now apply reached_read with e | exact I].
  - intros e o p x Hr. exists o. split; [now apply reached_read with e | exact I].
  - intros e o p m Hr. exists o.
    split; [now apply reached_read with e | now left].
  - intros fields items p key Hr Hnone. exists (VDict items).
    split; [now apply reached_read with (VDict fields)|].
    right. exists items. split; [reflexivity | now left].
  - intros fields items p key Hr Hin. exists (VDict items).
    split; [now apply reached_read with (VDict fields)|].
    right. exists items. split; [reflexivity | now right].
  - intros id cs o p c Hr Hin. apply (reached_same _ _ _ _ Hr).
    pose proof (reached_addressable _ _ _ Hr) as Ha.
    cbn [addressable] in Ha. rewrite forallb_forall in Ha. now apply Ha.
  - intros id cs o p c Hr Hin. apply (reached_same _ _ _ _ Hr).
    pose proof (reached_addressable _ _ _ Hr) as Ha.
    cbn [addressable] in Ha. rewrite forallb_forall in Ha. now apply Ha.
  - intros e o p es os j x y Hr Hes Hos _ Hx Hy.
    exact (reached_zip _ _ _ _ _ _ _ _ Hr Hes Hos Hx Hy).
  - intros id check o p os j y Hr Hos Hy.
    exact (reached_each _ _ _ _ _ _ _ Hr Hos Hy).
  - intros fields items p expk expv k v Hr Hin Hk Hget.
    exact (reached_field _ _ _ _ _ _ _ Hr Hin Hk Hget).
Qed.

End AddressFacts.

Section ReadBack.

Variable W : Type.
Variable call : nat -> list value -> W -> outcome value * W.
Variable py_str : value -> string.
Variable ignore_extra_keys : bool.
Variable py_repr : value -> string.
Variable subscript_other : value -> value -> outcome value.
Variable int_max_str_digits : nat.

(** X16. The paths of the report lead back into the input. When the
    schema enumerates only lists, tuples and strs of the input and
    descends along plain keys ([addressable]), [read_data] applied to the
    input and to the path of any diagnostic returns a value, and the
    diagnostic is about that value: a triple carries it as its third
    component, or carries a key that this mapping lacks ('not found') or
    holds ('extra key'). *)
Theorem reported_paths_read_back (exp obj : value) (w : W) :
  addressable int_max_str_digits exp obj = true ->
  let '(_, ds, _) := sub call py_str ignore_extra_keys exp obj "" [] w in
  Forall (located py_repr subscript_other int_max_str_digits obj) ds.
Proof.
  intros Ha.
  destruct (sub call py_str ignore_extra_keys exp obj "" [] w)
    as [[o ds] w'] eqn:E.
  assert (Hr : reached py_repr subscript_other int_max_str_digits obj
                 exp obj "").
  { exists []. repeat split; [constructor | exact Ha]. }
  destruct (sub_located py_repr subscript_other int_max_str_digits
              W call py_str ignore_extra_keys obj exp obj EmptyString Hr
              _ _ _ _ _ E) as [(ds' & Hds & Hok) _].
  cbn in Hds. now subst.
Qed.

End ReadBack.

(* ================================================================== *)
(** ** The cross-check of two dates through the context *)

Section DateCheckerFacts.

Import DateChecker.

Variable compare_other : order_op -> value -> value -> outcome bool.
Variable call_other : nat -> list value -> dates -> outcome value * dates.
Variable py_str : value -> string.
Variable ignore_extra_keys : bool.

Local Abbreviation call' := (call compare_other call_other).
Local Abbreviation validate' := (validate call' py_str).

Local Abbreviation sub' := (sub call' py_str ignore_extra_keys).

(** How [sub] takes the answer of [date_checker] on an int. *)
Lemma sub_date_checker (path : string) (y : Z) (r : list diag) (w : dates) :
  sub' date_checker (VInt y) path r w
  = match date_check compare_other path (VInt y) w with
    | (Ret (VForceValue _ v), w1) => (Ret v, r, w1)
    | (Ret (VError _ message), w1) =>
        (Ret (VInt y), (r ++ [D3 path message (VInt y)])%list, w1)
    | (Ret x, w1) =>
        if truthy x then (Ret (VInt y), r, w1)
        else (Ret (VInt y),
              (r ++ [D3 path (VStr "invalidated by __call__") (VInt y)])%list,
              w1)
    | (Raise e, w1) =>
        if exn_is_exception e
        then (Ret (VInt y),
              (r ++ [D2 path (VStr ("__call__ call raised " ++ exn_str e))])%list,
              w1)
        else (Raise e, r, w1)
    end.
Proof.
  unfold date_checker. rewrite sub_callable by reflexivity. reflexivity.
Qed.

Lemma year_is_valid (y : Z) : 1800 < y -> (y <=? 1800) = false.
Proof. intros H. apply Z.leb_gt. lia. Qed.

Lemma year_is_truthy (y : Z) : 1800 < y -> truthy (VInt y) = true.
Proof.
  intros H. cbn. apply Bool.negb_true_iff, Z.eqb_neq. lia.
Qed.

(** One field of the schema: the call, with the years in range. *)
Ltac check_date Hs :=
  unfold bind at 1; rewrite ?Hs;
  unfold date_check, py_order; cbn [index_of];
  rewrite ?year_is_valid by assumption;
  cbn [contains String.prefix orb ascii_dec ascii_rec ascii_rect
       Bool.bool_dec bool_rec bool_rect sumbool_rec sumbool_rect
       birth death];
  rewrite ?year_is_truthy by assumption.

Ltac enter_mapping Hs :=
  unfold validate, birth_first, death_first, record;
  rewrite sub_unfold; unfold try_except at 1; unfold sub_try;
  pose proof sub_date_checker as Hs; unfold date_checker in Hs;
  cbn -[sub Z.leb Z.ltb Z.gtb];
  unfold bind at 1.

(** X17. [DateChecker] cross-checks the two years through its context,
    whatever the order in which the schema holds them: from a fresh or
    reset context and for two int years above 1800, the record passes
    when birth is not after death, and otherwise the report holds
    exactly one diagnostic, at the year that is checked second. *)
Theorem dates_are_cross_checked (b d : Z) :
  1800 < b -> 1800 < d ->
  fst (validate' (record b d) birth_first ignore_extra_keys reset)
  = Ret (record b d,
         if b >? d
         then [D3 ".death_year" (VStr "death must be after birth") (VInt d)]
         else [])
  /\ fst (validate' (record b d) death_first ignore_extra_keys reset)
     = Ret (VDict [(VStr "death_year", VInt d); (VStr "birth_year", VInt b)],
            if d <? b
            then [D3 ".birth_year" (VStr "birth must be before death")
                    (VInt b)]
            else []).
Proof.
  intros Hb Hd. split.
  - enter_mapping Hs. check_date Hs.
    cbn -[sub Z.leb Z.ltb Z.gtb]. check_date Hs.
    cbn [index_of]. destruct (b >? d); reflexivity.
  - enter_mapping Hs. check_date Hs.
    cbn -[sub Z.leb Z.ltb Z.gtb]. check_date Hs.
    cbn [index_of]. destruct (d <? b); reflexivity.
Qed.

(** X18. The context outlives a validation: when [reset] is not called,
    the birth of the next record is compared with the death that the
    context still holds, and a record whose own two years are in order
    is reported. *)
Theorem stale_death_is_compared (b d d0 : Z) (b0 : value) :
  1800 < d0 -> d0 < b -> b <= d ->
  fst (validate' (record b d) birth_first ignore_extra_keys
         (mkDates b0 (VInt d0)))
  = Ret (record b d,
         [D3 ".birth_year" (VStr "birth must be before death") (VInt b)]).
Proof.
  intros H0 Hlt Hle.
  assert (Hb : 1800 < b) by lia. assert (Hd : 1800 < d) by lia.
  enter_mapping Hs. check_date Hs.
  cbn [index_of]. replace (d0 <? b) with true by (symmetry; apply Z.ltb_lt; lia).
  cbn -[sub Z.leb Z.ltb Z.gtb]. check_date Hs.
  cbn [index_of]. replace (b >? d) with false
    by (symmetry; rewrite Z.gtb_ltb; apply Z.ltb_ge; lia).
  reflexivity.
Qed.

End DateCheckerFacts.

(* ================================================================== *)
(** ** The further properties at concrete inputs *)

Lemma empty_choice_is_reported_witness :
  sub Samples.call Samples.py_str false (VOr 0 []) (VInt 1) ".x" [] tt
  = (Ret (VInt 1), [D2 ".x" (VStr "empty choice")], tt)
  /\ sub Samples.call Samples.py_str false (VAnd 0 []) (VInt 1) ".x" [] tt
     = (Ret (VInt 1), [D2 ".x" (VStr "empty choice")], tt).
Proof.
  destruct (empty_choice_is_reported unit Samples.call Samples.py_str false
              0%nat (VInt 1) ".x" [] tt) as [H1 H2].
  split; [apply H1 | apply H2]; reflexivity.
Defined.

Lemma fixed_sequence_mismatch_witness :
  sub Samples.call Samples.py_str false
    (VList [VType TInt; VType TInt]) (VInt 5) ".xs" [] tt
  = (Ret (VInt 5), [D3 ".xs" (VStr "array expected") (VInt 5)], tt)
  /\ sub Samples.call Samples.py_str false
       (VList [VType TInt; VType TInt]) (VTuple [VInt 5]) ".xs" [] tt
     = (Ret (VTuple [VInt 5]),
        [D3 ".xs" (VStr "length is 1 but should be 2") (VTuple [VInt 5])], tt).
Proof.
  split.
  - apply (fixed_sequence_mismatch unit Samples.call Samples.py_str false
             (VList [VType TInt; VType TInt]) (VInt 5)
             [VType TInt; VType TInt] ".xs" [] tt eq_refl).
    reflexivity.
  - apply (proj2 (fixed_sequence_mismatch unit Samples.call Samples.py_str
                    false (VList [VType TInt; VType TInt]) (VTuple [VInt 5])
                    [VType TInt; VType TInt] ".xs" [] tt eq_refl)
             [VInt 5]).
    + reflexivity.
    + cbn. lia.
Defined.


Lemma wrong_arity_is_not_invoked_witness :
  sub Samples.call Samples.py_str false
    (VFunc 4 PlainFunction 3 "raiser") (VInt 5) ".n" [] tt
  = (Ret (VInt 5), [D2 ".n" (VStr "raiser should take 1 or 2 parameters")], tt)
  /\ sub Samples.call Samples.py_str false
       (VFunc 4 Builtin 1 "len") (VInt 5) ".n" [] tt
     = (Ret (VInt 5), [DFail ".n" RecursionError], tt).
Proof.
  split.
  - apply (wrong_arity_is_not_invoked unit Samples.call Samples.py_str false
             4%nat PlainFunction 3 "raiser" (VInt 5) ".n" [] tt eq_refl);
      cbn; [discriminate | lia | lia].
  - apply (wrong_arity_is_not_invoked unit Samples.call Samples.py_str false
             4%nat Builtin 1 "len" (VInt 5) ".n" [] tt eq_refl).
    reflexivity.
Defined.

Lemma checker_overrides_witness :
  sub Samples.call Samples.py_str false Samples.doubler (VInt 44) ".age" [] tt
  = (Ret (VInt 88), [], tt)
  /\ sub Samples.call Samples.py_str false Samples.positive (VInt (-44))
       ".age" [] tt
     = (Ret (VInt (-44)),
        [D3 ".age" (VStr "an age is always positive!") (VInt (-44))], tt).
Proof.
  split.
  - apply (proj1 (checker_overrides unit Samples.call Samples.py_str false
                    2%nat PlainFunction 1 "<lambda>" "<lambda>" 1
                    (VInt 44) (VForceValue 100 (VInt 88)) ".age" [] tt tt
                    eq_refl eq_refl (or_introl eq_refl) eq_refl)
             100%nat (VInt 88) eq_refl).
  - apply (proj2 (checker_overrides unit Samples.call Samples.py_str false
                    3%nat PlainFunction 1 "<lambda>" "<lambda>" 1
                    (VInt (-44))
                    (VError 101 (VStr "an age is always positive!"))
                    ".age" [] tt tt
                    eq_refl eq_refl (or_introl eq_refl) eq_refl)
             101%nat (VStr "an age is always positive!") eq_refl).
Defined.

Lemma checker_verdict_witness :
  sub Samples.call Samples.py_str false Samples.check_year (VInt 1789)
    ".birth_year" [] tt
  = (Ret (VInt 1789),
     [D3 ".birth_year" (VStr "invalidated by check_year") (VInt 1789)], tt).
Proof.
  apply (checker_verdict unit Samples.call Samples.py_str false
           1%nat PlainFunction 1 "check_year" "check_year" 1
           (VInt 1789) (VBool false) ".birth_year" [] tt tt
           eq_refl eq_refl (or_introl eq_refl) eq_refl);
    discriminate.
Defined.

Lemma unhashable_mismatch_raises_witness :
  validate Samples.call Samples.py_str (VTuple [VInt 1; VList []]) (VType TInt)
    false tt
  = (Raise (unhashable (VList [])), tt).
Proof.
  apply (unhashable_mismatch_raises unit Samples.call Samples.py_str false
           (VTuple [VInt 1; VList []]) (VList []) TInt tt eq_refl).
  discriminate.
Defined.

Lemma mapping_keeps_schema_keys_witness :
  exists O,
    VDict [(VStr "name", VStr "Tricia Mc Millan");
           (VStr "age", VFloat Samples.f35_5)] = VDict O
    /\ sub Samples.call Samples.py_str false Samples.scheme Samples.person3
         "" [] tt
       = (Ret (VDict O),
          [D3 "" (VStr "extra key") (VStr "aka");
           D3 "" (VStr "extra key") (VStr "actress")], tt)
    /\ dict_get (VStr "aka") O = None.
Proof.
  destruct (mapping_keeps_schema_keys unit Samples.call Samples.py_str false
              [(VStr "name", VType TStr); (VStr "age", VType TFloat)]
              [(VStr "name", VStr "Tricia Mc Millan");
               (VStr "age", VFloat Samples.f35_5);
               (VStr "aka", VStr "Trillian");
               (VStr "actress", VStr "Z.Deschanel")]
              "" [] tt
              (VDict [(VStr "name", VStr "Tricia Mc Millan");
                      (VStr "age", VFloat Samples.f35_5)])
              [D3 "" (VStr "extra key") (VStr "aka");
               D3 "" (VStr "extra key") (VStr "actress")] tt
              eq_refl eq_refl eq_refl)
    as (O & HO & Hsub & Hkeys & Hmissing & _).
  exists O. split; [exact HO|]. split; [exact Hsub|].
  injection HO as <-. reflexivity.
Defined.

Lemma ignoring_extra_keys_keeps_every_key_witness :
  exists O,
    Samples.person3 = VDict O
    /\ dict_get (VStr "aka") O <> None
    /\ dict_get (VStr "actress") O <> None.
Proof.
  destruct (ignoring_extra_keys_keeps_every_key unit Samples.call
              Samples.py_str true
              [(VStr "name", VType TStr); (VStr "age", VType TFloat)]
              [(VStr "name", VStr "Tricia Mc Millan");
               (VStr "age", VFloat Samples.f35_5);
               (VStr "aka", VStr "Trillian");
               (VStr "actress", VStr "Z.Deschanel")]
              "" [] tt Samples.person3 [] tt eq_refl)
    as (O & HO & Hin & _).
  - repeat constructor.
  - reflexivity.
  - exists O. split; [exact HO|]. split; apply Hin; cbn; tauto.
Defined.

Lemma non_str_key_fails_the_mapping_witness :
  exists ds e w',
    sub Samples.call Samples.py_str false
      (VDict [(VStr "name", VType TStr); (VInt 1, VType TInt)])
      (VDict [(VStr "name", VStr "Ford"); (VInt 1, VInt 42)]) ".p" [] tt
    = (Ret (VDict [(VStr "name", VStr "Ford"); (VInt 1, VInt 42)]),
       ([] ++ ds ++ [DFail ".p" e])%list, w')
    /\ exn_class e = "TypeError".
Proof.
  apply (non_str_key_fails_the_mapping unit Samples.call Samples.py_str false
           samples_raise_exceptions
           [(VStr "name", VType TStr); (VInt 1, VType TInt)]
           [(VStr "name", VStr "Ford"); (VInt 1, VInt 42)] ".p"
           (VInt 1) (VType TInt) (VInt 42) [] tt).
  - reflexivity.
  - cbn. tauto.
  - intros s. discriminate.
  - reflexivity.
Defined.

Lemma dotted_key_is_not_read_back_witness :
  MoreSamples.read (VDict [(VStr "a.b", VInt 1)]) ".a.b"
  = Raise (KeyError (MoreSamples.py_repr (VStr "a"))).
Proof.
  apply (dotted_key_is_not_read_back MoreSamples.py_repr
           MoreSamples.subscript_other MoreSamples.int_max_str_digits
           [(VStr "a.b", VInt 1)] "a.b" (VInt 1));
    reflexivity.
Defined.

Lemma read_data_follows_the_path_witness :
  MoreSamples.read MoreSamples.charlot ".children[0].age"
  = follow MoreSamples.py_repr MoreSamples.subscript_other
      (Ret MoreSamples.charlot) [SKey "children"; SIndex 0; SKey "age"].
Proof.
  apply (read_data_follows_the_path MoreSamples.py_repr
           MoreSamples.subscript_other MoreSamples.int_max_str_digits
           MoreSamples.charlot [SKey "children"; SIndex 0; SKey "age"]).
  repeat constructor.
Defined.

Lemma reported_paths_read_back_witness :
  let '(_, ds, _) :=
    sub Samples.call Samples.py_str false MoreSamples.family_scheme
      MoreSamples.charlot "" [] tt in
  Forall (located MoreSamples.py_repr MoreSamples.subscript_other
            MoreSamples.int_max_str_digits MoreSamples.charlot) ds.
Proof.
  apply (reported_paths_read_back unit Samples.call Samples.py_str false
           MoreSamples.py_repr MoreSamples.subscript_other
           MoreSamples.int_max_str_digits
           MoreSamples.family_scheme MoreSamples.charlot tt).
  vm_compute. reflexivity.
Defined.

Lemma dates_are_cross_checked_witness :
  fst (validate
         (DateChecker.call MoreSamples.compare_other MoreSamples.call_other)
         Samples.py_str (DateChecker.record 2010 1977)
         DateChecker.birth_first false DateChecker.reset)
  = Ret (DateChecker.record 2010 1977,
         [D3 ".death_year" (VStr "death must be after birth") (VInt 1977)]).
Proof.
  apply (proj1 (dates_are_cross_checked MoreSamples.compare_other
                  MoreSamples.call_other Samples.py_str false 2010 1977
                  eq_refl eq_refl)).
Defined.

Lemma stale_death_is_compared_witness :
  fst (validate
         (DateChecker.call MoreSamples.compare_other MoreSamples.call_other)
         Samples.py_str (DateChecker.record 1980 2000)
         DateChecker.birth_first false
         (DateChecker.mkDates (VInt 1889) (VInt 1977)))
  = Ret (DateChecker.record 1980 2000,
         [D3 ".birth_year" (VStr "birth must be before death") (VInt 1980)]).
Proof.
  apply (stale_death_is_compared MoreSamples.compare_other
           MoreSamples.call_other Samples.py_str false 1980 2000 1977
           (VInt 1889)); [reflexivity | reflexivity | discriminate].
Defined.

(* ================================================================== *)
(** ** The assertions of [_code_sample] hold of the embedding *)

Module SampleChecks.
Import Samples.

Example sample_person1 :
run person1 scheme false
= Ret (VDict [(VStr "name", VStr "Arthur Dent"); (VStr "age", VFloat f42)],
       [])
/\ py_eq (VDict [(VStr "name", VStr "Arthur Dent"); (VStr "age", VFloat f42)])
     person1 = true.
Proof. split; vm_compute; reflexivity. Qed.

Example sample_person2 :
run person2 scheme false
= Ret (person2, [D3 ".age" (VStr "not a float") VNone]).
Proof. vm_compute. reflexivity. Qed.

Example sample_person3_reject :
run person3 scheme false
= Ret (VDict [(VStr "name", VStr "Tricia Mc Millan");
              (VStr "age", VFloat f35_5)],
       [D3 "" (VStr "extra key") (VStr "aka");
        D3 "" (VStr "extra key") (VStr "actress")]).
Proof. vm_compute. reflexivity. Qed.

Example sample_person3_allow :
run person3 scheme true = Ret (person3, []).
Proof. vm_compute. reflexivity. Qed.

Example sample_person4 :
run person4 scheme false
= Ret (person4, [D3 ".name" (VStr "not a str") (VBool false);
                 D3 "" (VStr "not found") (VStr "age")]).
Proof. vm_compute. reflexivity. Qed.

Example sample_nested_lists :
run (VList [VList [VList [VInt 1]]])
    (VList [VList [VList [VType TInt]]]) false
= Ret (VList [VList [VList [VInt 1]]], []).
Proof. vm_compute. reflexivity. Qed.

Example sample_typed_list :
run (VList [VInt 1; VFloat f35_5; VBool true; VNone])
    (VList [VType TInt; VType TFloat; VType TBool; VNone]) false
= Ret (VList [VInt 1; VFloat f35_5; VBool true; VNone], []).
Proof. vm_compute. reflexivity. Qed.

Example sample_birth_year :
run (VDict [(VStr "birth_year", VInt 1789)])
    (VDict [(VStr "birth_year", VAnd 7 [VType TInt; check_year])]) false
= Ret (VDict [(VStr "birth_year", VInt 1789)],
       [D3 ".birth_year" (VStr "invalidated by check_year") (VInt 1789)]).
Proof. vm_compute. reflexivity. Qed.

Example sample_children_path :
run (VDict [(VStr "children",
             VList [VDict [(VStr "age", VInt 78)];
                    VDict [(VStr "age", VInt 77)];
                    VDict [(VStr "age", VNone)]])])
    (VDict [(VStr "children",
             VListOf 8 (VDict [(VStr "age",
                                VOr 9 [VType TInt; VType TFloat])]))])
    false
= Ret (VDict [(VStr "children",
               VList [VDict [(VStr "age", VInt 78)];
                      VDict [(VStr "age", VInt 77)];
                      VDict [(VStr "age", VNone)]])],
       [D3 ".children[2].age" (VStr "not a float") VNone]).
Proof. vm_compute. reflexivity. Qed.

Example sample_force_value :
run (VDict [(VStr "age", VInt 44)]) (VDict [(VStr "age", doubler)]) false
= Ret (VDict [(VStr "age", VInt 88)], []).
Proof. vm_compute. reflexivity. Qed.

Example sample_error_message :
run (VDict [(VStr "age", VInt (-44))]) (VDict [(VStr "age", positive)])
    false
= Ret (VDict [(VStr "age", VInt (-44))],
       [D3 ".age" (VStr "an age is always positive!") (VInt (-44))]).
Proof. vm_compute. reflexivity. Qed.

(** [validate( 123,123 )], [validate( 123,int )] and [validate( 123,float )],
  whose output is the float 123.0. *)
Example sample_scalars :
run (VInt 123) (VInt 123) false = Ret (VInt 123, [])
/\ run (VInt 123) (VType TInt) false = Ret (VInt 123, [])
/\ run (VInt 123) (VType TFloat) false
   = Ret (VFloat (S754_finite false 8655355533852672 (-46)), [])
/\ py_eq (VFloat (S754_finite false 8655355533852672 (-46))) (VInt 123)
   = true.
Proof. repeat split; vm_compute; reflexivity. Qed.

(** The first element of a sequence is at index 0. *)
Example sample_first_index :
run (VList [VList [VNone]]) (VList [VList [VType TInt]]) false
= Ret (VList [VList [VNone]], [D3 "[0][0]" (VStr "not a int") VNone]).
Proof. vm_compute. reflexivity. Qed.

(** An [Or] node given as the value to itself is accepted by the equality
  test of line 285, before any choice is tried. *)
Example sample_node_against_itself :
run (VOr 3 [VType TInt]) (VOr 3 [VType TInt]) false
= Ret (VOr 3 [VType TInt], []).
Proof. vm_compute. reflexivity. Qed.

(** [assert read_data( charlot,'.children[0].age' ) == 78], and what
  [read_data] does with other paths. *)
Example sample_read_data :
MoreSamples.read MoreSamples.charlot ".children[0].age" = Ret (VInt 78)
/\ MoreSamples.read MoreSamples.charlot ".children[-1].name"
   = Ret (VStr "Gardin")
/\ MoreSamples.read MoreSamples.charlot "children" = Ret VNone
/\ MoreSamples.read MoreSamples.charlot ".children[ 1_0 ]"
   = Raise (IndexError "list index out of range")
/\ MoreSamples.read MoreSamples.charlot ".children[x]"
   = Raise (ValueError ("invalid literal for int() with base 10: "
                        ++ squote ++ "x" ++ squote))
/\ MoreSamples.read MoreSamples.charlot ".children[2].age"
   = Raise (KeyError (squote ++ "age" ++ squote)).
Proof. repeat split; vm_compute; reflexivity. Qed.

(** The report on this record, whose paths [read_data] reads back. *)
Example sample_family_report :
run MoreSamples.charlot MoreSamples.family_scheme false
= Ret (MoreSamples.charlot,
       [D3 ".children[1].name" (VStr "not a str") (VBool false);
        D3 ".children[2]" (VStr "not found") (VStr "age")]).
Proof. vm_compute. reflexivity. Qed.

(** The two validations of [charlot] with [date_checker]: the years 1889
  and 1977 pass, and after [reset] a birth in 2010 is reported once. *)
Example sample_date_checker :
fst (validate
       (DateChecker.call MoreSamples.compare_other MoreSamples.call_other)
       py_str (DateChecker.record 1889 1977) DateChecker.birth_first false
       DateChecker.reset)
= Ret (DateChecker.record 1889 1977, [])
/\ fst (validate
          (DateChecker.call MoreSamples.compare_other MoreSamples.call_other)
          py_str (DateChecker.record 2010 1977) DateChecker.birth_first
          false DateChecker.reset)
   = Ret (DateChecker.record 2010 1977,
          [D3 ".death_year" (VStr "death must be after birth") (VInt 1977)])
/\ fst (validate
          (DateChecker.call MoreSamples.compare_other MoreSamples.call_other)
          py_str (DateChecker.record 1700 1977) DateChecker.birth_first
          false DateChecker.reset)
   = Ret (DateChecker.record 1700 1977,
          [D3 ".birth_year" (VStr "invalid year") (VInt 1700)]).
Proof. repeat split; vm_compute; reflexivity. Qed.

End SampleChecks.
